(** * portage.dep: dependency atoms, REQUIRED_USE, and the match engine

    A shallow embedding of [lib/portage/dep/__init__.py] and
    [lib/portage/dep/atom.py].  Python [str] values are [string]s, Python
    exceptions are the error side of a small result monad, [frozenset]s of
    USE flags are [gset string], and objects that the code mutates or
    shares (the REQUIRED_USE tree, the lists cached by [use_reduce]) live
    in explicit stores addressed by index. *)

From Stdlib Require Import ZArith String Ascii List Bool Lia.
From stdpp Require Import base option list gmap strings.

Local Open Scope Z_scope.
Local Open Scope stdpp_scope.

(** ** Exceptions *)

Inductive exn :=
| InvalidAtom
| InvalidData
| InvalidDependString
| PortageException
| KeyError
| ValueError
| TypeError
| AssertionError
| AttributeError
| IndexError
| RecursionError.

Global Instance exn_eq_dec : EqDecision exn.
Proof. solve_decision. Defined.

Inductive result (A : Type) :=
| Ok (a : A)
| Raise (e : exn).
Global Arguments Ok {A} a.
Global Arguments Raise {A} e.

Definition bind {A B} (m : result A) (f : A -> result B) : result B :=
  match m with
  | Ok a => f a
  | Raise e => Raise e
  end.

Notation "'let!' x ':=' m 'in' k" := (bind m (fun x => k))
  (at level 10, x name, m at level 100, k at level 200,
   format "'[v' 'let!'  x  ':='  m  'in' '/' k ']'").

Definition of_option {A} (e : exn) (o : option A) : result A :=
  match o with
  | Some a => Ok a
  | None => Raise e
  end.

(** [for x in xs: st = body x st], stopping at the first exception *)
Fixpoint for_each {A S} (body : A -> S -> result S) (xs : list A) (st : S)
  : result S :=
  match xs with
  | [] => Ok st
  | x :: xs' => let! st' := body x st in for_each body xs' st'
  end.

(** ** Python [str] primitives used by the module *)

Module Py.

Definition is_space (c : ascii) : bool :=
    let n := nat_of_ascii c in
    ((9 <=? n) && (n <=? 13) || (28 <=? n) && (n <=? 32))%nat.

Definition isdigit_char (c : ascii) : bool :=
    let n := nat_of_ascii c in ((48 <=? n) && (n <=? 57))%nat.

  (** [str.isdigit()]: non-empty and every character a digit *)
Definition isdigit (s : string) : bool :=
    match s with
    | EmptyString => false
    | _ => forallb isdigit_char (list_ascii_of_string s)
    end.

  (** [str.split()] with no argument *)
Fixpoint split_go (cur : option string) (s : string) : list string :=
    match s with
    | EmptyString => option_list (String.rev <$> cur)
    | String a s' =>
        if is_space a
        then option_list (String.rev <$> cur) ++ split_go None s'
        else split_go (Some (String a (default EmptyString cur))) s'
    end.
Definition split (s : string) : list string := split_go None s.

  (** [sep.join(parts)] *)
Fixpoint join (sep : string) (parts : list string) : string :=
    match parts with
    | [] => EmptyString
    | [p] => p
    | p :: ps => p +:+ sep +:+ join sep ps
    end.

  (** [s[-1:]] as an optional character *)
Fixpoint last_char (s : string) : option ascii :=
    match s with
    | EmptyString => None
    | String c EmptyString => Some c
    | String _ s' => last_char s'
    end.

  (** [s[:-1]] *)
Fixpoint drop_last (s : string) : string :=
    match s with
    | EmptyString => EmptyString
    | String _ EmptyString => EmptyString
    | String c s' => String c (drop_last s')
    end.

  (** [s[n:]] *)
Fixpoint drop (n : nat) (s : string) : string :=
    match n, s with
    | O, _ => s
    | S n', String _ s' => drop n' s'
    | S _, EmptyString => EmptyString
    end.

  (** [s[:n]] *)
Fixpoint take (n : nat) (s : string) : string :=
    match n, s with
    | S n', String c s' => String c (take n' s')
    | _, _ => EmptyString
    end.

Definition startswith (s p : string) : bool := String.prefix p s.

  (** [s.find(sub)] from the start; [None] is Python's -1 *)
Definition find (s sub : string) : option nat := String.index 0 sub s.

  (** [s.find(sub, start)] *)
Definition find_from (s sub : string) (start : nat) : option nat :=
    String.index start sub s.

  (** [sub in s] *)
Definition contains (s sub : string) : bool :=
    match find s sub with Some _ => true | None => false end.

  (** [s.lstrip("0")] *)
Fixpoint lstrip0 (s : string) : string :=
    match s with
    | String "0"%char s' => lstrip0 s'
    | _ => s
    end.

  (** [s.lstrip(c)] for a one-character argument *)
Fixpoint lstrip (c : ascii) (s : string) : string :=
    match s with
    | String c' s' => if bool_decide (c' = c) then lstrip c s' else s
    | EmptyString => s
    end.

  (** [s.replace(old, new, 1)] *)
Definition replace1 (s old new : string) : string :=
    match find s old with
    | Some i => take i s +:+ new +:+ drop (i + String.length old) s
    | None => s
    end.

  (** truthiness of a [str] *)
Definition truthy (s : string) : bool :=
    match s with EmptyString => false | _ => true end.

  (** [s[i:j]] for [0 <= i] and [0 <= j] *)
Definition slice (i j : nat) (s : string) : string :=
    take (j - i) (drop i s).

  (** [s[:-n]] for a length [n]: Python reads [s[:-0]] as [s[:0]] *)
Definition drop_right (n : nat) (s : string) : string :=
    match n with
    | O => EmptyString
    | _ => take (String.length s - n) s
    end.

  (** [s.split(sep)] for a one-character separator *)
Fixpoint split_on_go (sep : ascii) (cur : string) (s : string) : list string :=
    match s with
    | EmptyString => [String.rev cur]
    | String c s' =>
        if bool_decide (c = sep)
        then String.rev cur :: split_on_go sep EmptyString s'
        else split_on_go sep (String c cur) s'
    end.
Definition split_on (sep : ascii) (s : string) : list string :=
    split_on_go sep EmptyString s.

  (** [s.split(sep)[0]]: the text before the first [sep] *)
Definition before_first (sep s : string) : string :=
    match String.index 0 sep s with
    | Some i => take i s
    | None => s
    end.

  (** [int(s)] on a string of decimal digits; [None] is [ValueError].
      The strings converted here are cut out of a version match, so
      signs, blanks and underscores do not occur. *)
Definition int (s : string) : option Z :=
    if isdigit s
    then Some (fold_left
                 (fun acc c => 10 * acc + Z.of_nat (nat_of_ascii c - 48))
                 (list_ascii_of_string s) 0)
    else None.

Definition ends_with_char (c : ascii) (s : string) : bool :=
    match last_char s with
    | Some c' => bool_decide (c' = c)
    | None => false
    end.

End Py.

(** ** EAPI attributes

    [portage.eapi._get_eapi_attrs] is an external collaborator; the record
    lists the attributes this module reads. *)

Record _eapi_attrs := {
  empty_groups_always_true : bool;
  required_use_at_most_one_of : bool;
  src_uri_arrows : bool;
  selective_src_uri_restriction : bool;
  slot_operator : bool;
  slot_deps : bool;
  use_deps : bool;
  use_dep_defaults : bool;
  strong_blocks : bool;
  repo_deps : bool
}.

(** ** REQUIRED_USE trees

    [_RequiredUseLeaf] and [_RequiredUseBranch] objects refer to each other
    through [_children] and [_parent] and are spliced in place while the
    string is parsed, so they live in an arena: a node is named by its
    index, and every update rewrites the arena cell. *)

Module RequiredUse.

Inductive obj :=
  | Leaf (_token : string) (_satisfied : bool)
  | Branch (_children : list nat) (_operator : option string)
           (_parent : option nat) (_satisfied : bool).

Definition arena := list obj.

  (** entries of the evaluation stack: verdicts and pending operators *)
Inductive item :=
  | IBool (b : bool)
  | IStr (s : string).

Global Instance item_eq_dec : EqDecision item.
  Proof. solve_decision. Defined.

Definition get (a : arena) (i : nat) : result obj :=
    of_option AttributeError (a !! i).

Definition children (a : arena) (i : nat) : result (list nat) :=
    let! n := get a i in
    match n with
    | Branch cs _ _ _ => Ok cs
    | Leaf _ _ => Raise AttributeError
    end.

Definition operator (a : arena) (i : nat) : result (option string) :=
    let! n := get a i in
    match n with
    | Branch _ op _ _ => Ok op
    | Leaf _ _ => Raise AttributeError
    end.

Definition parent (a : arena) (i : nat) : result (option nat) :=
    let! n := get a i in
    match n with
    | Branch _ _ p _ => Ok p
    | Leaf _ _ => Raise AttributeError
    end.

  (** [node._parent] used as an object: [None] has no attributes *)
Definition parent_obj (a : arena) (i : nat) : result nat :=
    let! p := parent a i in of_option AttributeError p.

Definition satisfied (a : arena) (i : nat) : result bool :=
    let! n := get a i in
    match n with
    | Branch _ _ _ s => Ok s
    | Leaf _ s => Ok s
    end.

Definition is_branch (a : arena) (i : nat) : bool :=
    match a !! i with
    | Some (Branch _ _ _ _) => true
    | _ => false
    end.

Definition set_satisfied (a : arena) (i : nat) (s : bool) : result arena :=
    let! n := get a i in
    match n with
    | Branch cs op p _ => Ok (<[i := Branch cs op p s]> a)
    | Leaf _ _ => Raise AttributeError
    end.

Definition set_parent (a : arena) (i : nat) (p : option nat) : result arena :=
    let! n := get a i in
    match n with
    | Branch cs op _ s => Ok (<[i := Branch cs op p s]> a)
    | Leaf _ _ => Raise AttributeError
    end.

Definition set_children (a : arena) (i : nat) (cs : list nat) : result arena :=
    let! n := get a i in
    match n with
    | Branch _ op p s => Ok (<[i := Branch cs op p s]> a)
    | Leaf _ _ => Raise AttributeError
    end.

  (** [node._children.append(c)] *)
Definition append_child (a : arena) (i c : nat) : result arena :=
    let! cs := children a i in set_children a i (cs ++ [c]).

  (** [last_node = p._children.pop()] followed by the identity assertion
      [if last_node is not node: raise AssertionError] *)
Definition pop_last_child (a : arena) (p i : nat) : result arena :=
    let! cs := children a p in
    match last cs with
    | None => Raise IndexError
    | Some c =>
        let! a' := set_children a p (removelast cs) in
        if bool_decide (c = i) then Ok a' else Raise AssertionError
    end.

  (** [for child in node._children: p._children.append(child); if
      isinstance(child, _RequiredUseBranch): child._parent = p] *)
Definition adopt_children (a : arena) (i p : nat) : result arena :=
    let! cs := children a i in
    for_each (fun c a =>
                let! a' := append_child a p c in
                if is_branch a' c then set_parent a' c (Some p) else Ok a')
             cs a.

Definition in_ops (ops : list string) (o : option string) : bool :=
    match o with
    | Some s => bool_decide (s ∈ ops)
    | None => false
    end.




  (** *** [check_required_use] *)

Record state := {
    stack : list (list item);
    level : nat;
    tree : arena;
    node : nat;
    need_bracket : bool
  }.

  (** [stack[level]] *)
Definition stack_at (stk : list (list item)) (lvl : nat) : result (list item) :=
    of_option IndexError (stk !! lvl).

  (** [stack[level].append(x)] *)
Definition stack_append (stk : list (list item)) (lvl : nat) (x : item)
    : result (list (list item)) :=
    let! cur := stack_at stk lvl in Ok (<[lvl := cur ++ [x]]> stk).

  (** [stack[level].pop()], dropping the popped entry *)
Definition stack_drop_last (stk : list (list item)) (lvl : nat)
    : result (list (list item)) :=
    let! cur := stack_at stk lvl in Ok (<[lvl := removelast cur]> stk).

  Section CheckRequiredUse.

    Variable _get_eapi_attrs : option string -> _eapi_attrs.

    Variable required_use : string.
    Variable use : gset string.
    Variable iuse_match : string -> bool.
    Variable eapi : option string.

Definition eapi_attrs : _eapi_attrs := _get_eapi_attrs eapi.

Definition valid_operators : list string :=
      if required_use_at_most_one_of eapi_attrs
      then ["||"; "^^"; "??"]
      else ["||"; "^^"].

Definition is_active (token : string) : result bool :=
      let '(flag, is_negated) :=
        if Py.startswith token "!" then (Py.drop 1 token, true)
        else (token, false) in
      if negb (Py.truthy flag) || negb (iuse_match flag)
      then Raise InvalidDependString
      else Ok (bool_decide (flag ∈ use) && negb is_negated
               || bool_decide (flag ∉ use) && is_negated).

Definition count_true (argument : list item) : nat :=
      length (filter (fun x => x = IBool true) argument).

    (** Every caller passes an operator of [valid_operators] or a token
        that ends in [?], so one of the four tests applies; Python's
        fall-through [None] is rendered as [false]. *)
Definition is_satisfied (operator : string) (argument : list item) : bool :=
      if bool_decide (argument = []) && empty_groups_always_true eapi_attrs
      then true
      else if bool_decide (operator = "||")
      then bool_decide (IBool true ∈ argument)
      else if bool_decide (operator = "^^")
      then bool_decide (count_true argument = 1%nat)
      else if bool_decide (operator = "??")
      then bool_decide (count_true argument ≤ 1)%nat
      else if Py.ends_with_char "?" operator
      then bool_decide (IBool false ∉ argument)
      else false.

    (** the splice shared by the two flattening branches: pop [i] from its
        parent and hand its children over to the parent *)
Definition splice_into_parent (a : arena) (i : nat) : result arena :=
      let! p := parent_obj a i in
      let! a := pop_last_child a p i in
      adopt_children a i p.

    (** the three-way [if op is None / elif / elif] that compacts the tree *)
Definition compact (a : arena) (nd : nat) (op : option string)
      : result (arena * nat) :=
      match op with
      | None =>
          let! cs := children a nd in
          let! flatten :=
            (if bool_decide (length cs ≤ 1)%nat then Ok true
             else let! p := parent_obj a nd in
                  let! pop := operator a p in
                  Ok (negb (in_ops valid_operators pop))) in
          if flatten
          then let! a := splice_into_parent a nd in Ok (a, nd)
          else Ok (a, nd)
      | Some o =>
          let! cs := children a nd in
          match cs with
          | [] =>
              let! p := parent_obj a nd in
              let! a := pop_last_child a p nd in
              Ok (a, nd)
          | [c] =>
              if bool_decide (o ∈ valid_operators) then
                let! p := parent_obj a nd in
                let! a := pop_last_child a p nd in
                let! a := append_child a p c in
                if is_branch a c then
                  let! a := set_parent a c (Some p) in
                  let nd := c in
                  let! nop := operator a nd in
                  let! p' := parent_obj a nd in
                  let! pop := operator a p' in
                  if bool_decide (nop = None) && negb (in_ops valid_operators pop)
                  then let! a := splice_into_parent a nd in Ok (a, nd)
                  else Ok (a, nd)
                else Ok (a, nd)
              else Ok (a, nd)
          | _ => Ok (a, nd)
          end
      end.

Definition close_bracket (st : state) : result state :=
      if need_bracket st then Raise InvalidDependString else
      if bool_decide (0 < level st)%nat then
        let lvl := (level st - 1)%nat in
        let! l := of_option IndexError (last (stack st)) in
        let stk := removelast (stack st) in
        let! cur := stack_at stk lvl in
        let evaluate (o : string) (stk : list (list item)) (a : arena) :=
          let sat := is_satisfied o l in
          let! stk := stack_append stk lvl (IBool sat) in
          let! a := set_satisfied a (node st) sat in
          Ok (stk, a) in
        let finish (stk : list (list item)) (a : arena) (op : option string) :=
          let! a :=
            (match op with
             | None =>
                 let sat := bool_decide (IBool false ∉ l) in
                 let! a := set_satisfied a (node st) sat in
                 Ok a
             | Some _ => Ok a
             end) in
          let! stk :=
            (match op, l with
             | None, _ :: _ => stack_append stk lvl (IBool (bool_decide (IBool false ∉ l)))
             | _, _ => Ok stk
             end) in
          let! an := compact a (node st) op in
          let! p := parent_obj an.1 an.2 in
          Ok {| stack := stk; level := lvl; tree := an.1; node := p;
                need_bracket := false |} in
        match last cur with
        | Some (IStr o) =>
            if bool_decide (o ∈ valid_operators) then
              let! stk := stack_drop_last stk lvl in
              let! sa := evaluate o stk (tree st) in
              finish sa.1 sa.2 (Some o)
            else if Py.ends_with_char "?" o then
              let! stk := stack_drop_last stk lvl in
              let! active := is_active (Py.drop_last o) in
              if active then
                let! sa := evaluate o stk (tree st) in
                finish sa.1 sa.2 (Some o)
              else
                let! a := set_satisfied (tree st) (node st) true in
                let! p := parent_obj a (node st) in
                let! a := pop_last_child a p (node st) in
                Ok {| stack := stk; level := lvl; tree := a; node := p;
                      need_bracket := false |}
            else finish stk (tree st) None
        | _ => finish stk (tree st) None
        end
      else Raise InvalidDependString.

    (** [child = _RequiredUseBranch(operator, parent=node);
        node._children.append(child); node = child] *)
Definition open_branch (a : arena) (nd : nat) (op : option string)
      : result (arena * nat) :=
      let child := length a in
      let a := a ++ [Branch [] op (Some nd) false] in
      let! a := append_child a nd child in
      Ok (a, child).

Definition step (token : string) (st : state) : result state :=
      if bool_decide (token = "(") then
        let! an :=
          (if need_bracket st then Ok (tree st, node st)
           else open_branch (tree st) (node st) None) in
        Ok {| stack := stack st ++ [[]]; level := S (level st);
              tree := an.1; node := an.2; need_bracket := false |}
      else if bool_decide (token = ")") then close_bracket st
      else if bool_decide (token ∈ valid_operators) then
        if need_bracket st then Raise InvalidDependString else
        let! stk := stack_append (stack st) (level st) (IStr token) in
        let! an := open_branch (tree st) (node st) (Some token) in
        Ok {| stack := stk; level := level st; tree := an.1; node := an.2;
              need_bracket := true |}
      else
        if need_bracket st then Raise InvalidDependString else
        if Py.ends_with_char "?" token then
          let! stk := stack_append (stack st) (level st) (IStr token) in
          let! an := open_branch (tree st) (node st) (Some token) in
          Ok {| stack := stk; level := level st; tree := an.1; node := an.2;
                need_bracket := true |}
        else
          let! sat := is_active token in
          let! stk := stack_append (stack st) (level st) (IBool sat) in
          let leaf := length (tree st) in
          let! a := append_child (tree st ++ [Leaf token sat]) (node st) leaf in
          Ok {| stack := stk; level := level st; tree := a; node := node st;
                need_bracket := false |}.

Definition initial : state :=
      {| stack := [[]]; level := 0; tree := [Branch [] None None false];
         node := 0; need_bracket := false |}.

    (** The returned tree is the arena; its root object is cell 0. *)
Definition check_required_use : result arena :=
      let! st := for_each step (Py.split required_use) initial in
      if bool_decide (level st ≠ 0%nat) || need_bracket st
      then Raise InvalidDependString
      else
        let! top := stack_at (stack st) 0 in
        set_satisfied (tree st) 0 (bool_decide (IBool false ∉ top)).

  End CheckRequiredUse.

  (** [bool(tree)] and [tree.tounicode()] of a returned tree *)
Definition verdict (r : result arena) : result bool :=
    let! a := r in satisfied a 0.


End RequiredUse.

(** ** USE dependencies: [_use_dep] *)

Module UseDep.

  (** *** The token grammar [_usedep_re]

      An optional prefix [!] or [-]; the flag, an ASCII letter or digit
      followed by any number of letters, digits, [+], [_], [@] and [-];
      an optional default, the text (+) or (-); an optional suffix [?]
      or [=]; the end of the string.

      Every group is followed by characters that cannot extend it, so the
      greedy match is the only one; [$] also matches before one final
      newline. *)

Record groups := {
    g_prefix : string;
    g_flag : string;
    g_default : string;
    g_suffix : string
  }.

Definition between (lo hi : nat) (c : ascii) : bool :=
    let n := nat_of_ascii c in ((lo <=? n) && (n <=? hi))%nat.

Definition is_alnum (c : ascii) : bool :=
    between 65 90 c || between 97 122 c || between 48 57 c.

Definition is_flag_char (c : ascii) : bool :=
    is_alnum c
    || bool_decide (c = "+"%char) || bool_decide (c = "_"%char)
    || bool_decide (c = "@"%char) || bool_decide (c = "-"%char).

  (** longest prefix of [s] whose characters satisfy [p], and the rest *)
Fixpoint span (p : ascii -> bool) (s : string) : string * string :=
    match s with
    | String c s' =>
        if p c then let '(a, b) := span p s' in (String c a, b)
        else (EmptyString, s)
    | EmptyString => (EmptyString, EmptyString)
    end.

Definition take_prefix (x : string) : string * string :=
    match x with
    | String c r =>
        if bool_decide (c = "!"%char) || bool_decide (c = "-"%char)
        then (String c EmptyString, r) else (EmptyString, x)
    | EmptyString => (EmptyString, EmptyString)
    end.

Definition take_default (r : string) : string * string :=
    if Py.startswith r "(+)" then ("(+)", Py.drop 3 r)
    else if Py.startswith r "(-)" then ("(-)", Py.drop 3 r)
    else (EmptyString, r).

Definition take_suffix (r : string) : string * string :=
    match r with
    | String c r' =>
        if bool_decide (c = "?"%char) || bool_decide (c = "="%char)
        then (String c EmptyString, r') else (EmptyString, r)
    | EmptyString => (EmptyString, EmptyString)
    end.

Definition at_end (r : string) : bool :=
    bool_decide (r = EmptyString)
    || bool_decide (r = String "010"%char EmptyString).

Definition usedep_re_match (x : string) : option groups :=
    let '(pre, r) := take_prefix x in
    match r with
    | String c r1 =>
        if is_alnum c then
          let '(fl, r2) := span is_flag_char r1 in
          let '(def, r3) := take_default r2 in
          let '(suf, r4) := take_suffix r3 in
          if at_end r4
          then Some {| g_prefix := pre; g_flag := String c fl;
                       g_default := def; g_suffix := suf |}
          else None
        else None
    | EmptyString => None
    end.

  (** *** The class *)

Record conditionals := {
    c_enabled : gset string;
    c_disabled : gset string;
    c_equal : gset string;
    c_not_equal : gset string
  }.

Record _use_dep := {
    _eapi_attrs_of : _eapi_attrs;
    tokens : list string;
    required : gset string;
    enabled : gset string;
    disabled : gset string;
    missing_enabled : gset string;
    missing_disabled : gset string;
    conditional : option conditionals
  }.

  (** the [conditional] dict built while parsing: key to flag set *)
Definition cond_dict := gmap string (gset string).

  (** [conditional.setdefault(k, set()).add(flag)] *)
Definition cond_add (d : cond_dict) (k flag : string) : cond_dict :=
    <[k := {[flag]} ∪ default ∅ (d !! k)]> d.

  (** [if conditional: ... setattr(self.conditional, k,
      frozenset(conditional.get(k, [])))] *)
Definition conditionals_of (d : option cond_dict) : option conditionals :=
    match d with
    | Some d =>
        if bool_decide (d = ∅) then None
        else Some {| c_enabled := default ∅ (d !! "enabled");
                     c_disabled := default ∅ (d !! "disabled");
                     c_equal := default ∅ (d !! "equal");
                     c_not_equal := default ∅ (d !! "not_equal") |}
    | None => None
    end.

  (** [__init__] when [enabled_flags is not None]: "a shortcut for the
      class's own methods" *)
Definition init_shortcut (use : list string) (attrs : _eapi_attrs)
      (enabled_flags disabled_flags missing_en missing_dis : gset string)
      (cond : option cond_dict) (req : gset string) : _use_dep :=
    {| _eapi_attrs_of := attrs;
       tokens := use;
       required := req;
       enabled := enabled_flags;
       disabled := disabled_flags;
       missing_enabled := missing_en;
       missing_disabled := missing_dis;
       conditional := conditionals_of cond |}.

Record parse_state := {
    enabled_flags : gset string;
    disabled_flags : gset string;
    ps_missing_enabled : gset string;
    ps_missing_disabled : gset string;
    no_default : gset string;
    ps_conditional : cond_dict
  }.

Definition parse_token (x : string) (st : parse_state) : result parse_state :=
    match usedep_re_match x with
    | None => Raise InvalidAtom
    | Some m =>
        let operator := g_prefix m +:+ g_suffix m in
        let fl := g_flag m in
        let! st :=
          (if bool_decide (operator = "") then
             Ok {| enabled_flags := {[fl]} ∪ enabled_flags st;
                   disabled_flags := disabled_flags st;
                   ps_missing_enabled := ps_missing_enabled st;
                   ps_missing_disabled := ps_missing_disabled st;
                   no_default := no_default st;
                   ps_conditional := ps_conditional st |}
           else if bool_decide (operator = "-") then
             Ok {| enabled_flags := enabled_flags st;
                   disabled_flags := {[fl]} ∪ disabled_flags st;
                   ps_missing_enabled := ps_missing_enabled st;
                   ps_missing_disabled := ps_missing_disabled st;
                   no_default := no_default st;
                   ps_conditional := ps_conditional st |}
           else
             let! key :=
               (if bool_decide (operator = "?") then Ok "enabled"
                else if bool_decide (operator = "=") then Ok "equal"
                else if bool_decide (operator = "!=") then Ok "not_equal"
                else if bool_decide (operator = "!?") then Ok "disabled"
                else Raise InvalidAtom) in
             Ok {| enabled_flags := enabled_flags st;
                   disabled_flags := disabled_flags st;
                   ps_missing_enabled := ps_missing_enabled st;
                   ps_missing_disabled := ps_missing_disabled st;
                   no_default := no_default st;
                   ps_conditional := cond_add (ps_conditional st) key fl |}) in
        if Py.truthy (g_default m) then
          if bool_decide (g_default m = "(+)") then
            if bool_decide (fl ∈ ps_missing_disabled st)
               || bool_decide (fl ∈ no_default st)
            then Raise InvalidAtom
            else Ok {| enabled_flags := enabled_flags st;
                       disabled_flags := disabled_flags st;
                       ps_missing_enabled := {[fl]} ∪ ps_missing_enabled st;
                       ps_missing_disabled := ps_missing_disabled st;
                       no_default := no_default st;
                       ps_conditional := ps_conditional st |}
          else
            if bool_decide (fl ∈ ps_missing_enabled st)
               || bool_decide (fl ∈ no_default st)
            then Raise InvalidAtom
            else Ok {| enabled_flags := enabled_flags st;
                       disabled_flags := disabled_flags st;
                       ps_missing_enabled := ps_missing_enabled st;
                       ps_missing_disabled := {[fl]} ∪ ps_missing_disabled st;
                       no_default := no_default st;
                       ps_conditional := ps_conditional st |}
        else
          if bool_decide (fl ∈ ps_missing_enabled st)
             || bool_decide (fl ∈ ps_missing_disabled st)
          then Raise InvalidAtom
          else Ok {| enabled_flags := enabled_flags st;
                     disabled_flags := disabled_flags st;
                     ps_missing_enabled := ps_missing_enabled st;
                     ps_missing_disabled := ps_missing_disabled st;
                     no_default := {[fl]} ∪ no_default st;
                     ps_conditional := ps_conditional st |}
    end.

  (** [__init__] on the tokens of a bracket suffix *)
Definition init (use : list string) (attrs : _eapi_attrs) : result _use_dep :=
    let! st :=
      for_each parse_token use
        {| enabled_flags := ∅; disabled_flags := ∅;
           ps_missing_enabled := ∅; ps_missing_disabled := ∅;
           no_default := ∅; ps_conditional := ∅ |} in
    Ok {| _eapi_attrs_of := attrs;
          tokens := use;
          required := no_default st;
          enabled := enabled_flags st;
          disabled := disabled_flags st;
          missing_enabled := ps_missing_enabled st;
          missing_disabled := ps_missing_disabled st;
          conditional := conditionals_of (Some (ps_conditional st)) |}.

  (** [__bool__] *)
Definition truthy (u : _use_dep) : bool :=
    match tokens u with [] => false | _ => true end.

  (** [__str__] *)
Definition to_str (u : _use_dep) : string :=
    match tokens u with
    | [] => ""
    | ts => "[" +:+ Py.join "," ts +:+ "]"
    end.

  (** one turn of the loop of [evaluate_conditionals]; the accumulator
      is [(enabled_flags, disabled_flags, tokens)] *)
Definition eval_token (use : gset string) (x : string)
      (acc : gset string * gset string * list string)
    : result (gset string * gset string * list string) :=
    let '(en, dis, toks) := acc in
    let! m := of_option AttributeError (usedep_re_match x) in
    let operator := g_prefix m +:+ g_suffix m in
    let fl := g_flag m in
    let def := g_default m in
    if bool_decide (operator = "?") then
      if bool_decide (fl ∈ use)
      then Ok ({[fl]} ∪ en, dis, toks ++ [fl +:+ def])
      else Ok (en, dis, toks)
    else if bool_decide (operator = "=") then
      if bool_decide (fl ∈ use)
      then Ok ({[fl]} ∪ en, dis, toks ++ [fl +:+ def])
      else Ok (en, {[fl]} ∪ dis, toks ++ ["-" +:+ fl +:+ def])
    else if bool_decide (operator = "!=") then
      if bool_decide (fl ∈ use)
      then Ok (en, {[fl]} ∪ dis, toks ++ ["-" +:+ fl +:+ def])
      else Ok ({[fl]} ∪ en, dis, toks ++ [fl +:+ def])
    else if bool_decide (operator = "!?") then
      if bool_decide (fl ∉ use)
      then Ok (en, {[fl]} ∪ dis, toks ++ ["-" +:+ fl +:+ def])
      else Ok (en, dis, toks)
    else Ok (en, dis, toks ++ [x]).

Definition evaluate_conditionals (self : _use_dep) (use : gset string)
    : result _use_dep :=
    let! acc := for_each (eval_token use) (tokens self)
                  (enabled self, disabled self, []) in
    Ok (init_shortcut acc.2 (_eapi_attrs_of self) acc.1.1 acc.1.2
          (missing_enabled self) (missing_disabled self) None
          (required self)).

(** a token that a second evaluation leaves alone: it matches, and its
    operator is none of [?], [=], [!=], [!?] *)
Definition settled (x : string) : Prop :=
  exists m, usedep_re_match x = Some m /\
    let operator := g_prefix m +:+ g_suffix m in
    operator <> "?" /\ operator <> "=" /\ operator <> "!=" /\ operator <> "!?".

End UseDep.

(** ** Package records and the external collaborators

    [portage.versions] ([_pkg_str], [catpkgsplit], [vercmp],
    [_unknown_repo]), [portage.eapi] and the compiled atom grammars are
    collaborators of this module; they enter as the fields of [Portage]. *)

Definition cpv_split_t : Type := string * string * string * string.

(** A candidate object that exposes attributes: a [_pkg_str], or a
    [Package], whose [cp], [version], [cpv_split], [slot] and [sub_slot]
    mirror those of its [cpv].  [p_cpv] is the text of [x.cpv]; a
    [_pkg_str] is its own [cpv]. *)
Record pkg := {
  p_cpv : string;
  p_cp : string;
  p_version : string;
  p_cpv_split : cpv_split_t;
  p_build_id : option Z;
  (** [None]: the object has no [slot] attribute *)
  p_slot : option string;
  p_sub_slot : option string;
  (** [getattr(x, "repo", False)]: [None] is [False], [Some None] is
      Python's [None] *)
  p_repo : option (option string);
  (** [getattr(x, "use", None)], as the set [x.use.enabled] *)
  p_use : option (gset string);
  (** [x.iuse.is_valid_flag] on one flag; on a set it holds when it holds
      of every member *)
  p_is_valid_flag : string -> bool
}.

(** members of a candidate list: plain strings or attribute-bearing
    objects *)
Inductive candidate :=
| CStr (s : string)
| CPkg (p : pkg).

(** the [cpv] of an atom: a [_pkg_str], or the bare text when that does
    not parse (plain cp, wildcard) *)
Inductive cpv_t :=
| CpvPkg (p : pkg)
| CpvStr (s : string).

Definition cpv_text (c : cpv_t) : string :=
  match c with
  | CpvPkg p => p_cpv p
  | CpvStr s => s
  end.

(** the alternative of [_atom_re] that matched, with its groups *)
Inductive atom_alt :=
| AltOp (op cpv cp : string) (version : option string)
| AltStar (cpv cp : string) (version : option string)
| AltSimple (cp : string) (version : option string).

Record atom_match := {
  m_without_use : string;
  m_alt : atom_alt;
  m_slot : option string;
  m_repo : option string;
  m_use : option string
}.

(** the alternative of [_atom_wildcard_re] that matched *)
Inductive wildcard_alt :=
| WStar (star cp version : string)
| WSimple (simple : string) (version : option string).

Record wildcard_match := {
  w_alt : wildcard_alt;
  w_slot : option string;
  w_repo : option string
}.

Class Portage := {
  _get_eapi_attrs : option string -> _eapi_attrs;
  (** [_get_atom_re(eapi_attrs).match] *)
  atom_re_match : string -> option atom_match;
  (** [_get_atom_wildcard_re(eapi_attrs).match] *)
  atom_wildcard_re_match : string -> option wildcard_match;
  (** [_get_slot_dep_re(eapi_attrs).match], by [eapi_attrs.slot_operator]:
      groups 1 and 2 *)
  slot_dep_re_match : bool -> string -> option (option string * option string);
  (** [_pkg_str(cpv, slot=...)]; [None] is [InvalidData] *)
  _pkg_str : string -> option string -> option pkg;
  (** [catpkgsplit], on a [_pkg_str] or a plain string *)
  catpkgsplit : cpv_t -> option cpv_split_t;
  (** [vercmp]: an integer, [None], or [ValueError] *)
  vercmp : string -> string -> result (option Z);
  _unknown_repo : string
}.

(** ** String helpers of [portage.dep] *)

(** [remove_slot] *)
Definition remove_slot (mydep : string) : string :=
  match Py.find mydep ":" with
  | Some colon => Py.take colon mydep
  | None =>
      match Py.find mydep "[" with
      | Some bracket => Py.take bracket mydep
      | None => mydep
      end
  end.

(** [dep_getslot] on a plain string (no [slot] attribute) *)
Definition dep_getslot_str (mydep : string) : option string :=
  let mydep := Py.before_first "::" mydep in
  match Py.find mydep ":" with
  | Some colon =>
      match Py.find_from mydep "[" colon with
      | None => Some (Py.drop (colon + 1) mydep)
      | Some bracket => Some (Py.slice (colon + 1) bracket mydep)
      end
  | None => None
  end.

(** [dep_getrepo] on an object with neither [repo] nor [metadata] *)
Definition dep_getrepo_str (mydep : string) : option string :=
  match Py.find mydep "::" with
  | Some colon =>
      match Py.find_from mydep "[" colon with
      | None => Some (Py.drop (colon + 2) mydep)
      | Some bracket => Some (Py.slice (colon + 2) bracket mydep)
      end
  | None => None
  end.

(** ** Atoms: [portage.dep.atom.Atom] *)

Module Atom.

Inductive blocker_t :=
  | NotBlocker
  | Blocker (forbid : bool).

Global Instance blocker_eq_dec : EqDecision blocker_t.
  Proof. solve_decision. Defined.

  (** [without_use] and [unevaluated_atom] default to the atom itself;
      [None] stands for that self-reference. *)
#[warnings="-register-all"]
Inductive t := Make {
    text : string;
    eapi : option string;
    blocker : blocker_t;
    cp : string;
    cpv : cpv_t;
    version : option string;
    repo : option string;
    slot : option string;
    sub_slot : option string;
    slot_operator_ : option string;
    operator : option string;
    extended_syntax : bool;
    build_id : option Z;
    use : option UseDep._use_dep;
    without_use : option t;
    unevaluated_atom : option t
  }.

  (** [self.unevaluated_atom.use] *)
Definition unevaluated_use (a : t) : option UseDep._use_dep :=
    match unevaluated_atom a with
    | Some u => use u
    | None => use a
    end.

  (** truthiness of [self.use]: not [None] and [bool(use)] *)
Definition use_truthy (u : option UseDep._use_dep) : bool :=
    match u with
    | Some u => UseDep.truthy u
    | None => false
    end.

  (** CPython's default [sys.getrecursionlimit()] *)
Definition recursion_limit : nat := 1000.

  (** what the grammar branches of [__init__] hand to the rest of it *)
Record parsed := {
    r_op : option string;
    r_cpv : string;
    r_cp : string;
    r_slot : option string;
    r_repo : option string;
    r_use_str : option string;
    r_without_use : string;
    r_extended_syntax : bool;
    r_extended_version : option string;
    r_build_id : option Z
  }.

  Section Init.

    Context `{Portage}.

    (** the [op] alternative, with its build-id suffix *)
Definition parse_op (m : atom_match) (op cpv cp : string)
        (ver : option string) (allow_build_id : bool) : result parsed :=
      let done (cpv cp : string) (bid : option Z) :=
        Ok {| r_op := Some op; r_cpv := cpv; r_cp := cp;
              r_slot := m_slot m; r_repo := m_repo m;
              r_use_str := m_use m; r_without_use := m_without_use m;
              r_extended_syntax := false; r_extended_version := None;
              r_build_id := bid |} in
      match ver with
      | None => done cpv cp None
      | Some v =>
          if allow_build_id then
            let cpv_build_id := cpv in
            let cpv := cp in
            let cp := Py.drop_right (String.length v) cp in
            let build_id := Py.drop (String.length cpv + 1) cpv_build_id in
            if bool_decide (1 < String.length build_id)%nat
               && bool_decide (Py.take 1 build_id = "0")
            then Raise InvalidAtom
            else
              match Py.int build_id with
              | Some n => done cpv cp (Some n)
              | None => Raise InvalidAtom
              end
          else Raise InvalidAtom
      end.

    (** the three alternatives of [_atom_re] *)
Definition parse_plain (m : atom_match) (allow_build_id : bool)
      : result parsed :=
      match m_alt m with
      | AltOp op cpv cp ver => parse_op m op cpv cp ver allow_build_id
      | AltStar cpv cp ver =>
          match ver with
          | Some _ => Raise InvalidAtom
          | None =>
              Ok {| r_op := Some "=*"; r_cpv := cpv; r_cp := cp;
                    r_slot := m_slot m; r_repo := m_repo m;
                    r_use_str := m_use m; r_without_use := m_without_use m;
                    r_extended_syntax := false; r_extended_version := None;
                    r_build_id := None |}
          end
      | AltSimple cp ver =>
          match ver with
          | Some _ => Raise InvalidAtom
          | None =>
              Ok {| r_op := None; r_cpv := cp; r_cp := cp;
                    r_slot := m_slot m; r_repo := m_repo m;
                    r_use_str := m_use m; r_without_use := m_without_use m;
                    r_extended_syntax := false; r_extended_version := None;
                    r_build_id := None |}
          end
      end.

    (** the fallback on [_atom_wildcard_re] *)
Definition parse_wildcard (s : string) : result parsed :=
      match atom_wildcard_re_match s with
      | None => Raise InvalidAtom
      | Some m =>
          let! ocv :=
            (match w_alt m with
             | WStar star cp ver => Ok (Some "=*", Py.drop 1 star, cp, Some ver)
             | WSimple simple ver =>
                 match ver with
                 | Some _ => Raise InvalidAtom
                 | None => Ok (None, simple, simple, None)
                 end
             end) in
          let '(op, cpv, cp, ev) := ocv in
          if Py.contains cpv "**" then Raise InvalidAtom
          else
            Ok {| r_op := op; r_cpv := cpv; r_cp := cp;
                  r_slot := w_slot m; r_repo := w_repo m;
                  r_use_str := None; r_without_use := EmptyString;
                  r_extended_syntax := true; r_extended_version := ev;
                  r_build_id := None |}
      end.

    (** [slot], [sub_slot], [slot_operator] from the slot suffix *)
Definition parse_slot (eapi_attrs : _eapi_attrs) (slot : option string)
      : result (option string * option string * option string) :=
      match slot with
      | None => Ok (None, None, None)
      | Some slot =>
          match slot_dep_re_match (slot_operator eapi_attrs) slot with
          | None => Raise InvalidAtom
          | Some (g1, g2) =>
              if slot_operator eapi_attrs then
                let sub_slot := Py.lstrip "/" <$> g2 in
                let '(sub_slot, slot_op) :=
                  if bool_decide (sub_slot = Some "*")
                     || bool_decide (sub_slot = Some "=")
                  then (None, sub_slot)
                  else
                    match sub_slot with
                    | Some ss =>
                        if Py.ends_with_char "=" ss
                        then (Some (Py.drop_last ss), Some "=")
                        else (Some ss, None)
                    | None => (None, None)
                    end in
                if bool_decide (g1 ≠ None) && bool_decide (slot_op = Some "*")
                then Raise InvalidAtom
                else Ok (g1, sub_slot, slot_op)
              else Ok (Some slot, None, None)
          end
      end.

    (** the [is_valid_flag] pass over [self.use.conditional] *)
Definition conditional_flags_valid (is_valid_flag : string -> bool)
        (c : UseDep.conditionals) : bool :=
      bool_decide
        (set_Forall (fun f => is_valid_flag f = true)
           (UseDep.c_enabled c ∪ UseDep.c_disabled c
            ∪ UseDep.c_equal c ∪ UseDep.c_not_equal c)).

    (** the closing block [if eapi is not None: ...] *)
Definition eapi_checks (eapi : option string) (eapi_attrs : _eapi_attrs)
        (is_valid_flag : option (string -> bool)) (a : t) : result t :=
      match eapi with
      | None => Ok a
      | Some _ =>
          if bool_decide (Py.truthy <$> slot a = Some true)
             && negb (slot_deps eapi_attrs)
          then Raise InvalidAtom else
          let! _ :=
            (match use a with
             | Some u =>
                 if UseDep.truthy u then
                   if negb (use_deps eapi_attrs) then Raise InvalidAtom
                   else if negb (use_dep_defaults eapi_attrs)
                           && (bool_decide (UseDep.missing_enabled u ≠ ∅)
                               || bool_decide (UseDep.missing_disabled u ≠ ∅))
                   then Raise InvalidAtom
                   else
                     match is_valid_flag, UseDep.conditional u with
                     | Some f, Some c =>
                         if conditional_flags_valid f c then Ok tt
                         else Raise InvalidAtom
                     | _, _ => Ok tt
                     end
                 else Ok tt
             | None => Ok tt
             end) in
          if bool_decide (blocker a = Blocker true)
             && negb (strong_blocks eapi_attrs)
          then Raise InvalidAtom
          else Ok a
      end.

    (** [Atom.__init__]; [fuel] counts the nested constructor calls that
        build [without_use] *)
Fixpoint init_rec (fuel : nat) (s : string) (unevaluated : option t)
        (allow_wildcard : bool) (allow_repo : option bool)
        (_use : option UseDep._use_dep) (eapi_arg : option string)
        (is_valid_flag : option (string -> bool))
        (allow_build_id : option bool) : result t :=
      match fuel with
      | O => Raise RecursionError
      | S fuel' =>
          let self := s in
          let eapi_attrs := _get_eapi_attrs eapi_arg in
          let allow_repo :=
            match eapi_arg, allow_repo with
            | _, Some b => b
            | Some _, None => repo_deps eapi_attrs
            | None, None => true
            end in
          let allow_build_id :=
            match eapi_arg, allow_build_id with
            | _, Some b => b
            | Some _, None => false
            | None, None => true
            end in
          let '(blk, blocker_prefix, s) :=
            if bool_decide (Py.take 1 s = "!") then
              if bool_decide (Py.slice 1 2 s = "!")
              then (Blocker true, Py.take 2 s, Py.drop 2 s)
              else (Blocker false, Py.take 1 s, Py.drop 1 s)
            else (NotBlocker, EmptyString, s) in
          let! r :=
            (match atom_re_match s with
             | None =>
                 if allow_wildcard then parse_wildcard s
                 else Raise InvalidAtom
             | Some m => parse_plain m allow_build_id
             end) in
          let '(cpv, ver) :=
            match _pkg_str (r_cpv r) None with
            | Some p => (CpvPkg p, Some (p_version p))
            | None => (CpvStr (r_cpv r), r_extended_version r)
            end in
          let! slots := parse_slot eapi_attrs (r_slot r) in
          let '(slot_, sub_slot_, slot_op) := slots in
          if negb (bool_decide (r_repo r = None) || allow_repo)
          then Raise InvalidAtom else
          let! uw :=
            (match r_use_str r with
             | Some use_str =>
                 let! u :=
                   (match _use with
                    | Some u => Ok u
                    | None =>
                        UseDep.init
                          (Py.split_on "," (Py.drop_last (Py.drop 1 use_str)))
                          eapi_attrs
                    end) in
                 let! w := init_rec fuel' (blocker_prefix +:+ r_without_use r)
                             None false (Some allow_repo) None None None None in
                 Ok (Some u, Some w)
             | None =>
                 match unevaluated with
                 | Some ua =>
                     match use ua with
                     | Some _ =>
                         let! w := init_rec fuel' self None allow_wildcard
                                     (Some allow_repo) None eapi_arg None None in
                         Ok (None, Some w)
                     | None => Ok (None, None)
                     end
                 | None => Ok (None, None)
                 end
             end) in
          let a :=
            {| text := self; eapi := eapi_arg; blocker := blk;
               cp := r_cp r; cpv := cpv; version := ver;
               repo := r_repo r; slot := slot_; sub_slot := sub_slot_;
               slot_operator_ := slot_op; operator := r_op r;
               extended_syntax := r_extended_syntax r;
               build_id := r_build_id r;
               use := uw.1; without_use := uw.2;
               unevaluated_atom :=
                 match unevaluated with
                 | Some ua => if Py.truthy (text ua) then Some ua else None
                 | None => None
                 end |} in
          eapi_checks eapi_arg eapi_attrs is_valid_flag a
      end.

Definition init := init_rec recursion_limit.

    (** [Atom(s, allow_wildcard=True, allow_repo=True)] *)
Definition of_string (s : string) : result t :=
      init s None true (Some true) None None None None.

    (** the text rebuilt by [evaluate_conditionals] before the USE part *)
Definition rebuilt_prefix (self : t) : string :=
      let atom := remove_slot (text self) in
      if bool_decide (slot self ≠ None) || bool_decide (slot_operator_ self ≠ None)
      then
        atom +:+ ":"
        +:+ default EmptyString (slot self)
        +:+ match sub_slot self with
            | Some ss => "/" +:+ ss
            | None => EmptyString
            end
        +:+ default EmptyString (slot_operator_ self)
      else atom.

Definition evaluate_conditionals (self : t) (use_set : gset string)
      : result t :=
      match use self with
      | Some u =>
          if UseDep.truthy u && bool_decide (UseDep.conditional u ≠ None) then
            let atom := rebuilt_prefix self in
            let! use_dep := UseDep.evaluate_conditionals u use_set in
            let atom := atom +:+ UseDep.to_str use_dep in
            init atom (Some self) false
              (Some (bool_decide (repo self ≠ None)))
              (Some use_dep) None None None
          else Ok self
      | None => Ok self
      end.

  End Init.

End Atom.

(** ** The match engine *)

Module Match.

  (** the first argument of [match_from_list]: an [Atom] or a [str] *)
Inductive dep_arg :=
  | DAtom (a : Atom.t)
  | DStr (s : string).

Definition dep_text (d : dep_arg) : string :=
    match d with
    | DAtom a => Atom.text a
    | DStr s => s
    end.

  (** [extended_cp_match]: the compiled pattern is the escaped text with
      every [*] turned into "any run of characters other than /", between
      [^] and [$] *)
Fixpoint glob_match (pat : list ascii) : string -> bool :=
    match pat with
    | [] => fun s => UseDep.at_end s
    | c :: pat' =>
        if bool_decide (c = "*"%char) then
          fix star (s : string) : bool :=
            glob_match pat' s
            || match s with
               | String c' s' =>
                   if bool_decide (c' = "/"%char) then false else star s'
               | EmptyString => false
               end
        else
          fun s =>
            match s with
            | String c' s' => bool_decide (c' = c) && glob_match pat' s'
            | EmptyString => false
            end
    end.

Definition extended_cp_match (extended_cp other_cp : string) : bool :=
    glob_match (list_ascii_of_string extended_cp) other_cp.

  (** [_match_slot] *)
Definition _match_slot (atom : Atom.t) (pkg_slot pkg_sub_slot : option string)
    : bool :=
    if bool_decide (pkg_slot = Atom.slot atom) then
      if negb (bool_decide (Py.truthy <$> Atom.sub_slot atom = Some true))
      then true
      else bool_decide (Atom.sub_slot atom = pkg_sub_slot)
    else false.

  (** [getattr(x, "cp", None)] *)
Definition attr_cp (x : candidate) : option string :=
    match x with
    | CPkg p => Some (p_cp p)
    | CStr _ => None
    end.

  (** the text of a candidate that is a [str] *)
Definition cand_text (x : candidate) : string :=
    match x with
    | CPkg p => p_cpv p
    | CStr s => s
    end.

Definition split_cp (xs : cpv_split_t) : string :=
    let '(cat, pkg, _, _) := xs in cat +:+ "/" +:+ pkg.

Definition split_ver (xs : cpv_split_t) : string :=
    let '(_, _, ver, _) := xs in ver.

Definition split_rev (xs : cpv_split_t) : string :=
    let '(_, _, _, rev) := xs in rev.

  (** The boundary rule of the [=*] glob in the words of the
      specification: the character that follows the matched prefix [a] in
      [x] is absent, or is one of [.], [_], [-], or differs in digit-ness
      from the last character of [a]. *)
Definition on_component_boundary (a x : string) : Prop :=
    match String.get (String.length a) x with
    | None => True
    | Some c =>
        c = "."%char \/ c = "_"%char \/ c = "-"%char
        \/ exists l, Py.last_char a = Some l
                     /\ Py.isdigit_char l <> Py.isdigit_char c
    end.

  (** [k] zeros *)
Fixpoint zeros (k : nat) : string :=
    match k with
    | O => EmptyString
    | S k' => String "0" (zeros k')
    end.

  (** A version with its leading zeros stripped, in the words of the
      specification: what follows the zeros if that starts with a digit,
      else one zero and what follows. *)
Definition without_leading_zeros (rest : string) : string :=
    if Py.isdigit (Py.take 1 rest) then rest else "0" +:+ rest.

  Section Engine.

    Context `{Portage}.

    (** [cpvequal] *)
Definition cpvequal (cpv1 cpv2 : cpv_t) : result bool :=
      let as_pkg (c : cpv_t) : result pkg :=
        match c with
        | CpvPkg p => Ok p
        | CpvStr s => of_option PortageException (_pkg_str s None)
        end in
      let! p1 := as_pkg cpv1 in
      let! p2 := as_pkg cpv2 in
      let '(c1, n1, _, _) := p_cpv_split p1 in
      let '(c2, n2, _, _) := p_cpv_split p2 in
      if bool_decide (c1 ≠ c2) || bool_decide (n1 ≠ n2) then Ok false
      else
        let! r := vercmp (p_version p1) (p_version p2) in
        Ok (bool_decide (r = Some 0)).

    (** the [cp] of a candidate, parsed out of a plain string if need be *)
Definition cand_cp (x : candidate) : option string :=
      match attr_cp x with
      | Some cp => Some cp
      | None => split_cp <$> catpkgsplit (CpvStr (remove_slot (cand_text x)))
      end.

    (** [x] itself if it has a [cp], else [_pkg_str(remove_slot(x))];
        [None] is the [InvalidData] that the callers skip *)
Definition cand_pkg (x : candidate) : option pkg :=
      match x with
      | CPkg p => Some p
      | CStr s => _pkg_str (remove_slot s) None
      end.

    (** collect the candidates that a test keeps; the test may raise *)
Definition select (keep : candidate -> result bool)
        (candidate_list : list candidate) : result (list candidate) :=
      for_each (fun x (mylist : list candidate) =>
                  let! k := keep x in
                  Ok (if k then mylist ++ [x] else mylist))
               candidate_list [].

    (** *** The operator branches *)

Definition keep_extended (mydep : Atom.t) (x : candidate) : result bool :=
      match cand_cp x with
      | None => Ok false
      | Some cp =>
          Ok (bool_decide (cp = cpv_text (Atom.cpv mydep))
              || extended_cp_match (Atom.cp mydep) cp)
      end.

Definition keep_extended_version (ver : string) (x : candidate)
      : result bool :=
      let x_ver :=
        match x with
        | CPkg p => Some (p_version p)
        | CStr s =>
            match catpkgsplit (CpvStr (remove_slot s)) with
            | Some (_, _, v, r) => Some (Py.join "-" [v; r])
            | None => None
            end
        end in
      match x_ver with
      | None => Ok false
      | Some x_ver => Ok (Py.contains x_ver ver)
      end.

Definition keep_plain (mydep : Atom.t) (x : candidate) : result bool :=
      match cand_cp x with
      | None => Ok false
      | Some cp => Ok (bool_decide (cp = Atom.cp mydep))
      end.

Definition keep_exact (mydep : Atom.t) (x : candidate) : result bool :=
      let xcpv :=
        match x with
        | CPkg p => CpvPkg p
        | CStr s => CpvStr (remove_slot s)
        end in
      let! eq := cpvequal xcpv (Atom.cpv mydep) in
      if negb eq then Ok false
      else
        let x_build_id :=
          match x with
          | CPkg p => p_build_id p
          | CStr _ => None
          end in
        match Atom.build_id mydep with
        | Some b => Ok (bool_decide (x_build_id = Some b))
        | None => Ok true
        end.

    (** the leading-zero normalisation shared by both sides of [=*] *)
Definition glob_normalize (cpv cp ver : string) : string :=
      let myver := Py.lstrip0 ver in
      let myver :=
        if negb (Py.truthy myver) || negb (Py.isdigit (Py.take 1 myver))
        then "0" +:+ myver else myver in
      if bool_decide (myver = ver) then cpv
      else Py.replace1 cpv (cp +:+ "-" +:+ ver) (cp +:+ "-" +:+ myver).

    (** the boundary test on a candidate whose text starts with the
        atom's *)
Definition glob_boundary (mycpv_cmp xcpv : string) : result bool :=
      let n := String.length mycpv_cmp in
      let next_char := Py.slice n (n + 1) xcpv in
      if negb (Py.truthy next_char) then Ok true
      else if Py.contains "._-" next_char then Ok true
      else
        match Py.last_char mycpv_cmp with
        | None => Raise IndexError
        | Some c =>
            Ok (negb (Bool.eqb (Py.isdigit_char c) (Py.isdigit next_char)))
        end.

Definition keep_glob (mycpv_cmp : string) (x : candidate) : result bool :=
      match cand_pkg x with
      | None => Ok false
      | Some pkg =>
          let xcpv :=
            glob_normalize (p_cpv pkg) (p_cp pkg) (split_ver (p_cpv_split pkg)) in
          if Py.startswith xcpv mycpv_cmp
          then glob_boundary mycpv_cmp xcpv
          else Ok false
      end.

Definition keep_any_revision (mycpv_cps : cpv_split_t) (ver : string)
        (x : candidate) : result bool :=
      let xs :=
        match x with
        | CPkg p => Some (p_cpv_split p)
        | CStr s => catpkgsplit (CpvStr (remove_slot s))
        end in
      match xs with
      | None => Raise InvalidData
      | Some xs =>
          let! eq :=
            cpvequal (CpvStr (split_cp xs +:+ "-" +:+ split_ver xs))
                     (CpvStr (split_cp mycpv_cps +:+ "-" +:+ split_ver mycpv_cps)) in
          if negb eq then Ok false
          else Ok (bool_decide (split_ver xs = ver))
      end.

Definition keep_relational (mydep : Atom.t) (operator : string)
        (x : candidate) : result bool :=
      match cand_pkg x with
      | None => Ok false
      | Some pkg =>
          if bool_decide (p_cp pkg ≠ Atom.cp mydep) then Ok false
          else
            let! myver := of_option AttributeError (Atom.version mydep) in
            let! r := vercmp (p_version pkg) myver in
            match r with
            | None => Ok false
            | Some r =>
                if bool_decide (operator = ">") then Ok (bool_decide (0 < r))
                else if bool_decide (operator = ">=") then Ok (bool_decide (0 <= r))
                else if bool_decide (operator = "<") then Ok (bool_decide (r < 0))
                else if bool_decide (operator = "<=") then Ok (bool_decide (r <= 0))
                else Raise KeyError
            end
      end.

    (** *** The filters that follow *)

Definition keep_slot (mydep : Atom.t) (x : candidate) : result bool :=
      let x_pkg : option (option pkg) :=
        match x with
        | CPkg p => Some (Some p)
        | CStr s =>
            match dep_getslot_str s with
            | Some xslot =>
                match _pkg_str (remove_slot s) (Some xslot) with
                | Some p => Some (Some p)
                | None => None
                end
            | None => Some None
            end
        end in
      match x_pkg with
      | None => Ok false
      | Some None => Ok true
      | Some (Some p) =>
          match p_slot p with
          | None => Ok true
          | Some _ => Ok (_match_slot mydep (p_slot p) (p_sub_slot p))
          end
      end.

Definition use_ok (dep_use : UseDep._use_dep) (is_valid_flag : string -> bool)
        (use_enabled : gset string) : bool :=
      let missing_enabled :=
        filter (fun f => is_valid_flag f = false) (UseDep.missing_enabled dep_use) in
      let missing_disabled :=
        filter (fun f => is_valid_flag f = false) (UseDep.missing_disabled dep_use) in
      let enabled_ok :=
        if bool_decide (UseDep.enabled dep_use ≠ ∅) then
          if bool_decide (UseDep.enabled dep_use ∩ missing_disabled ≠ ∅)
          then false
          else
            let need_enabled := UseDep.enabled dep_use ∖ use_enabled in
            bool_decide (need_enabled ⊆ missing_enabled)
        else true in
      let disabled_ok :=
        if bool_decide (UseDep.disabled dep_use ≠ ∅) then
          if bool_decide (UseDep.disabled dep_use ∩ missing_enabled ≠ ∅)
          then false
          else
            let need_disabled := UseDep.disabled dep_use ∩ use_enabled in
            bool_decide (need_disabled ⊆ missing_disabled)
        else true in
      enabled_ok && disabled_ok.

Definition keep_use (mydep : Atom.t) (x : candidate) : result bool :=
      match x with
      | CPkg p =>
          match p_use p with
          | Some use_enabled =>
              let required :=
                match Atom.unevaluated_use mydep with
                | Some u => UseDep.required u
                | None => ∅
                end in
              if negb (bool_decide
                         (set_Forall (fun f => p_is_valid_flag p f = true) required))
              then Ok false
              else
                match Atom.use mydep with
                | Some u =>
                    if UseDep.truthy u
                    then Ok (use_ok u (p_is_valid_flag p) use_enabled)
                    else Ok true
                | None => Ok true
                end
          | None => Ok true
          end
      | CStr _ => Ok true
      end.

    (** [getattr(x, "repo", False)], then [dep_getrepo(x)] *)
Definition cand_repo (x : candidate) : option string :=
      match x with
      | CPkg p =>
          match p_repo p with
          | Some repo => repo
          | None => dep_getrepo_str (p_cpv p)
          end
      | CStr s => dep_getrepo_str s
      end.

Definition keep_repo (mydep_repo : string) (x : candidate) : result bool :=
      match cand_repo x with
      | None => Ok true
      | Some repo =>
          Ok (negb (bool_decide (repo ≠ _unknown_repo)
                    && bool_decide (repo ≠ mydep_repo)))
      end.

    (** the three trailing filters, each applied only when the atom asks
        for it *)
Definition filter_slot (mydep : Atom.t) (mylist : list candidate)
      : result (list candidate) :=
      match Atom.slot mydep with
      | Some _ => select (keep_slot mydep) mylist
      | None => Ok mylist
      end.

Definition filter_use (mydep : Atom.t) (mylist : list candidate)
      : result (list candidate) :=
      if Atom.use_truthy (Atom.unevaluated_use mydep)
      then select (keep_use mydep) mylist
      else Ok mylist.

Definition filter_repo (mydep : Atom.t) (mylist : list candidate)
      : result (list candidate) :=
      match Atom.repo mydep with
      | Some r =>
          if Py.truthy r then select (keep_repo r) mylist else Ok mylist
      | None => Ok mylist
      end.

    (** the dispatch on [extended_syntax] and [operator] *)
Definition by_operator (mydep : Atom.t) (mycpv_cps : option cpv_split_t)
        (ver : option string) (operator : option string)
        (candidate_list : list candidate) : result (list candidate) :=
      if Atom.extended_syntax mydep then
        let! mylist := select (keep_extended mydep) candidate_list in
        if bool_decide (mylist ≠ []) && bool_decide (Atom.operator mydep = Some "=*")
        then
          let! v := of_option TypeError (Atom.version mydep) in
          select (keep_extended_version (Py.drop_last (Py.drop 1 v))) mylist
        else Ok mylist
      else
        match operator with
        | None => select (keep_plain mydep) candidate_list
        | Some op =>
            if bool_decide (op = "=") then
              select (keep_exact mydep) candidate_list
            else if bool_decide (op = "=*") then
              let! cps := of_option TypeError mycpv_cps in
              let mycpv_cmp :=
                glob_normalize (cpv_text (Atom.cpv mydep)) (Atom.cp mydep)
                  (split_ver cps) in
              select (keep_glob mycpv_cmp) candidate_list
            else if bool_decide (op = "~") then
              let! cps := of_option TypeError mycpv_cps in
              let! v := of_option TypeError ver in
              select (keep_any_revision cps v) candidate_list
            else if bool_decide (op ∈ [">"; ">="; "<"; "<="]) then
              select (keep_relational mydep op) candidate_list
            else Raise KeyError
        end.

Definition match_from_list (mydep : dep_arg)
        (candidate_list : list candidate) : result (list candidate) :=
      match candidate_list with
      | [] => Ok []
      | _ =>
          let mydep :=
            if bool_decide (Py.take 1 (dep_text mydep) = "!") then
              if bool_decide (Py.slice 1 2 (dep_text mydep) = "!")
              then DStr (Py.drop 2 (dep_text mydep))
              else DStr (Py.drop 1 (dep_text mydep))
            else mydep in
          let! mydep :=
            (match mydep with
             | DAtom a => Ok a
             | DStr s => Atom.of_string s
             end) in
          let mycpv := Atom.cpv mydep in
          let mycpv_cps := catpkgsplit mycpv in
          let! vr :=
            (match mycpv_cps with
             | None => Ok (None, None)
             | Some (cat, pkg, ver, rev) =>
                 if bool_decide (Atom.text mydep = cpv_text mycpv)
                 then Raise KeyError
                 else Ok (Some ver, Some rev)
             end) in
          let '(ver, rev) := vr in
          let specific :=
            bool_decide (Py.truthy <$> ver = Some true)
            && bool_decide (Py.truthy <$> rev = Some true) in
          if specific
             && negb (bool_decide (Py.truthy <$> Atom.operator mydep = Some true))
          then Ok []
          else
            let operator := if specific then Atom.operator mydep else None in
            let! mylist := by_operator mydep mycpv_cps ver operator candidate_list in
            let! mylist := filter_slot mydep mylist in
            let! mylist := filter_use mydep mylist in
            filter_repo mydep mylist
      end.

    (** [match_to_list]: atoms equal as strings count once, the first
        occurrence wins, and an atom is remembered whether it matches or
        not *)
Definition match_to_list (mypkg : candidate) (mylist : list Atom.t)
      : result (list Atom.t) :=
      let! acc :=
        for_each (fun x (acc : gset string * list Atom.t) =>
                    let '(matches, out) := acc in
                    if bool_decide (Atom.text x ∈ matches) then Ok acc
                    else
                      let matches := {[Atom.text x]} ∪ matches in
                      let! m := match_from_list (DAtom x) [mypkg] in
                      Ok (matches, if bool_decide (m ≠ []) then out ++ [x] else out))
                 mylist (∅, []) in
      Ok acc.2.

    (** *** [best_match_to_list] *)

    (** the three objects of [cpv_list], told apart by identity *)
Inductive who := Best | Mine | Challenger.

Global Instance who_eq_dec : EqDecision who.
    Proof. solve_decision. Defined.

Definition cpv_version (c : cpv_t) : result string :=
      match c with
      | CpvPkg p => Ok (p_version p)
      | CpvStr _ => Raise AttributeError
      end.

    (** [cmp_cpv] *)
Definition cmp_cpv (cpv1 cpv2 : cpv_t) : result (option Z) :=
      let! v1 := cpv_version cpv1 in
      let! v2 := cpv_version cpv2 in
      vercmp v1 v2.

    (** the [<] of [cmp_sort_key(cmp_cpv)]: [cmp_cpv(a, b) < 0] *)
Definition key_lt (a b : who * cpv_t) : result bool :=
      let! r := cmp_cpv a.2 b.2 in
      match r with
      | Some z => Ok (bool_decide (z < 0))
      | None => Raise TypeError
      end.

    (** [list.sort(key=...)] is a stable sort; insertion keeps an element
        behind those it is not smaller than *)
Fixpoint insert_sorted (x : who * cpv_t) (sorted : list (who * cpv_t))
      : result (list (who * cpv_t)) :=
      match sorted with
      | [] => Ok [x]
      | y :: ys =>
          let! lt := key_lt x y in
          if lt then Ok (x :: y :: ys)
          else let! r := insert_sorted x ys in Ok (y :: r)
      end.

Definition sort (l : list (who * cpv_t)) : result (list (who * cpv_t)) :=
      for_each insert_sorted l [].

Definition tag_at (l : list (who * cpv_t)) (i : nat) : option who :=
      fst <$> l !! i.

    (** the tie-break among relational atoms: [true] when the challenger
        [x] replaces [bestm] *)
Definition closer (bestm x : Atom.t) (mypkg_cpv : cpv_t) : result bool :=
      let b := cpv_text (Atom.cpv bestm) in
      let m := cpv_text mypkg_cpv in
      let c := cpv_text (Atom.cpv x) in
      if bool_decide (b = m) || bool_decide (b = c) then Ok false
      else if bool_decide (c = m) then Ok true
      else
        let! cpv_list :=
          sort [(Best, Atom.cpv bestm); (Mine, mypkg_cpv);
                (Challenger, Atom.cpv x)] in
        if bool_decide (tag_at cpv_list 0 = Some Mine)
           || bool_decide (tag_at cpv_list 2 = Some Mine)
        then Ok (bool_decide (tag_at cpv_list 1 = Some Challenger))
        else Ok false.

Definition operator_values (op : option string) : option Z :=
      match op with
      | None => Some 1
      | Some o =>
          if bool_decide (o = "=") then Some 6
          else if bool_decide (o = "~") then Some 5
          else if bool_decide (o = "=*") then Some 4
          else if bool_decide (o ∈ [">"; "<"; ">="; "<="]) then Some 2
          else None
      end.

    (** [mypkg.cpv], or [_pkg_str(remove_slot(mypkg))] *)
Definition mypkg_cpv_of (mypkg : candidate) : result cpv_t :=
      match mypkg with
      | CPkg p => Ok (CpvPkg p)
      | CStr s =>
          let! p := of_option InvalidData (_pkg_str (remove_slot s) None) in
          Ok (CpvPkg p)
      end.

    (** one turn of the ranking loop over [(maxvalue, bestm)] *)
Definition rank (mypkg : candidate) (x : Atom.t)
        (st : Z * option Atom.t) : result (Z * option Atom.t) :=
      let '(maxvalue, bestm) := st in
      if Atom.extended_syntax x then
        if bool_decide (Atom.operator x = Some "=*") then
          Ok (if bool_decide (maxvalue < 0) then (0, Some x) else st)
        else if bool_decide (Atom.slot x ≠ None) then
          Ok (if bool_decide (maxvalue < -1) then (-1, Some x) else st)
        else
          Ok (if bool_decide (maxvalue < -2) then (-2, Some x) else st)
      else
        let '(maxvalue, bestm) :=
          if bool_decide (Atom.slot x ≠ None) && bool_decide (maxvalue < 3)
          then (3, Some x) else (maxvalue, bestm) in
        let! op_val := of_option KeyError (operator_values (Atom.operator x)) in
        if bool_decide (maxvalue < op_val) then Ok (op_val, Some x)
        else if bool_decide (op_val = maxvalue) && bool_decide (op_val = 2) then
          let! mypkg_cpv := mypkg_cpv_of mypkg in
          let! b := of_option AttributeError bestm in
          let! replace := closer b x mypkg_cpv in
          Ok (maxvalue, if replace then Some x else bestm)
        else Ok (maxvalue, bestm).

Definition best_match_to_list (mypkg : candidate) (mylist : list Atom.t)
      : result (option Atom.t) :=
      let! matched := match_to_list mypkg mylist in
      let! st := for_each (rank mypkg) matched (-99, None) in
      Ok st.2.

    (** *** Atoms with a version and nothing else

        The atom [op cp-v] as [Atom.__init__] builds it when the text
        has no blocker, slot, repository or USE part: [p] is
        [_pkg_str(cp-v)] and [cp] the category/package group of the
        grammar. *)
Definition versioned_atom (op cp : string) (p : pkg) : Atom.t :=
      {| Atom.text := op +:+ p_cpv p; Atom.eapi := None;
         Atom.blocker := Atom.NotBlocker; Atom.cp := cp; Atom.cpv := CpvPkg p;
         Atom.version := Some (p_version p); Atom.repo := None;
         Atom.slot := None; Atom.sub_slot := None; Atom.slot_operator_ := None;
         Atom.operator := Some op; Atom.extended_syntax := false;
         Atom.build_id := None; Atom.use := None; Atom.without_use := None;
         Atom.unevaluated_atom := None |}.

    (** what is left of [match_from_list] for such an atom: the operator
        is honoured only when [catpkgsplit] reports a version and a
        revision *)
Definition versioned_match (op cp : string) (p : pkg)
        (cl : list candidate) : result (list candidate) :=
      let a := versioned_atom op cp p in
      match catpkgsplit (CpvPkg p) with
      | Some (_, _, ver, rev) =>
          if Py.truthy ver && Py.truthy rev
          then by_operator a (catpkgsplit (CpvPkg p)) (Some ver) (Some op) cl
          else by_operator a (catpkgsplit (CpvPkg p)) (Some ver) None cl
      | None => by_operator a None None None cl
      end.

    (** a candidate's [cp] is the category and package of its
        [cpv_split], as [_pkg_str] sets it *)
Definition cp_consistent (x : candidate) : bool :=
      match cand_pkg x with
      | Some q => bool_decide (p_cp q = split_cp (p_cpv_split q))
      | None => true
      end.

(** *** The version order, for the tie-break of [best_match_to_list]

    [vercmp a b] is an integer with the sign of [key a - key b] *)
Definition compares_by (key : string -> Z) (a b : string) : bool :=
  match vercmp a b with
  | Ok (Some r) =>
      Bool.eqb (bool_decide (r < 0)) (bool_decide (key a < key b))
      && Bool.eqb (bool_decide (0 < r)) (bool_decide (key b < key a))
  | _ => false
  end.

(** [vercmp] is the comparison of the total order that [key] induces on
    the versions [vs] *)
Definition ordered_by (key : string -> Z) (vs : list string) : bool :=
  forallb (fun a => forallb (compares_by key a) vs) vs.

(** among [ps], equal cpv texts carry equal versions: the version is
    read off the text *)
Definition version_of_text (ps : list pkg) : bool :=
  forallb (fun a =>
             forallb (fun b => implb (bool_decide (p_cpv a = p_cpv b))
                                     (bool_decide (p_version a = p_version b)))
                     ps) ps.

  End Engine.

End Match.

(** ** Dependency expressions: [use_reduce] *)

Module Reduce.

(** an entry of a reduced list: a [str], an instance of [token_class]
    (an atom, itself a [str]), or a nested list *)
#[warnings="-register-all"]
Inductive dep :=
| Tok (s : string)
| Obj (a : Atom.t)
| Sub (l : list dep).

(** [not l] for a list *)
Definition empty {A} (l : list A) : bool :=
  match l with
  | [] => true
  | _ => false
  end.

(** the text of an entry that is a [str] *)
Definition text_of (d : dep) : option string :=
  match d with
  | Tok s => Some s
  | Obj a => Some (Atom.text a)
  | Sub _ => None
  end.

(** [isinstance(d, str)] *)
Definition is_str (d : dep) : bool :=
  match d with
  | Sub _ => false
  | _ => true
  end.

(** [d == s] for a [str] literal [s]; a list never equals a [str] *)
Definition eq_str (d : dep) (s : string) : bool :=
  bool_decide (text_of d = Some s).

(** [d[-1] == s] for a one-character [s]: the last character of a
    [str], the last entry of a list; both raise on an empty operand *)
Definition last_eq (d : dep) (s : string) : result bool :=
  match d with
  | Sub l =>
      match last l with
      | Some e => Ok (eq_str e s)
      | None => Raise IndexError
      end
  | _ =>
      match Py.last_char (default EmptyString (text_of d)) with
      | Some c => Ok (bool_decide (String c EmptyString = s))
      | None => Raise IndexError
      end
  end.

(** [target.extend(d)]: the entries of a list, the characters of a
    [str] *)
Definition items_of (d : dep) : list dep :=
  match d with
  | Sub l => l
  | _ =>
      (fun c => Tok (String c EmptyString))
        <$> list_ascii_of_string (default EmptyString (text_of d))
  end.

(** [x == y] on entries: strings by their text, lists entry by entry *)
Fixpoint dep_eqb (x y : dep) : bool :=
  match x, y with
  | Sub xs, Sub ys =>
      (fix go (xs ys : list dep) : bool :=
         match xs, ys with
         | [], [] => true
         | a :: xs', b :: ys' => dep_eqb a b && go xs' ys'
         | _, _ => false
         end) xs ys
  | Sub _, _ | _, Sub _ => false
  | _, _ => bool_decide (text_of x = text_of y)
  end.

(** the arguments of [_use_reduce_cached]; [token_class] is the
    constructor [token_class(token, eapi=..., is_valid_flag=...)] of a
    class with the interface of [Atom] *)
Record args := {
  depstr : string;
  uselist : gset string;
  masklist : gset string;
  matchall : bool;
  excludeall : gset string;
  is_src_uri : bool;
  eapi : option string;
  opconvert : bool;
  flat : bool;
  is_valid_flag : option (string -> bool);
  token_class :
    option (string -> option string -> option (string -> bool) -> result Atom.t);
  matchnone : bool;
  subset : option (gset string)
}.

Record state := {
  stack : list (list dep);
  level : nat;
  need_bracket : bool;
  need_simple_token : bool
}.

(** [stack[k]] *)
Definition at_level (stk : list (list dep)) (k : nat) : result (list dep) :=
  of_option IndexError (stk !! k).

(** [stack[k] = f(stack[k])] in place *)
Definition on_level (stk : list (list dep)) (k : nat)
    (f : list dep -> list dep) : result (list (list dep)) :=
  let! cur := at_level stk k in Ok (<[k := f cur]> stk).

(** [ends_in_any_of_dep(k)]; [k] may be -1 *)
Definition ends_in_any_of_dep (stk : list (list dep)) (k : Z) : bool :=
  if bool_decide (0 <= k) then
    match stk !! Z.to_nat k with
    | Some cur =>
        match last cur with
        | Some e => eq_str e "||"
        | None => false
        end
    | None => false
    end
  else false.

(** [last_any_of_operator_level(k)], for [k = n - 1]; the result is a
    level or -1 *)
Fixpoint last_any_of_operator_level (stk : list (list dep)) (n : nat)
  : result Z :=
  match n with
  | O => Ok (-1)
  | S k =>
      let! cur := at_level stk k in
      match last cur with
      | Some e =>
          if is_str e then
            if eq_str e "||" then Ok (Z.of_nat k)
            else
              let! q := last_eq e "?" in
              if negb q then Ok (-1)
              else last_any_of_operator_level stk k
          else last_any_of_operator_level stk k
      | None => last_any_of_operator_level stk k
      end
  end.

(** *** [paren_enclose], with its default arguments *)

Fixpoint enclose (d : dep) : string :=
  match d with
  | Sub l => "( " +:+ Py.join " " (enclose <$> l) +:+ " )"
  | Tok s => s
  | Obj o => Atom.text o
  end.

Definition paren_enclose (mylist : list dep) : string :=
  Py.join " " (enclose <$> mylist).

(** *** [paren_reduce] *)

(** [d == "||" or d[-1] == "?"] *)
Definition is_operator (d : dep) : result bool :=
  if eq_str d "||" then Ok true else last_eq d "?".

(** [ends_in_operator(k)]; [k] may be -1 *)
Definition ends_in_operator (stk : list (list dep)) (k : Z) : result bool :=
  if bool_decide (0 <= k) then
    match stk !! Z.to_nat k with
    | Some cur =>
        match last cur with
        | Some e => is_operator e
        | None => Ok false
        end
    | None => Ok false
    end
  else Ok false.

(** [special_append] of [paren_reduce] *)
Definition pr_special_append (stk : list (list dep)) (lvl : nat)
    (l : list dep) (is_single : bool) : result (list (list dep)) :=
  let! cur := at_level stk lvl in
  let! extend :=
    (if is_single then
       match last cur with
       | None => Ok true
       | Some e => let! q := last_eq e "?" in Ok (negb q)
       end
     else Ok false) in
  if extend then
    match l with
    | [Sub inner] => on_level stk lvl (fun cur => cur ++ inner)
    | _ => on_level stk lvl (fun cur => cur ++ l)
    end
  else on_level stk lvl (fun cur => cur ++ [Sub l]).

(** the token [)] of [paren_reduce], on [(stack, level, need_bracket)] *)
Definition pr_close (st : list (list dep) * nat * bool)
  : result (list (list dep) * nat * bool) :=
  let '(stk, lvl, need_bracket) := st in
  if need_bracket then Raise InvalidDependString else
  if bool_decide (0 < lvl)%nat then
    let lvl := (lvl - 1)%nat in
    let! l := of_option IndexError (last stk) in
    let stk := removelast stk in
    let! is_single :=
      (match l with
       | [_] => Ok true
       | [l0; _] => is_operator l0
       | _ => Ok false
       end) in
    let! cur := at_level stk lvl in
    let! stk :=
      (if negb (empty l) then
         let! redundant :=
           (if ends_in_any_of_dep stk (Z.of_nat lvl - 1) then Ok false
            else let! op := ends_in_operator stk (Z.of_nat lvl) in Ok (negb op)) in
         if redundant then
           on_level stk lvl (fun cur => cur ++ l)
         else if empty cur then pr_special_append stk lvl l is_single
         else if bool_decide (length l = 1%nat)
                 && ends_in_any_of_dep stk (Z.of_nat lvl) then
           let! stk := on_level stk lvl (fun cur => removelast cur) in
           pr_special_append stk lvl l is_single
         else
           let! nested :=
             (match l, last cur with
              | [l0; _], Some e =>
                  let! op := is_operator l0 in
                  Ok (op && (dep_eqb e l0 || eq_str e "||"))
              | _, _ => Ok false
              end) in
           if nested then
             let! stk := on_level stk lvl (fun cur => removelast cur) in
             pr_special_append stk lvl l is_single
           else pr_special_append stk lvl l is_single
       else
         let! op := (match last cur with
                     | Some e => is_operator e
                     | None => Ok false
                     end) in
         if op then on_level stk lvl (fun cur => removelast cur) else Ok stk) in
    Ok (stk, lvl, false)
  else Raise InvalidDependString.

Definition pr_step (token : string) (st : list (list dep) * nat * bool)
  : result (list (list dep) * nat * bool) :=
  let '(stk, lvl, need_bracket) := st in
  if bool_decide (token = "(") then Ok (stk ++ [[]], S lvl, false)
  else if bool_decide (token = ")") then pr_close st
  else if need_bracket then Raise InvalidDependString
  else
    let! stk := on_level stk lvl (fun cur => cur ++ [Tok token]) in
    Ok (stk, lvl,
        bool_decide (token = "||") || Py.ends_with_char "?" token).

Definition paren_reduce (mystr : string) : result (list dep) :=
  let! st := for_each pr_step (Py.split mystr) ([[]], 0%nat, false) in
  let '(stk, lvl, need_bracket) := st in
  if bool_decide (lvl ≠ 0%nat) || need_bracket then Raise InvalidDependString
  else at_level stk 0.

Section Reducer.

Context `{Portage}.

Variable a : args.

Definition eapi_attrs : _eapi_attrs := _get_eapi_attrs (eapi a).

(** [useflag_re.match(flag) is not None], for the pattern shared with
    USE dependencies: a letter or digit, then letters, digits, [+], [_],
    [@], [-], up to the end *)
Definition useflag_re_match (flag : string) : bool :=
  match flag with
  | String c r =>
      UseDep.is_alnum c
      && let '(_, rest) := UseDep.span UseDep.is_flag_char r in UseDep.at_end rest
  | EmptyString => false
  end.

(** [is_active(conditional)] on the text of a conditional *)
Definition is_active_str (conditional : string) : result bool :=
  let '(flag, is_negated) :=
    if Py.startswith conditional "!"
    then (Py.drop_last (Py.drop 1 conditional), true)
    else (Py.drop_last conditional, false) in
  let! _ :=
    (match is_valid_flag a with
     | Some valid => if valid flag then Ok tt else Raise InvalidDependString
     | None => if useflag_re_match flag then Ok tt else Raise InvalidDependString
     end) in
  if is_negated && bool_decide (flag ∈ excludeall a) then Ok false
  else if bool_decide (flag ∈ masklist a) then Ok is_negated
  else if matchall a then Ok true
  else if matchnone a then Ok false
  else Ok (bool_decide (flag ∈ uselist a) && negb is_negated
           || bool_decide (flag ∉ uselist a) && is_negated).

(** [is_active] on a stack entry; a list has no [startswith] *)
Definition is_active (d : dep) : result bool :=
  match text_of d with
  | Some conditional => is_active_str conditional
  | None => Raise AttributeError
  end.

(** [(token_class or str)("__const__/empty-any-of")] *)
Definition empty_any_of : result dep :=
  match token_class a with
  | Some make =>
      let! o := make "__const__/empty-any-of" None None in Ok (Obj o)
  | None => Ok (Tok "__const__/empty-any-of")
  end.

(** [special_append] *)
Definition special_append (stk : list (list dep)) (lvl : nat)
    (l : list dep) (is_single : bool) : result (list (list dep)) :=
  if is_single then
    let! l0 := of_option IndexError (l !! 0%nat) in
    if eq_str l0 "||" && ends_in_any_of_dep stk (Z.of_nat lvl - 1) then
      if opconvert a then on_level stk lvl (fun cur => cur ++ drop 1 l)
      else
        let! l1 := of_option IndexError (l !! 1%nat) in
        on_level stk lvl (fun cur => cur ++ items_of l1)
    else
      match l with
      | [Sub inner] =>
          let! last_op := last_any_of_operator_level stk lvl in
          if bool_decide (last_op = -1) then
            if opconvert a
               && match inner with e :: _ => eq_str e "||" | [] => false end
            then on_level stk lvl (fun cur => cur ++ [Sub inner])
            else on_level stk lvl (fun cur => cur ++ inner)
          else
            if opconvert a
               && match inner with e :: _ => eq_str e "||" | [] => false end
            then on_level stk lvl (fun cur => cur ++ drop 1 inner)
            else on_level stk lvl (fun cur => cur ++ [Sub inner])
      | _ => on_level stk lvl (fun cur => cur ++ l)
      end
  else
    let! cur := at_level stk lvl in
    if opconvert a
       && match last cur with Some e => eq_str e "||" | None => false end
    then on_level stk lvl (fun cur => removelast cur ++ [Sub (Tok "||" :: l)])
    else on_level stk lvl (fun cur => cur ++ [Sub l]).

(** the merge of the closed list [l] into [stack[level]], outside flat
    mode and after the operator in front of it has been looked at *)
Definition merge (stk : list (list dep)) (lvl : nat) (l : list dep)
    (is_single : bool) : result (list (list dep)) :=
  let below := ends_in_any_of_dep stk (Z.of_nat lvl - 1) in
  let here := ends_in_any_of_dep stk (Z.of_nat lvl) in
  let! cur := at_level stk lvl in
  if negb below && negb here then
    on_level stk lvl (fun cur => cur ++ l)
  else if empty cur then
    special_append stk lvl l is_single
  else if is_single && here then
    let! stk := on_level stk lvl (fun cur => removelast cur) in
    special_append stk lvl l is_single
  else if here && below then
    on_level stk lvl (fun cur => removelast cur ++ l)
  else if opconvert a && here then
    on_level stk lvl (fun cur => removelast cur ++ [Sub (Tok "||" :: l)])
  else special_append stk lvl l is_single.

(** the token [)] *)
Definition close_bracket (st : state) : result state :=
  if need_bracket st then Raise InvalidDependString else
  if need_simple_token st then Raise InvalidDependString else
  if bool_decide (0 < level st)%nat then
    let lvl := (level st - 1)%nat in
    let! l := of_option IndexError (last (stack st)) in
    let stk := removelast (stack st) in
    let is_single :=
      bool_decide (length l = 1%nat)
      || opconvert a && match l with e :: _ => eq_str e "||" | [] => false end
      || negb (opconvert a) && bool_decide (length l = 2%nat)
         && match l with e :: _ => eq_str e "||" | [] => false end in
    let continue (stk : list (list dep)) :=
      Ok {| stack := stk; level := lvl; need_bracket := false;
            need_simple_token := false |} in
    let! cur := at_level stk lvl in
    if flat a then
      let! conditional :=
        (match last cur with
         | Some e => last_eq e "?"
         | None => Ok false
         end) in
      if conditional then
        let! active := is_active (default (Tok EmptyString) (last cur)) in
        let! stk :=
          on_level stk lvl
            (fun cur => if active then removelast cur ++ l else removelast cur) in
        continue stk
      else
        let! stk := on_level stk lvl (fun cur => cur ++ l) in
        continue stk
    else
      let! lis :=
        (match last cur with
         | Some e =>
             if is_str e then
               if eq_str e "||" && empty l then
                 let! l :=
                   (if negb (empty_groups_always_true eapi_attrs)
                    then let! c := empty_any_of in Ok (l ++ [c])
                    else Ok l) in
                 let! stk := on_level stk lvl (fun cur => removelast cur) in
                 Ok (l, false, stk)
               else
                 let! q := last_eq e "?" in
                 if q then
                   let! active := is_active e in
                   let! stk := on_level stk lvl (fun cur => removelast cur) in
                   Ok (l, negb active, stk)
                 else Ok (l, false, stk)
             else Ok (l, false, stk)
         | None => Ok (l, false, stk)
         end) in
      let '(l, ignore, stk) := lis in
      if negb (empty l) && negb ignore then
        let! stk := merge stk lvl l is_single in
        continue stk
      else continue stk
  else Raise InvalidDependString.

(** *** The token loop *)

Definition push (st : state) (d : dep) (nb nst : bool) : result state :=
  let! stk := on_level (stack st) (level st) (fun cur => cur ++ [d]) in
  Ok {| stack := stk; level := level st; need_bracket := nb;
        need_simple_token := nst |}.

(** a token that is neither a bracket, [||] nor [->] *)
Definition plain_token (token : string) (st : state) : result state :=
  if need_bracket st then Raise InvalidDependString else
  if need_simple_token st && Py.contains token "/"
  then Raise InvalidDependString else
  if Py.ends_with_char "?" token
  then push st (Tok token) true (need_simple_token st)
  else
    if is_src_uri a then
      if negb (selective_src_uri_restriction eapi_attrs)
         && (Py.startswith token "fetch+" || Py.startswith token "mirror+")
      then Raise InvalidDependString
      else push st (Tok token) false false
    else
      match token_class a with
      | Some make =>
          match make token (eapi a) (is_valid_flag a) with
          | Raise _ => Raise InvalidDependString
          | Ok o =>
              let! o :=
                (if negb (matchall a)
                 then Atom.evaluate_conditionals o (uselist a)
                 else Ok o) in
              push st (Obj o) false false
          end
      | None => push st (Tok token) false false
      end.

Definition step (mysplit : list string) (pt : nat * string) (st : state)
  : result state :=
  let '(pos, token) := pt in
  if bool_decide (token = "(") then
    if need_simple_token st then Raise InvalidDependString
    else if bool_decide (mysplit !! (pos + 1)%nat = Some ")")
    then Raise InvalidDependString
    else Ok {| stack := stack st ++ [[]]; level := S (level st);
               need_bracket := false;
               need_simple_token := need_simple_token st |}
  else if bool_decide (token = ")") then close_bracket st
  else if bool_decide (token = "||") then
    if is_src_uri a then Raise InvalidDependString
    else if need_bracket st then Raise InvalidDependString
    else push st (Tok token) true (need_simple_token st)
  else if bool_decide (token = "->") then
    if need_simple_token st then Raise InvalidDependString
    else if negb (is_src_uri a) then Raise InvalidDependString
    else if negb (src_uri_arrows eapi_attrs) then Raise InvalidDependString
    else push st (Tok token) (need_bracket st) true
  else plain_token token st.

(** [enumerate(mysplit)] *)
Definition enumerate (l : list string) : list (nat * string) :=
  zip (seq 0 (length l)) l.

Definition initial : state :=
  {| stack := [[]]; level := 0; need_bracket := false;
     need_simple_token := false |}.

Definition reduce_tokens (mysplit : list string) : result (list dep) :=
  let! st := for_each (step mysplit) (enumerate mysplit) initial in
  if bool_decide (level st ≠ 0%nat) then Raise InvalidDependString
  else if need_bracket st then Raise InvalidDependString
  else if need_simple_token st then Raise InvalidDependString
  else at_level (stack st) 0.

(** *** The [subset] pass *)

(** [select_subset]; [fuel] bounds the nesting of the structure *)
Fixpoint select_subset (fuel : nat) (target : gset string)
    (dep_struct : list dep) (disjunction selected : bool)
  : result (list dep) :=
  match fuel with
  | O => Raise RecursionError
  | S fuel' =>
      (fix go (todo : list dep) (acc : list dep) : result (list dep) :=
         match todo with
         | [] => Ok acc
         | Sub inner :: rest =>
             let! children := select_subset fuel' target inner false selected in
             if disjunction
             then go rest (if empty children then acc else acc ++ [Sub children])
             else go rest (acc ++ children)
         | token :: rest =>
             let text := default EmptyString (text_of token) in
             if bool_decide (Py.drop (String.length text - 1) text = "?") then
               match rest with
               | [] => Raise IndexError
               | children :: rest' =>
                   let! active := is_active token in
                   if active then
                     let! children :=
                       select_subset fuel' target (items_of children) false
                         (selected || bool_decide (Py.drop_last text ∈ target)) in
                     if disjunction
                     then go rest' (if empty children then acc
                                    else acc ++ [Sub children])
                     else go rest' (acc ++ children)
                   else go rest' acc
               end
             else if eq_str token "||" then
               match rest with
               | [] => Raise IndexError
               | children :: rest' =>
                   let! children :=
                     select_subset fuel' target (items_of children) true selected in
                   if empty children then go rest' acc
                   else if disjunction then go rest' (acc ++ children)
                   else go rest' (acc ++ [token; Sub children])
               end
             else go rest (if selected then acc ++ [token] else acc)
         end) dep_struct []
  end.

(** [_use_reduce_cached], the function under the cache *)
Definition _use_reduce_cached : result (list dep) :=
  if opconvert a && flat a then Raise ValueError else
  if matchall a && matchnone a then Raise ValueError else
  let! depstr :=
    (match subset a with
     | Some target =>
         if bool_decide (target ≠ ∅) then
           let! reduced := paren_reduce (depstr a) in
           let! chosen :=
             select_subset (S (String.length (depstr a))) target reduced
               false false in
           Ok (paren_enclose chosen)
         else Ok (depstr a)
     | None => Ok (depstr a)
     end) in
  reduce_tokens (Py.split depstr).

End Reducer.

(** *** The shape of the stack

    What the token loop keeps true of its stack while every token is a
    non-empty [str] and no [token_class] is given.  It is what makes the
    indexing in [close_bracket] safe: an entry is a non-empty string or a
    list; flat mode holds no list; and, where neither [flat] nor
    [opconvert] is set, an [||] is the last entry of a list still open or
    is followed by its group. *)

Section Shape.

Variable a : args.

(** neither [flat] nor [opconvert] *)
Definition strict : bool := negb (flat a) && negb (opconvert a).

(** [l and l[-1] == "||"] *)
Definition ends_any_of (l : list dep) : bool :=
  match last l with
  | Some e => eq_str e "||"
  | None => false
  end.

(** every [||] that is not the last entry is followed by a list *)
Fixpoint paired (l : list dep) : bool :=
  match l with
  | e :: l' =>
      match l' with
      | e' :: _ => (negb (eq_str e "||") || negb (is_str e')) && paired l'
      | [] => true
      end
  | [] => true
  end.

Fixpoint shaped (d : dep) : bool :=
  match d with
  | Tok s => Py.truthy s
  | Obj _ => false
  | Sub l =>
      negb (flat a) && forallb shaped l
      && (negb strict || paired l && negb (ends_any_of l))
  end.

(** a list of the stack *)
Definition list_ok (c : list dep) : bool :=
  forallb shaped c && (negb strict || paired c).

(** a list with no operator waiting for its group *)
Definition closed (c : list dep) : bool :=
  list_ok c && (negb strict || negb (ends_any_of c)).

Definition stack_ok (stk : list (list dep)) : Prop :=
  Forall (fun c => list_ok c = true) stk.

Record shape (st : state) : Prop := {
  shape_depth : length (stack st) = S (level st);
  shape_lists : stack_ok (stack st);
  shape_top : forall top, last (stack st) = Some top -> strict = true ->
      ends_any_of top = true ->
      need_bracket st = true /\ is_src_uri a = false
}.

(** a step either raises [InvalidDependString] or keeps the shape *)
Definition safe (r : result state) : Prop :=
  match r with
  | Ok st => shape st
  | Raise e => e = InvalidDependString
  end.

End Shape.

(** *** Tokens, for statements about whole strings *)

(** a token that the loop appends as it is: no bracket, no operator, no
    arrow, no conditional *)
Definition plain (token : string) : bool :=
  negb (bool_decide (token ∈ ["("; ")"; "||"; "->"]))
  && negb (Py.ends_with_char "?" token).

(** how often [token] occurs among [tokens] *)
Definition count (token : string) (tokens : list string) : nat :=
  length (filter (fun t => t = token) tokens).

End Reduce.

(** ** The cache in front of [use_reduce]

    [_use_reduce_cached] is wrapped in [functools.lru_cache(1024)] and
    [use_reduce] returns [result[:]].  Lists are mutable objects, so they
    live in a heap: a cell holds the entries of one list, and an entry is
    an immutable string or atom, or a reference to another cell. *)

Module Memo.

Inductive val :=
| VTok (s : string)
| VObj (a : Atom.t)
| VRef (r : nat).

Definition heap := list (list val).

(** the arguments as the cache compares them: the two callables count
    by identity *)
Definition key : Type :=
  string * gset string * gset string * bool * gset string * bool
  * option string * bool * bool * option nat * option nat * bool
  * option (gset string).

Record call := {
  c_args : Reduce.args;
  (** [id(is_valid_flag)] and [id(token_class)] *)
  c_valid_id : option nat;
  c_class_id : option nat
}.

Definition key_of (c : call) : key :=
  let a := c_args c in
  (Reduce.depstr a, Reduce.uselist a, Reduce.masklist a, Reduce.matchall a,
   Reduce.excludeall a, Reduce.is_src_uri a, Reduce.eapi a,
   Reduce.opconvert a, Reduce.flat a, c_valid_id c, c_class_id c,
   Reduce.matchnone a, Reduce.subset a).

Record state := {
  cells : heap;
  (** most recently used first *)
  cache : list (key * nat)
}.

Definition maxsize : nat := 1024.

(** build the list objects of a freshly computed result; returns the
    entries of the outer list *)
Fixpoint store (d : Reduce.dep) (h : heap) : val * heap :=
  match d with
  | Reduce.Tok s => (VTok s, h)
  | Reduce.Obj a => (VObj a, h)
  | Reduce.Sub l =>
      let '(vs, h) :=
        (fix go (l : list Reduce.dep) (h : heap) : list val * heap :=
           match l with
           | [] => ([], h)
           | d :: l' =>
               let '(v, h) := store d h in
               let '(vs, h) := go l' h in
               (v :: vs, h)
           end) l h in
      (VRef (length h), h ++ [vs])
  end.

(** the value a reference denotes; [fuel] bounds the nesting *)
Fixpoint load (fuel : nat) (h : heap) (v : val) : option Reduce.dep :=
  match fuel with
  | O => None
  | S fuel' =>
      match v with
      | VTok s => Some (Reduce.Tok s)
      | VObj a => Some (Reduce.Obj a)
      | VRef r =>
          vs ← h !! r;
          l ← mapM (load fuel' h) vs;
          Some (Reduce.Sub l)
      end
  end.

(** [lst[:]]: a new list object with the same entries *)
Definition copy (h : heap) (r : nat) : result (nat * heap) :=
  let! vs := of_option IndexError (h !! r) in
  Ok (length h, h ++ [vs]).

(** [lst.append(v)] *)
Definition append (h : heap) (r : nat) (v : val) : result heap :=
  let! vs := of_option IndexError (h !! r) in
  Ok (<[r := vs ++ [v]]> h).

(** [lst[i]] *)
Definition item (h : heap) (r i : nat) : result val :=
  let! vs := of_option IndexError (h !! r) in
  of_option IndexError (vs !! i).

Section Cached.

Context `{Portage}.

(** the wrapper that [lru_cache] puts around [_use_reduce_cached] *)
Definition cached (c : call) (st : state) : result nat * state :=
  let k := key_of c in
  match List.find (fun e => bool_decide (e.1 = k)) (cache st) with
  | Some (_, r) =>
      (Ok r,
       {| cells := cells st;
          cache := (k, r) :: List.filter (fun e => negb (bool_decide (e.1 = k)))
                                         (cache st) |})
  | None =>
      match Reduce._use_reduce_cached (c_args c) with
      | Raise e => (Raise e, st)
      | Ok l =>
          match store (Reduce.Sub l) (cells st) with
          | (VRef r, h) =>
              (Ok r, {| cells := h; cache := take maxsize ((k, r) :: cache st) |})
          | (_, h) => (Raise TypeError, st)
          end
      end
  end.

(** [use_reduce]: the cached list, copied *)
Definition use_reduce (c : call) (st : state) : result nat * state :=
  match cached c st with
  | (Ok r, st) =>
      match copy (cells st) r with
      | Ok (r', h) => (Ok r', {| cells := h; cache := cache st |})
      | Raise e => (Raise e, st)
      end
  | (Raise e, st) => (Raise e, st)
  end.

(** a caller: [r = use_reduce(...)], then [mutate(r)], then the same call
    again; the value of the second result *)
Definition second_call (c : call) (mutate : nat -> heap -> result heap)
  : result Reduce.dep :=
  match use_reduce c {| cells := []; cache := [] |} with
  | (Ok r1, st1) =>
      let! h := mutate r1 (cells st1) in
      match use_reduce c {| cells := h; cache := cache st1 |} with
      | (Ok r2, st2) =>
          of_option RecursionError (load 64 (cells st2) (VRef r2))
      | (Raise e, _) => Raise e
      end
  | (Raise e, _) => Raise e
  end.

End Cached.

End Memo.

(** ** Nested lists: [flatten] and [dep_opconvert] *)

Module Lists.

Import Reduce.

(** [flatten(x)] for one entry of a list: a nested list gives its
    flattened entries, anything else itself *)
Fixpoint flatten_entry (x : dep) : list dep :=
  match x with
  | Sub l => List.flat_map flatten_entry l
  | _ => [x]
  end.

(** [flatten] *)
Definition flatten (mylist : list dep) : list dep :=
  List.flat_map flatten_entry mylist.

(** [dep_opconvert(d)]; the entry after an [||] is converted whatever it
    is, and a [str] there is walked character by character *)
Fixpoint convert (d : dep) : result (list dep) :=
  match d with
  | Sub deplist =>
      (fix go (deplist : list dep) : result (list dep) :=
         match deplist with
         | [] => Ok []
         | x :: rest =>
             match x with
             | Sub _ =>
                 let! converted := convert x in
                 let! retlist := go rest in
                 Ok (Sub converted :: retlist)
             | _ =>
                 if eq_str x "||" then
                   match rest with
                   | [] => Raise IndexError
                   | y :: rest' =>
                       let! converted := convert y in
                       let! retlist := go rest' in
                       Ok (Sub (x :: converted) :: retlist)
                   end
                 else
                   let! retlist := go rest in
                   Ok (x :: retlist)
             end
         end) deplist
  | _ => Ok (items_of d)
  end.

(** [dep_opconvert] *)
Definition dep_opconvert (deplist : list dep) : result (list dep) :=
  convert (Sub deplist).

(** every [||] is directly followed by a list, at any depth *)
Fixpoint grouped_entry (d : dep) : bool :=
  match d with
  | Sub l =>
      (fix go (l : list dep) : bool :=
         match l with
         | [] => true
         | x :: rest =>
             if eq_str x "||" then
               match rest with
               | (Sub _ as y) :: rest' => grouped_entry y && go rest'
               | _ => false
               end
             else grouped_entry x && go rest
         end) l
  | _ => true
  end.

Definition grouped (l : list dep) : bool := grouped_entry (Sub l).

(** induction over entries, with the hypothesis for every entry of a
    nested list *)
Fixpoint dep_nested_ind (P : dep -> Prop)
    (Htok : forall s, P (Tok s)) (Hobj : forall o, P (Obj o))
    (Hsub : forall l, Forall P l -> P (Sub l)) (d : dep) : P d :=
  match d with
  | Tok s => Htok s
  | Obj o => Hobj o
  | Sub l =>
      Hsub l ((fix go (l : list dep) : Forall P l :=
                 match l with
                 | [] => @List.Forall_nil _ P
                 | x :: r => @List.Forall_cons _ P x r
                               (dep_nested_ind P Htok Hobj Hsub x) (go r)
                 end) l)
  end.

End Lists.

(** ** The flags of a REQUIRED_USE string: [get_required_use_flags] *)

Module UsedFlags.

Import RequiredUse.

Record state := {
  stack : list (list item);
  level : nat;
  need_bracket : bool;
  used_flags : gset string
}.

(** [register_token]: the flag a token names *)
Definition register_token (token : string) : string :=
  let token :=
    if Py.ends_with_char "?" token then Py.drop_last token else token in
  if Py.startswith token "!" then Py.drop 1 token else token.

(** truthiness of a stack entry, for [all(x for x in l)] *)
Definition truthy_item (x : item) : bool :=
  match x with
  | IBool b => b
  | IStr s => Py.truthy s
  end.

Section GetRequiredUseFlags.

Variable _get_eapi_attrs : option string -> _eapi_attrs.
Variable eapi : option string.

Definition valid_operators : list string :=
  if required_use_at_most_one_of (_get_eapi_attrs eapi)
  then ["||"; "^^"; "??"]
  else ["||"; "^^"].

(** [stack[level][-1] in valid_operators or (not isinstance(.., bool) and
    stack[level][-1][-1] == "?")] *)
Definition is_operator (e : item) : result bool :=
  match e with
  | IBool _ => Ok false
  | IStr s =>
      if bool_decide (s ∈ valid_operators) then Ok true
      else
        match Py.last_char s with
        | Some c => Ok (bool_decide (c = "?"%char))
        | None => Raise IndexError
        end
  end.

(** the token [)] *)
Definition close_bracket (st : state) : result state :=
  if need_bracket st then Raise InvalidDependString else
  if bool_decide (0 < level st)%nat then
    let lvl := (level st - 1)%nat in
    let! l := of_option IndexError (last (stack st)) in
    let stk := removelast (stack st) in
    let! cur := stack_at stk lvl in
    let! popped :=
      (match last cur with
       | Some e =>
           let! op := is_operator e in
           if op
           then Ok (true, <[lvl := removelast cur ++ [IBool true]]> stk)
           else Ok (false, stk)
       | None => Ok (false, stk)
       end) in
    let '(ignore, stk) := popped in
    let! stk :=
      (if negb (Reduce.empty l) && negb ignore
       then stack_append stk lvl (IBool (forallb truthy_item l))
       else Ok stk) in
    Ok {| stack := stk; level := lvl; need_bracket := false;
          used_flags := used_flags st |}
  else Raise InvalidDependString.

Definition step (token : string) (st : state) : result state :=
  if bool_decide (token = "(") then
    Ok {| stack := stack st ++ [[]]; level := S (level st);
          need_bracket := false; used_flags := used_flags st |}
  else if bool_decide (token = ")") then close_bracket st
  else if bool_decide (token ∈ valid_operators) then
    if need_bracket st then Raise InvalidDependString else
    let! stk := stack_append (stack st) (level st) (IStr token) in
    Ok {| stack := stk; level := level st; need_bracket := true;
          used_flags := used_flags st |}
  else
    if need_bracket st then Raise InvalidDependString else
    let! c := of_option IndexError (Py.last_char token) in
    let conditional := bool_decide (c = "?"%char) in
    let! stk :=
      stack_append (stack st) (level st)
        (if conditional then IStr token else IBool true) in
    Ok {| stack := stk; level := level st; need_bracket := conditional;
          used_flags := {[register_token token]} ∪ used_flags st |}.

Definition initial : state :=
  {| stack := [[]]; level := 0; need_bracket := false; used_flags := ∅ |}.

Definition get_required_use_flags (required_use : string)
  : result (gset string) :=
  let! st := for_each step (Py.split required_use) initial in
  if bool_decide (level st ≠ 0%nat) || need_bracket st
  then Raise InvalidDependString
  else Ok (used_flags st).

(** the tokens that name a flag: neither bracket nor operator *)
Definition names_flag (token : string) : bool :=
  negb (bool_decide (token = "(")) && negb (bool_decide (token = ")"))
  && negb (bool_decide (token ∈ valid_operators)).

(** the stack as the loop keeps it *)
Record shape (st : state) : Prop := {
  shape_depth : length (stack st) = S (level st);
  shape_entries :
    Forall (Forall (fun e => e <> IStr EmptyString)) (stack st)
}.

End GetRequiredUseFlags.

End UsedFlags.

(** ** Satisfied USE dependencies: [_use_dep.violated_conditionals] *)

Module Violated.

Import UseDep.

Section ViolatedConditionals.

Variable self : _use_dep.
Variable other_use : gset string.
Variable is_valid_flag : string -> bool.
(** [None] is the default *)
Variable parent_use : option (gset string).

(** [flag in parent_use]; [None] is not iterable *)
Definition in_parent (flag : string) : result bool :=
  match parent_use with
  | Some use => Ok (bool_decide (flag ∈ use))
  | None => Raise TypeError
  end.

(** [validate_flag] *)
Definition validate_flag (flag : string) : bool :=
  is_valid_flag flag
  || bool_decide (flag ∈ missing_enabled self ∪ missing_disabled self).

(** whether the token of a flag that passes [validate_flag] is kept, by
    its operator *)
Definition violated (operator flag : string) : result bool :=
  if bool_decide (operator = "") then
    if bool_decide (flag ∉ other_use) then
      Ok (is_valid_flag flag || bool_decide (flag ∈ missing_disabled self))
    else Ok false
  else if bool_decide (operator = "-") then
    if bool_decide (flag ∉ other_use) then
      if negb (is_valid_flag flag)
      then Ok (bool_decide (flag ∈ missing_enabled self))
      else Ok false
    else Ok true
  else if bool_decide (operator = "?") then
    let! p := in_parent flag in
    if negb p || bool_decide (flag ∈ other_use) then Ok false
    else Ok (is_valid_flag flag || bool_decide (flag ∈ missing_disabled self))
  else if bool_decide (operator = "=") then
    let! p := in_parent flag in
    if p && bool_decide (flag ∉ other_use) then
      if is_valid_flag flag then Ok true
      else Ok (bool_decide (flag ∈ missing_disabled self))
    else
      let! p := in_parent flag in
      if negb p then
        if bool_decide (flag ∉ other_use) then
          if negb (is_valid_flag flag)
          then Ok (bool_decide (flag ∈ missing_enabled self))
          else Ok false
        else Ok true
      else Ok false
  else if bool_decide (operator = "!=") then
    let! p := in_parent flag in
    if negb p && bool_decide (flag ∉ other_use) then
      if is_valid_flag flag then Ok true
      else Ok (bool_decide (flag ∈ missing_disabled self))
    else
      let! p := in_parent flag in
      if p then
        if bool_decide (flag ∉ other_use) then
          if negb (is_valid_flag flag)
          then Ok (bool_decide (flag ∈ missing_enabled self))
          else Ok false
        else Ok true
      else Ok false
  else if bool_decide (operator = "!?") then
    let! p := in_parent flag in
    if negb p then
      if bool_decide (flag ∉ other_use) then
        Ok (negb (is_valid_flag flag)
            && bool_decide (flag ∈ missing_enabled self))
      else Ok true
    else Ok false
  else Ok false.

(** the sets that a kept token is entered in, by its operator *)
Definition enter (operator flag : string)
    (acc : gset string * gset string * cond_dict)
  : gset string * gset string * cond_dict :=
  let '(en, dis, cond) := acc in
  if bool_decide (operator = "") then ({[flag]} ∪ en, dis, cond)
  else if bool_decide (operator = "-") then (en, {[flag]} ∪ dis, cond)
  else if bool_decide (operator = "?") then (en, dis, cond_add cond "enabled" flag)
  else if bool_decide (operator = "=") then (en, dis, cond_add cond "equal" flag)
  else if bool_decide (operator = "!=")
  then (en, dis, cond_add cond "not_equal" flag)
  else if bool_decide (operator = "!?")
  then (en, dis, cond_add cond "disabled" flag)
  else acc.

(** one turn of the loop, on [((enabled_flags, disabled_flags,
    conditional), tokens)] *)
Definition violated_token (x : string)
    (acc : gset string * gset string * cond_dict * list string)
  : result (gset string * gset string * cond_dict * list string) :=
  let '(sets, toks) := acc in
  let! m := of_option AttributeError (usedep_re_match x) in
  let operator := g_prefix m +:+ g_suffix m in
  let flag := g_flag m in
  let! keep :=
    (if negb (validate_flag flag) then Ok true else violated operator flag) in
  if keep then Ok (enter operator flag sets, toks ++ [x]) else Ok acc.

(** [violated_conditionals] *)
Definition violated_conditionals : result _use_dep :=
  if bool_decide (parent_use = None) && bool_decide (conditional self ≠ None)
  then Raise InvalidAtom
  else
    let! acc := for_each violated_token (tokens self) (∅, ∅, ∅, []) in
    let '(en, dis, cond, toks) := acc in
    Ok (init_shortcut toks (_eapi_attrs_of self) en dis
          (missing_enabled self) (missing_disabled self) (Some cond)
          (required self)).

End ViolatedConditionals.

End Violated.

(** ** [ExtendedAtomDict] *)

Module ExtendedAtomDict.

Section Dict.

(** the entries of a value; [value_class] is [list] *)
Variable V : Type.

(** a Python [dict] with [str] keys: the items in insertion order, every
    key once *)
Definition dict : Type := list (string * list V).

(** [d.get(k)] *)
Fixpoint dict_get (d : dict) (k : string) : option (list V) :=
  match d with
  | [] => None
  | (k', v) :: rest => if bool_decide (k' = k) then Some v else dict_get rest k
  end.

(** [d[k] = v]: a known key keeps its place *)
Fixpoint dict_set (d : dict) (k : string) (v : list V) : dict :=
  match d with
  | [] => [(k, v)]
  | (k', v') :: rest =>
      if bool_decide (k' = k) then (k, v) :: rest
      else (k', v') :: dict_set rest k v
  end.

(** [del d[k]] *)
Fixpoint dict_del (d : dict) (k : string) : result dict :=
  match d with
  | [] => Raise KeyError
  | (k', v') :: rest =>
      if bool_decide (k' = k) then Ok rest
      else let! rest' := dict_del rest k in Ok ((k', v') :: rest')
  end.

Record t := {
  _extended : dict;
  _normal : dict
}.

(** [__init__] *)
Definition init : t := {| _extended := []; _normal := [] |}.

(** [__setitem__] *)
Definition setitem (self : t) (cp : string) (val : list V) : t :=
  if Py.contains cp "*"
  then {| _extended := dict_set (_extended self) cp val;
          _normal := _normal self |}
  else {| _extended := _extended self;
          _normal := dict_set (_normal self) cp val |}.

(** [__delitem__] *)
Definition delitem (self : t) (cp : string) : result t :=
  if Py.contains cp "*"
  then let! e := dict_del (_extended self) cp in
       Ok {| _extended := e; _normal := _normal self |}
  else let! n := dict_del (_normal self) cp in
       Ok {| _extended := _extended self; _normal := n |}.

(** [__len__] *)
Definition len (self : t) : nat :=
  (length (_normal self) + length (_extended self))%nat.

(** [__iter__], also [keys] *)
Definition iter (self : t) : list string :=
  (_normal self).*1 ++ (_extended self).*1.

(** the loop of [__getitem__] over the extended keys, on [(ret, match)] *)
Definition collect (cp : string) (item : string * list V)
    (acc : list V * bool) : list V * bool :=
  if Match.extended_cp_match item.1 cp
  then (acc.1 ++ item.2, true)
  else acc.

(** [__getitem__] *)
Definition getitem (self : t) (cp : string) : result (list V) :=
  if Py.contains cp "*"
  then of_option KeyError (dict_get (_extended self) cp)
  else
    let start :=
      match dict_get (_normal self) cp with
      | Some normal_match => (normal_match, true)
      | None => ([], false)
      end in
    let '(ret, found) :=
      fold_left (fun acc item => collect cp item acc) (_extended self) start in
    if found then Ok ret else Raise KeyError.

(** the values of the extended keys that match [cp], in the order of the
    keys *)
Definition extended_values (self : t) (cp : string) : list V :=
  List.flat_map (fun item : string * list V => item.2)
    (List.filter (fun item : string * list V =>
                    Match.extended_cp_match item.1 cp)
       (_extended self)).

End Dict.

End ExtendedAtomDict.

(** ** Characters of a text *)

(** no character of [s] is [c] *)
Definition free (c : ascii) (s : string) : bool :=
  forallb (fun x => negb (bool_decide (x = c))) (list_ascii_of_string s).

(** ** Flag tokens of REQUIRED_USE

    The vocabulary of the statements about [check_required_use] on
    strings without groups: what a single flag token asks for. *)

Module FlagTokens.

(** the flag that a token of REQUIRED_USE names, and whether it is
    negated *)
Definition flag_of (token : string) : string :=
  if Py.startswith token "!" then Py.drop 1 token else token.

(** what the token asks of the enabled flags *)
Definition wants (use : gset string) (token : string) : bool :=
  if Py.startswith token "!"
  then bool_decide (flag_of token ∉ use)
  else bool_decide (flag_of token ∈ use).

(** the flag is not empty and is in IUSE *)
Definition known (iuse_match : string -> bool) (token : string) : bool :=
  Py.truthy (flag_of token) && iuse_match (flag_of token).

(** a token that is a flag: no bracket, no operator, no conditional *)
Definition is_flag (valid_operators : list string) (token : string) : bool :=
  negb (bool_decide (token = "(")) && negb (bool_decide (token = ")"))
  && negb (bool_decide (token ∈ valid_operators))
  && negb (Py.ends_with_char "?" token).

End FlagTokens.

(** ** [_emerge.PackageVirtualDbapi]

    The installed-package database that is updated while packages are
    merged.  [_emerge.Package] is used through the attributes [cpv], [cp]
    and [slot_atom] (all of them [str]) and through its [==]; the two
    dicts are read by key only, so they are finite maps. *)

Module PackageVirtualDbapi.

Section Dbapi.

Variable Package : Type.
Variable cpv cp slot_atom : Package -> string.

(** [a == b] on packages *)
Variable pkg_eq : Package -> Package -> bool.

Record t := {
  _match_cache : gmap (string * string) (list string);
  _categories : option (list string);
  _cp_map : gmap string (list Package);
  _cpv_map : gmap string Package
}.

(** [__init__]; [_categories] is [None] in a new [dbapi] *)
Definition init : t :=
  {| _match_cache := ∅; _categories := None; _cp_map := ∅; _cpv_map := ∅ |}.

Definition _clear_cache (self : t) : t :=
  let self :=
    match _categories self with
    | Some _ =>
        {| _match_cache := _match_cache self; _categories := None;
           _cp_map := _cp_map self; _cpv_map := _cpv_map self |}
    | None => self
    end in
  if bool_decide (_match_cache self <> ∅)
  then {| _match_cache := ∅; _categories := _categories self;
          _cp_map := _cp_map self; _cpv_map := _cpv_map self |}
  else self.

Definition clear (self : t) : t :=
  if bool_decide (_cpv_map self <> ∅)
  then let self := _clear_cache self in
       {| _match_cache := _match_cache self; _categories := _categories self;
          _cp_map := ∅; _cpv_map := ∅ |}
  else self.

Definition __bool__ (self : t) : bool := bool_decide (_cpv_map self <> ∅).

Definition __contains__ (self : t) (item : Package) : bool :=
  match _cpv_map self !! cpv item with
  | Some existing => pkg_eq existing item
  | None => false
  end.

Definition cpv_exists (self : t) (c : string) : bool :=
  bool_decide (is_Some (_cpv_map self !! c)).

(** [l.remove(x)]: the first entry equal to [x] goes, ValueError when
    there is none *)
Fixpoint list_remove (l : list Package) (x : Package)
  : result (list Package) :=
  match l with
  | [] => Raise ValueError
  | y :: l' =>
      if pkg_eq y x then Ok l'
      else let! r := list_remove l' x in Ok (y :: r)
  end.

Definition cpv_remove (self : t) (pkg : Package) : result t :=
  let old_pkg := _cpv_map self !! cpv pkg in
  if match old_pkg with
     | Some old => negb (pkg_eq old pkg)
     | None => true
     end
  then Raise KeyError
  else
    let! cp_list := of_option KeyError (_cp_map self !! cp pkg) in
    let! cp_list := list_remove cp_list pkg in
    let! _ := of_option KeyError (_cpv_map self !! cpv pkg) in
    Ok (_clear_cache
          {| _match_cache := _match_cache self;
             _categories := _categories self;
             _cp_map := <[cp pkg := cp_list]> (_cp_map self);
             _cpv_map := delete (cpv pkg) (_cpv_map self) |}).

(** The list object that [cpv_inject] binds to [cp_list] is the one stored
    under [pkg.cp]: [cpv_remove] changes that object in place and nothing
    rebinds or deletes a key of [_cp_map], so the variable is read through
    the map. *)
Definition cp_list_of (self : t) (pkg : Package) : list Package :=
  default [] (_cp_map self !! cp pkg).

(** the end of [cpv_inject]: append, record, clear the cache *)
Definition inject_new (self : t) (pkg : Package) : t :=
  _clear_cache
    {| _match_cache := _match_cache self;
       _categories := _categories self;
       _cp_map := <[cp pkg := cp_list_of self pkg ++ [pkg]]> (_cp_map self);
       _cpv_map := <[cpv pkg := pkg]> (_cpv_map self) |}.

(** the loop over [cp_list] and what follows it *)
Definition inject_slot (self : t) (pkg : Package) : result t :=
  match List.find (fun e_pkg => bool_decide (slot_atom e_pkg = slot_atom pkg))
          (cp_list_of self pkg) with
  | Some e_pkg =>
      if pkg_eq e_pkg pkg then Ok self
      else let! self := cpv_remove self e_pkg in Ok (inject_new self pkg)
  | None => Ok (inject_new self pkg)
  end.

Definition cpv_inject (self : t) (pkg : Package) : result t :=
  let self :=
    match _cp_map self !! cp pkg with
    | Some _ => self
    | None =>
        {| _match_cache := _match_cache self;
           _categories := _categories self;
           _cp_map := <[cp pkg := []]> (_cp_map self);
           _cpv_map := _cpv_map self |}
    end in
  match _cpv_map self !! cpv pkg with
  | Some e_pkg =>
      if pkg_eq e_pkg pkg then Ok self
      else let! self := cpv_remove self e_pkg in inject_slot self pkg
  | None => inject_slot self pkg
  end.

(** The two maps describe the same packages, and a list of [_cp_map] has
    one package for a slot. *)
Record consistent (self : t) : Prop := {
  cpv_known : forall c p,
    _cpv_map self !! c = Some p ->
    cpv p = c /\ exists l, _cp_map self !! cp p = Some l /\ p ∈ l;
  cp_known : forall k l p,
    _cp_map self !! k = Some l -> p ∈ l ->
    cp p = k /\ _cpv_map self !! cpv p = Some p;
  one_per_slot : forall k l,
    _cp_map self !! k = Some l -> NoDup (slot_atom <$> l)
}.

End Dbapi.

Arguments _match_cache {Package}.
Arguments _categories {Package}.
Arguments _cp_map {Package}.
Arguments _cpv_map {Package}.
Arguments init {Package}.
Arguments _clear_cache {Package}.
Arguments clear {Package}.
Arguments __bool__ {Package}.
Arguments __contains__ {Package}.
Arguments cpv_exists {Package}.
Arguments list_remove {Package}.
Arguments cpv_remove {Package}.
Arguments cp_list_of {Package}.
Arguments inject_new {Package}.
Arguments inject_slot {Package}.
Arguments cpv_inject {Package}.
Arguments consistent {Package}.

End PackageVirtualDbapi.

(** ** A concrete package type

    Packages with the three attributes and a repository; [==] compares
    the version, the name and the repository, not the slot. *)

Module PackageFixture.

Record package := {
  pkg_cpv : string;
  pkg_cp : string;
  pkg_slot_atom : string;
  pkg_repo : string
}.

Definition package_eq (a b : package) : bool :=
  bool_decide (pkg_cpv a = pkg_cpv b) && bool_decide (pkg_cp a = pkg_cp b)
  && bool_decide (pkg_repo a = pkg_repo b).

Definition inject (self : PackageVirtualDbapi.t package) (pkg : package)
  : result (PackageVirtualDbapi.t package) :=
  PackageVirtualDbapi.cpv_inject pkg_cpv pkg_cp pkg_slot_atom package_eq
    self pkg.

Definition remove (self : PackageVirtualDbapi.t package) (pkg : package)
  : result (PackageVirtualDbapi.t package) :=
  PackageVirtualDbapi.cpv_remove pkg_cpv pkg_cp package_eq self pkg.

Definition foo_1 : package :=
  {| pkg_cpv := "dev/foo-1"; pkg_cp := "dev/foo";
     pkg_slot_atom := "dev/foo:0"; pkg_repo := "gentoo" |}.

Definition foo_2 : package :=
  {| pkg_cpv := "dev/foo-2"; pkg_cp := "dev/foo";
     pkg_slot_atom := "dev/foo:0"; pkg_repo := "gentoo" |}.

Definition bar_1 : package :=
  {| pkg_cpv := "dev/bar-1"; pkg_cp := "dev/bar";
     pkg_slot_atom := "dev/bar:0"; pkg_repo := "gentoo" |}.

(** the database that holds [foo_1] only *)
Definition one : PackageVirtualDbapi.t package :=
  {| PackageVirtualDbapi._match_cache := ∅;
     PackageVirtualDbapi._categories := None;
     PackageVirtualDbapi._cp_map := {[ "dev/foo" := [foo_1] ]};
     PackageVirtualDbapi._cpv_map := {[ "dev/foo-1" := foo_1 ]} |}.

End PackageFixture.

(** ** A concrete EAPI table

    Used to run the definitions on concrete inputs: EAPIs "7" and "8"
    dropped the rule that an empty group is true, every other EAPI keeps
    it; all grammar extensions are enabled. *)

Module Fixture.

Definition attrs (empty_true : bool) : _eapi_attrs :=
    {| empty_groups_always_true := empty_true;
       required_use_at_most_one_of := true;
       src_uri_arrows := true;
       selective_src_uri_restriction := true;
       slot_operator := true;
       slot_deps := true;
       use_deps := true;
       use_dep_defaults := true;
       strong_blocks := true;
       repo_deps := true |}.

Definition _get_eapi_attrs (eapi : option string) : _eapi_attrs :=
    match eapi with
    | Some e => attrs (negb (bool_decide (e = "7") || bool_decide (e = "8")))
    | None => attrs true
    end.

Definition any_flag (flag : string) : bool := true.

  (** *** A small stand-in for [portage.versions] and the atom grammars

      Versions are dot-separated decimal numbers with an optional [-rN]
      revision; names are letters, digits, [+], [_] and [-].  The grammar
      knows operators, the [=...*] glob, [:slot], [::repo] and a
      bracketed USE suffix; it has no build ids and no wildcard glob on
      versions. *)

Definition is_revision (s : string) : bool :=
    Py.startswith s "r" && Py.isdigit (Py.drop 1 s).

Definition is_version (s : string) : bool :=
    forallb Py.isdigit (Py.split_on "." s).

Definition is_name_char (c : ascii) : bool :=
    UseDep.is_alnum c || bool_decide (c = "+"%char)
    || bool_decide (c = "_"%char) || bool_decide (c = "-"%char).

Definition is_name (s : string) : bool :=
    Py.truthy s && forallb is_name_char (list_ascii_of_string s).

  (** cut [name-ver] or [name-ver-rN] into its parts *)
Definition split_pv (pv : string) : option (string * string * string) :=
    match rev (Py.split_on "-" pv) with
    | r :: v :: (_ :: _) as name =>
        if is_revision r && is_version v
        then Some (Py.join "-" (rev name), v, r)
        else if is_version r
        then Some (Py.join "-" (rev (v :: name)), r, "r0")
        else None
    | v :: (_ :: _) as name =>
        if is_version v then Some (Py.join "-" (rev name), v, "r0") else None
    | _ => None
    end.

Definition split_cpv (s : string) : option cpv_split_t :=
    match Py.find s "/" with
    | Some i =>
        let cat := Py.take i s in
        match split_pv (Py.drop (i + 1) s) with
        | Some (pkg, v, r) =>
            if is_name cat && is_name pkg then Some (cat, pkg, v, r) else None
        | None => None
        end
    | None => None
    end.

Definition catpkgsplit (c : cpv_t) : option cpv_split_t :=
    match c with
    | CpvPkg p => Some (p_cpv_split p)
    | CpvStr s => split_cpv s
    end.

Definition _pkg_str (cpv : string) (slot : option string) : option pkg :=
    match split_cpv cpv with
    | Some (cat, name, v, r) =>
        Some {| p_cpv := cpv;
                p_cp := cat +:+ "/" +:+ name;
                p_version :=
                  if bool_decide (r = "r0") && negb (Py.startswith (Py.drop (String.length cpv - 3) cpv) "-r0")
                  then v else v +:+ "-" +:+ r;
                p_cpv_split := (cat, name, v, r);
                p_build_id := None;
                p_slot := slot;
                p_sub_slot := slot;
                p_repo := None;
                p_use := None;
                p_is_valid_flag := any_flag |}
    | None => None
    end.

  (** a version as its numbers, the revision last *)
Definition version_key (v : string) : option (list Z) :=
    let '(base, r) :=
      match Py.find v "-r" with
      | Some i => (Py.take i v, Py.drop (i + 2) v)
      | None => (v, "0")
      end in
    mapM Py.int (Py.split_on "." base ++ [r]).

Fixpoint compare_keys (a b : list Z) : Z :=
    match a, b with
    | [], [] => 0
    | [], _ :: _ => -1
    | _ :: _, [] => 1
    | x :: a', y :: b' =>
        if bool_decide (x < y) then -1
        else if bool_decide (y < x) then 1
        else compare_keys a' b'
    end.

Definition vercmp (v1 v2 : string) : result (option Z) :=
    match version_key v1, version_key v2 with
    | Some a, Some b => Ok (Some (compare_keys a b))
    | _, _ => Ok None
    end.

Definition operators : list string := [">="; "<="; ">"; "<"; "="; "~"].

Definition strip_operator (s : string) : option string * string :=
    match filter (fun o => Py.startswith s o = true) operators with
    | o :: _ => (Some o, Py.drop (String.length o) s)
    | [] => (None, s)
    end.

  (** cut the [::repo], then the [:slot], off the unbracketed text *)
Definition cut_suffixes (s : string) : string * option string * option string :=
    let '(s, repo) :=
      match Py.find s "::" with
      | Some i => (Py.take i s, Some (Py.drop (i + 2) s))
      | None => (s, None)
      end in
    match Py.find s ":" with
    | Some i => (Py.take i s, Some (Py.drop (i + 1) s), repo)
    | None => (s, None, repo)
    end.

Definition is_cp (s : string) : bool :=
    match Py.find s "/" with
    | Some i => is_name (Py.take i s) && is_name (Py.drop (i + 1) s)
    | None => false
    end.

Definition atom_alt_of (body : string) : option atom_alt :=
    match strip_operator body with
    | (Some op, rest) =>
        if bool_decide (op = "=") && Py.ends_with_char "*" rest then
          match split_cpv (Py.drop_last rest) with
          | Some xs => Some (AltStar (Py.drop_last rest) (Match.split_cp xs) None)
          | None => None
          end
        else
          match split_cpv rest with
          | Some xs => Some (AltOp op rest (Match.split_cp xs) None)
          | None => None
          end
    | (None, rest) =>
        if is_cp rest then
          Some (AltSimple rest
                  (match split_cpv rest with
                   | Some (_, _, v, _) => Some ("-" +:+ v)
                   | None => None
                   end))
        else None
    end.

Definition atom_re_match (s : string) : option atom_match :=
    let '(without_use, use_str) :=
      match Py.find s "[" with
      | Some i =>
          if Py.ends_with_char "]" s
          then (Py.take i s, Some (Py.drop i s))
          else (s, None)
      | None => (s, None)
      end in
    let '(body, slot, repo) := cut_suffixes without_use in
    match atom_alt_of body with
    | Some alt =>
        if bool_decide (is_name <$> repo = Some false)
           || bool_decide (Py.truthy <$> slot = Some false)
        then None
        else Some {| m_without_use := without_use; m_alt := alt;
                     m_slot := slot; m_repo := repo; m_use := use_str |}
    | None => None
    end.

Definition is_glob_name (s : string) : bool :=
    Py.truthy s
    && forallb (fun c => is_name_char c || bool_decide (c = "*"%char))
         (list_ascii_of_string s).

Definition atom_wildcard_re_match (s : string) : option wildcard_match :=
    let '(body, slot, repo) := cut_suffixes s in
    match Py.find body "/" with
    | Some i =>
        if is_glob_name (Py.take i body) && is_glob_name (Py.drop (i + 1) body)
        then Some {| w_alt := WSimple body None; w_slot := slot; w_repo := repo |}
        else None
    | None => None
    end.

Definition slot_dep_re_match (slot_operator : bool) (slot : string)
    : option (option string * option string) :=
    if negb slot_operator then Some (Some slot, None)
    else if bool_decide (slot = "*") || bool_decide (slot = "=")
    then Some (None, Some slot)
    else
      match Py.find slot "/" with
      | Some i => Some (Some (Py.take i slot), Some (Py.drop i slot))
      | None =>
          if Py.ends_with_char "=" slot
          then Some (Some (Py.drop_last slot), Some "=")
          else Some (Some slot, None)
      end.

Definition portage : Portage :=
    Build_Portage _get_eapi_attrs atom_re_match atom_wildcard_re_match
      slot_dep_re_match _pkg_str catpkgsplit vercmp "__unknown__".

  (** the atom a string parses to under this grammar (the empty atom if
      it does not parse) *)
Definition no_atom : Atom.t :=
    {| Atom.text := ""; Atom.eapi := None; Atom.blocker := Atom.NotBlocker;
       Atom.cp := ""; Atom.cpv := CpvStr ""; Atom.version := None;
       Atom.repo := None; Atom.slot := None; Atom.sub_slot := None;
       Atom.slot_operator_ := None; Atom.operator := None;
       Atom.extended_syntax := false; Atom.build_id := None;
       Atom.use := None; Atom.without_use := None;
       Atom.unevaluated_atom := None |}.

  (** the [_pkg_str] of a cpv under this grammar *)
Definition pkg_of (cpv : string) : pkg :=
    match _pkg_str cpv None with
    | Some p => p
    | None =>
        {| p_cpv := cpv; p_cp := ""; p_version := ""; p_cpv_split := ("", "", "", "");
           p_build_id := None; p_slot := None; p_sub_slot := None;
           p_repo := None; p_use := None; p_is_valid_flag := any_flag |}
    end.

(** [use_reduce] arguments: a string and its enabled flags, every other
    argument at its default *)
Definition reduce_args (depstr : string) (uselist : gset string) : Reduce.args :=
  {| Reduce.depstr := depstr; Reduce.uselist := uselist;
     Reduce.masklist := ∅; Reduce.matchall := false;
     Reduce.excludeall := ∅; Reduce.is_src_uri := false;
     Reduce.eapi := None; Reduce.opconvert := false; Reduce.flat := false;
     Reduce.is_valid_flag := None; Reduce.token_class := None;
     Reduce.matchnone := false; Reduce.subset := None |}.

(** [use_reduce(depstr, opconvert=..., flat=..., subset=...)] *)
Definition reduce_modes (depstr : string) (opconvert flat : bool)
    (subset : option (gset string)) : Reduce.args :=
  {| Reduce.depstr := depstr; Reduce.uselist := ∅;
     Reduce.masklist := ∅; Reduce.matchall := false;
     Reduce.excludeall := ∅; Reduce.is_src_uri := false;
     Reduce.eapi := None; Reduce.opconvert := opconvert; Reduce.flat := flat;
     Reduce.is_valid_flag := None; Reduce.token_class := None;
     Reduce.matchnone := false; Reduce.subset := subset |}.

(** [use_reduce(depstr)], as the cache sees the call *)
Definition reduce_call (depstr : string) : Memo.call :=
  {| Memo.c_args := reduce_args depstr ∅;
     Memo.c_valid_id := None; Memo.c_class_id := None |}.

(** [token_class=Atom] *)
Definition atom_class (token : string) (eapi : option string)
    (is_valid_flag : option (string -> bool)) : result Atom.t :=
  @Atom.init portage token None false None None eapi is_valid_flag None.

(** the first number of a version *)
Definition version_rank (v : string) : Z :=
  match version_key v with
  | Some (n :: _) => n
  | _ => 0
  end.

Definition atom (s : string) : Atom.t :=
    match @Atom.of_string portage s with
    | Ok a => a
    | Raise _ => no_atom
    end.

End Fixture.

(* ================================================================== *)
(** * Properties *)
(* ================================================================== *)

Section RequiredUseProperties.

  Import RequiredUse.

  Variable _get_eapi_attrs : option string -> _eapi_attrs.
  Variable iuse_match : string -> bool.
  Variable eapi : option string.


Lemma split_empty_any_of : Py.split "|| ( )" = ["||"; "("; ")"].
  Proof. reflexivity. Qed.










  (** C7.  The verdict of [check_required_use("|| ( )", ())] is exactly
      the EAPI's [empty_groups_always_true] attribute: satisfied where it
      is true, an unsatisfied tree (and no exception) where it is false. *)
Theorem empty_any_of_verdict :
    verdict (check_required_use _get_eapi_attrs "|| ( )" ∅ iuse_match eapi)
    = Ok (empty_groups_always_true (_get_eapi_attrs eapi)).
  Proof.
    unfold verdict, check_required_use.
    rewrite split_empty_any_of.
    unfold for_each, step, close_bracket, is_satisfied, valid_operators,
      eapi_attrs.
    destruct (_get_eapi_attrs eapi) as [e r ? ? ? ? ? ? ? ?];
      destruct e, r; vm_compute; reflexivity.
  Qed.

End RequiredUseProperties.



(** ** USE conditionals *)

Section UseProperties.

Import UseDep.

Context `{Portage}.

Lemma span_app (p : ascii -> bool) (fl d : string) :
  forallb p (list_ascii_of_string fl) = true ->
  match d with String c _ => p c = false | EmptyString => True end ->
  span p (fl +:+ d) = (fl, d).
Proof.
  intros Hfl Hd. induction fl as [|c fl IH].
  - change (EmptyString +:+ d) with d. destruct d as [|c d]; [reflexivity|].
    cbn [span]. rewrite Hd. reflexivity.
  - cbn [list_ascii_of_string forallb] in Hfl. apply andb_prop in Hfl as [Hc Hfl].
    change (String c fl +:+ d) with (String c (fl +:+ d)).
    cbn [span]. rewrite Hc, (IH Hfl). reflexivity.
Qed.

Lemma span_all (p : ascii -> bool) (s a b : string) :
  span p s = (a, b) -> forallb p (list_ascii_of_string a) = true.
Proof.
  revert a b. induction s as [|c s IH]; intros a b Hs.
  - injection Hs as <- <-. reflexivity.
  - cbn [span] in Hs. destruct (p c) eqn:Hc.
    + destruct (span p s) as [a' b'] eqn:E. injection Hs as <- <-.
      cbn [list_ascii_of_string forallb]. rewrite Hc. exact (IH _ _ eq_refl).
    + injection Hs as <- <-. reflexivity.
Qed.

Lemma alnum_not_prefix (c : ascii) :
  is_alnum c = true ->
  bool_decide (c = "!"%char) || bool_decide (c = "-"%char) = false.
Proof. destruct c as [[] [] [] [] [] [] [] []]; vm_compute; congruence. Qed.

Lemma take_default_cases (r def r3 : string) :
  take_default r = (def, r3) ->
  (def = "" \/ def = "(+)" \/ def = "(-)").
Proof.
  unfold take_default. destruct (Py.startswith r "(+)"); [intros [= <- _]; auto|].
  destruct (Py.startswith r "(-)"); intros [= <- _]; auto.
Qed.

(** what a match tells about the flag and the default *)
Lemma usedep_match_inv (x : string) (m : groups) :
  usedep_re_match x = Some m ->
  exists c fl,
    g_flag m = String c fl /\ is_alnum c = true /\
    forallb is_flag_char (list_ascii_of_string fl) = true /\
    (g_default m = "" \/ g_default m = "(+)" \/ g_default m = "(-)").
Proof.
  unfold usedep_re_match. destruct (take_prefix x) as [pre r].
  destruct r as [|c r1]; [discriminate|].
  destruct (is_alnum c) eqn:Hc; [|discriminate].
  destruct (span is_flag_char r1) as [fl r2] eqn:Hsp.
  destruct (take_default r2) as [def r3] eqn:Hd.
  destruct (take_suffix r3) as [suf r4].
  destruct (at_end r4); [|discriminate].
  intros [= <-]. cbn. exists c, fl. split; [reflexivity|]. split; [exact Hc|].
  split; [exact (span_all _ _ _ _ Hsp)|]. exact (take_default_cases _ _ _ Hd).
Qed.

Lemma rematch_flag (c : ascii) (fl def : string) :
  is_alnum c = true ->
  forallb is_flag_char (list_ascii_of_string fl) = true ->
  (def = "" \/ def = "(+)" \/ def = "(-)") ->
  usedep_re_match (String c fl +:+ def)
  = Some {| g_prefix := ""; g_flag := String c fl; g_default := def; g_suffix := "" |}
  /\
  usedep_re_match ("-" +:+ String c fl +:+ def)
  = Some {| g_prefix := "-"; g_flag := String c fl; g_default := def; g_suffix := "" |}.
Proof.
  intros Hc Hfl Hdef.
  assert (Hsp : span is_flag_char (fl +:+ def) = (fl, def)).
  { apply span_app; [exact Hfl|]. destruct Hdef as [->|[->| ->]]; [exact I|reflexivity|reflexivity]. }
  assert (Htd : take_default def = (def, "")).
  { destruct Hdef as [->|[->| ->]]; reflexivity. }
  split.
  - change (String c fl +:+ def) with (String c (fl +:+ def)).
    unfold usedep_re_match, take_prefix. rewrite (alnum_not_prefix c Hc), Hc, Hsp, Htd.
    reflexivity.
  - change ("-" +:+ String c fl +:+ def) with (String "-" (String c (fl +:+ def))).
    unfold usedep_re_match, take_prefix.
    rewrite (bool_decide_eq_false_2 ("-"%char = "!"%char)) by discriminate.
    rewrite (bool_decide_eq_true_2 ("-"%char = "-"%char)) by reflexivity.
    cbn [orb]. rewrite Hc, Hsp, Htd. reflexivity.
Qed.

Lemma eval_token_settled (use : gset string) (x : string)
      (en dis : gset string) (toks : list string) :
  settled x ->
  eval_token use x (en, dis, toks) = Ok (en, dis, toks ++ [x]).
Proof.
  intros [m [Hm [H1 [H2 [H3 H4]]]]]. unfold eval_token. rewrite Hm. cbn [of_option bind].
  rewrite !bool_decide_eq_false_2 by assumption. reflexivity.
Qed.

Lemma eval_settled (use : gset string) (xs : list string)
      (en dis : gset string) (toks : list string) :
  Forall settled xs ->
  for_each (eval_token use) xs (en, dis, toks) = Ok (en, dis, toks ++ xs).
Proof.
  intros Hxs. revert toks. induction Hxs as [|x xs Hx _ IH]; intros toks.
  - rewrite app_nil_r. reflexivity.
  - cbn [for_each]. rewrite (eval_token_settled use x en dis toks Hx). cbn [bind].
    rewrite IH, <- app_assoc. reflexivity.
Qed.

Lemma settled_plain (c : ascii) (fl def : string) :
  is_alnum c = true ->
  forallb is_flag_char (list_ascii_of_string fl) = true ->
  (def = "" \/ def = "(+)" \/ def = "(-)") ->
  settled (String c fl +:+ def) /\ settled ("-" +:+ String c fl +:+ def).
Proof.
  intros Hc Hfl Hdef. destruct (rematch_flag c fl def Hc Hfl Hdef) as [H1 H2].
  split; eexists; (split; [eassumption|]); cbn; repeat split; discriminate.
Qed.

Lemma eval_token_keeps_settled (use : gset string) (x : string)
      (en dis en' dis' : gset string) (toks toks' : list string) :
  eval_token use x (en, dis, toks) = Ok (en', dis', toks') ->
  Forall settled toks -> Forall settled toks'.
Proof.
  unfold eval_token. destruct (usedep_re_match x) as [m|] eqn:Hm; [|discriminate].
  cbn [of_option bind]. intros Hev Htoks.
  destruct (usedep_match_inv x m Hm) as [c [fl [Hflag [Hc [Hfl Hdef]]]]].
  destruct (settled_plain c fl (g_default m) Hc Hfl Hdef) as [Sp Sm].
  rewrite <- Hflag in Sp, Sm.
  repeat (case_bool_decide; simplify_eq);
    try (apply Forall_app; split; [assumption|]; constructor; [|constructor]);
    try assumption.
  exists m. split; [exact Hm|]. cbv zeta. repeat split; assumption.
Qed.

Lemma eval_keeps_settled (use : gset string) (xs : list string)
      (en dis en' dis' : gset string) (toks toks' : list string) :
  for_each (eval_token use) xs (en, dis, toks) = Ok (en', dis', toks') ->
  Forall settled toks -> Forall settled toks'.
Proof.
  revert en dis toks. induction xs as [|x xs IH]; intros en dis toks Hev Htoks.
  - injection Hev as <- <- <-. exact Htoks.
  - cbn [for_each] in Hev.
    destruct (eval_token use x (en, dis, toks)) as [[[en1 dis1] toks1]|] eqn:E;
      [|discriminate].
    cbn [bind] in Hev. eapply IH; [exact Hev|].
    eapply eval_token_keeps_settled; eassumption.
Qed.

Lemma use_dep_idempotent (self : _use_dep) (use : gset string) :
  (let! once := evaluate_conditionals self use in evaluate_conditionals once use)
  = evaluate_conditionals self use.
Proof.
  unfold evaluate_conditionals at 1 3.
  destruct (for_each (eval_token use) (tokens self) (enabled self, disabled self, []))
    as [[[en dis] toks]|] eqn:E; [|reflexivity].
  cbn [bind fst snd]. unfold evaluate_conditionals.
  cbn [init_shortcut tokens enabled disabled _eapi_attrs_of missing_enabled
       missing_disabled required].
  rewrite (eval_settled use toks en dis []).
  - reflexivity.
  - eapply eval_keeps_settled; [exact E|constructor].
Qed.

Lemma eapi_checks_ok eapi attrs ivf (a a' : Atom.t) :
  Atom.eapi_checks eapi attrs ivf a = Ok a' -> a' = a.
Proof.
  unfold Atom.eapi_checks. destruct eapi; [|intros [= ->]; reflexivity].
  destruct (_ && _); [discriminate|].
  match goal with |- bind ?m _ = _ -> _ => destruct m; [|discriminate] end.
  cbn [bind]. destruct (_ && _); [discriminate|]. intros [= ->]. reflexivity.
Qed.

(** the [use] of a constructed atom is the [_use] it was given, or
    nothing *)
Lemma init_rec_use fuel s uneval aw ar (u : _use_dep) eapi ivf abi (a : Atom.t) :
  Atom.init_rec fuel s uneval aw ar (Some u) eapi ivf abi = Ok a ->
  Atom.use a = Some u \/ Atom.use a = None.
Proof.
  destruct fuel as [|fuel]; [discriminate|].
  cbn [Atom.init_rec].
  destruct (if bool_decide (Py.take 1 s = "!") then _ else _) as [[blk pre] s'].
  match goal with |- bind ?m _ = _ -> _ => destruct m as [r|]; [|discriminate] end.
  cbn [bind].
  destruct (match _pkg_str (Atom.r_cpv r) None with Some _ => _ | None => _ end) as [cpv ver].
  match goal with |- bind ?m _ = _ -> _ => destruct m as [[[sl ss] so]|]; [|discriminate] end.
  cbn [bind].
  destruct (negb _); [discriminate|].
  destruct (Atom.r_use_str r) as [use_str|].
  - cbn [bind].
    match goal with |- bind ?m _ = _ -> _ => destruct m as [[u' w]|] eqn:E; [|discriminate] end.
    cbn [bind]. intros Hc. apply eapi_checks_ok in Hc. subst a. cbn [Atom.use fst].
    left. match type of E with bind ?m _ = _ => destruct m; [|discriminate] end.
    injection E as <- _. reflexivity.
  - match goal with |- bind ?m _ = _ -> _ => destruct m as [[u' w]|] eqn:E; [|discriminate] end.
    cbn [bind]. intros Hc. apply eapi_checks_ok in Hc. subst a. cbn [Atom.use fst].
    right. destruct uneval as [ua|]; [|injection E as <- _; reflexivity].
    destruct (Atom.use ua); [|injection E as <- _; reflexivity].
    match type of E with bind ?m _ = _ => destruct m; [|discriminate] end.
    injection E as <- _. reflexivity.
Qed.

Lemma evaluated_has_no_conditional (self once : _use_dep) (use : gset string) :
  evaluate_conditionals self use = Ok once -> conditional once = None.
Proof.
  unfold evaluate_conditionals.
  destruct (for_each _ _ _); [|discriminate]. cbn [bind]. intros [= <-]. reflexivity.
Qed.

Lemma atom_idempotent (self : Atom.t) (use : gset string) :
  (let! once := Atom.evaluate_conditionals self use in
   Atom.evaluate_conditionals once use)
  = Atom.evaluate_conditionals self use.
Proof.
  unfold Atom.evaluate_conditionals at 1 3.
  destruct (Atom.use self) as [u|] eqn:Hu.
  - destruct (truthy u && bool_decide (conditional u ≠ None)) eqn:Hg.
    + destruct (evaluate_conditionals u use) as [use_dep|] eqn:Hev; [|reflexivity].
      cbn [bind].
      destruct (Atom.init _ _ _ _ _ _ _ _) as [once|] eqn:Hinit; [|reflexivity].
      cbn [bind]. unfold Atom.evaluate_conditionals.
      destruct (init_rec_use _ _ _ _ _ _ _ _ _ _ Hinit) as [-> | ->]; [|reflexivity].
      rewrite (evaluated_has_no_conditional u use_dep use Hev).
      rewrite (bool_decide_eq_false_2 (None ≠ None))
        by (intros Hne; apply Hne; reflexivity).
      rewrite andb_false_r. reflexivity.
    + cbn [bind]. unfold Atom.evaluate_conditionals. rewrite Hu, Hg. reflexivity.
  - cbn [bind]. unfold Atom.evaluate_conditionals. rewrite Hu. reflexivity.
Qed.

(** C6.  Evaluating the USE conditionals twice with the same enabled
    flags gives what evaluating them once gives, for atoms and for USE
    dependency sets alike, exceptions included: the second evaluation
    returns the very atom (or an equal set) the first one built. *)
Theorem evaluate_conditionals_idempotent :
  (forall (a : Atom.t) (use : gset string),
      (let! once := Atom.evaluate_conditionals a use in
       Atom.evaluate_conditionals once use)
      = Atom.evaluate_conditionals a use) /\
  (forall (d : _use_dep) (use : gset string),
      (let! once := evaluate_conditionals d use in
       evaluate_conditionals once use)
      = evaluate_conditionals d use).
Proof. split; [exact atom_idempotent | exact use_dep_idempotent]. Qed.

End UseProperties.

Example evaluate_conditionals_twice :
  let a := Fixture.atom "cat/pkg:2[foo?,!bar?,baz(+)=,qux]" in
  (let! once := @Atom.evaluate_conditionals Fixture.portage a {["foo"]} in
   Ok (Atom.text once))
  = Ok "cat/pkg:2[foo,-bar,-baz(+),qux]" /\
  (let! once := @Atom.evaluate_conditionals Fixture.portage a {["foo"]} in
   let! twice := @Atom.evaluate_conditionals Fixture.portage once {["foo"]} in
   Ok (Atom.text twice))
  = Ok "cat/pkg:2[foo,-bar,-baz(+),qux]".
Proof. split; vm_compute; reflexivity. Qed.

(** ** Python strings *)

Section StringFacts.

  Import Match.


Lemma drop_get (n : nat) (s : string) :
    match String.get n s with
    | Some c => exists r, Py.drop n s = String c r
    | None => Py.drop n s = EmptyString
    end.
  Proof.
    revert s. induction n as [|n IH]; intros [|c s]; cbn; eauto.
    apply IH.
  Qed.

Lemma next_char_get (n : nat) (s : string) :
    Py.slice n (n + 1) s
    = match String.get n s with
      | Some c => String c EmptyString
      | None => EmptyString
      end.
  Proof.
    unfold Py.slice. replace (n + 1 - n)%nat with 1%nat by lia.
    pose proof (drop_get n s) as Hd. destruct (String.get n s) as [c|].
    - destruct Hd as [r ->]. reflexivity.
    - rewrite Hd. reflexivity.
  Qed.

Lemma contains_separator (c : ascii) :
    Py.contains "._-" (String c EmptyString)
    = (Ascii.eqb c "." || Ascii.eqb c "_" || Ascii.eqb c "-").
  Proof. destruct c as [[] [] [] [] [] [] [] []]; reflexivity. Qed.

Lemma isdigit_one (c : ascii) : Py.isdigit (String c EmptyString) = Py.isdigit_char c.
  Proof. cbn. apply andb_true_r. Qed.

Lemma last_char_nonempty (a : string) : a <> EmptyString -> exists l, Py.last_char a = Some l.
  Proof.
    induction a as [|c a IH]; [congruence|]. intros _.
    destruct a as [|c' a]; [eexists; reflexivity|].
    destruct IH as [l Hl]; [discriminate|]. exists l. exact Hl.
  Qed.

Lemma prefix_app (p s : string) : String.prefix p (p +:+ s) = true.
  Proof.
    induction p as [|c p IH]; [destruct s; reflexivity|].
    change (String.prefix (String c p) (String c (p +:+ s)) = true).
    cbn [String.prefix]. destruct (ascii_dec c c); [exact IH | contradiction].
  Qed.

Lemma index_prefix (p s : string) : String.index 0 p (p +:+ s) = Some 0%nat.
  Proof.
    destruct (p +:+ s) eqn:E.
    - destruct p; [reflexivity | discriminate].
    - cbn [String.index]. rewrite <- E, prefix_app. reflexivity.
  Qed.

Lemma drop_app (p s : string) : Py.drop (String.length p) (p +:+ s) = s.
  Proof. induction p as [|c p IH]; [destruct s; reflexivity | exact IH]. Qed.

Lemma replace1_prefix (p s new : string) : Py.replace1 (p +:+ s) p new = new +:+ s.
  Proof.
    unfold Py.replace1, Py.find. rewrite index_prefix. cbn [Py.take plus].
    rewrite drop_app. reflexivity.
  Qed.

Lemma lstrip0_zeros (k : nat) (rest : string) :
    Py.startswith rest "0" = false -> Py.lstrip0 (zeros k +:+ rest) = rest.
  Proof.
    intros Hr. induction k as [|k IH]; [|exact IH].
    cbn. destruct rest as [|c rest]; [reflexivity|].
    unfold Py.startswith in Hr. cbn in Hr.
    destruct (ascii_dec "0" c) as [<-|Hne].
    - destruct rest; discriminate.
    - cbn. destruct c as [[] [] [] [] [] [] [] []]; try reflexivity. contradiction.
  Qed.

Lemma app_assoc_s (a b c : string) : (a +:+ b) +:+ c = a +:+ b +:+ c.
  Proof.
    induction a as [|x a IH]; [reflexivity|].
    change (String x ((a +:+ b) +:+ c) = String x (a +:+ b +:+ c)).
    f_equal. exact IH.
  Qed.

End StringFacts.

(** ** The match engine *)

Section MatchProperties.

  Import Match.

  Context `{Portage}.

Lemma select_app (keep : candidate -> result bool) (l acc : list candidate)
        (p : candidate -> bool) :
    (forall x, x ∈ l -> keep x = Ok (p x)) ->
    for_each (fun x (mylist : list candidate) =>
                let! k := keep x in
                Ok (if k then mylist ++ [x] else mylist)) l acc
    = Ok (acc ++ List.filter p l).
  Proof.
    revert acc. induction l as [|x l IH]; intros acc Hk.
    - cbn. rewrite app_nil_r. reflexivity.
    - cbn [for_each]. rewrite (Hk x) by (left). cbn [bind List.filter].
      destruct (p x).
      + rewrite IH by (intros y Hy; apply Hk; right; exact Hy).
        rewrite <- app_assoc. reflexivity.
      + apply IH. intros y Hy. apply Hk. right. exact Hy.
  Qed.

  (** a test that never raises turns [select] into a plain filter *)
Lemma select_pure (keep : candidate -> result bool) (p : candidate -> bool)
        (l : list candidate) :
    (forall x, x ∈ l -> keep x = Ok (p x)) ->
    select keep l = Ok (List.filter p l).
  Proof. intros Hk. unfold select. rewrite (select_app keep l [] p Hk). reflexivity. Qed.

  (** C10.  On an empty candidate list [match_from_list] returns the
      empty list whatever its first argument is, an [Atom] or any string:
      the test comes before the blocker prefix is stripped and before the
      string is parsed. *)
Theorem match_from_list_no_candidates (mydep : dep_arg) :
    match_from_list mydep [] = Ok [].
  Proof. reflexivity. Qed.

Lemma glob_boundary_spec (a x : string) :
    a <> EmptyString ->
    exists b, glob_boundary a x = Ok b /\ (b = true <-> on_component_boundary a x).
  Proof.
    intros Ha. unfold glob_boundary, on_component_boundary.
    rewrite next_char_get.
    destruct (String.get (String.length a) x) as [c|]; cbn [Py.truthy negb].
    - rewrite contains_separator.
      destruct (Ascii.eqb_spec c ".") as [->|Hdot].
      { eexists. split; [reflexivity|]. split; auto. }
      destruct (Ascii.eqb_spec c "_") as [->|Hus].
      { eexists. split; [reflexivity|]. split; auto. }
      destruct (Ascii.eqb_spec c "-") as [->|Hmi].
      { eexists. split; [reflexivity|]. split; auto. }
      cbn [orb]. destruct (last_char_nonempty a Ha) as [l Hl]. rewrite Hl.
      rewrite isdigit_one. eexists. split; [reflexivity|].
      split.
      + intros Hb. right. right. right. exists l. split; [reflexivity|].
        intros Heq. rewrite Heq in Hb. rewrite Bool.eqb_reflx in Hb. discriminate.
      + intros [Hc | [Hc | [Hc | [l' [Hl' Hne]]]]]; try contradiction.
        injection Hl' as <-.
        destruct (Py.isdigit_char l), (Py.isdigit_char c); try reflexivity; contradiction.
    - eexists. split; [reflexivity|]. split; auto.
  Qed.

Lemma glob_normalize_zeros (cp rest suffix : string) (k : nat) :
    Py.startswith rest "0" = false ->
    glob_normalize (cp +:+ "-" +:+ (zeros k +:+ rest) +:+ suffix) cp (zeros k +:+ rest)
    = cp +:+ "-" +:+ without_leading_zeros rest +:+ suffix.
  Proof.
    intros Hr. unfold glob_normalize. rewrite (lstrip0_zeros k rest Hr).
    assert (Hmy : (if negb (Py.truthy rest) || negb (Py.isdigit (Py.take 1 rest))
                   then "0" +:+ rest else rest) = without_leading_zeros rest).
    { unfold without_leading_zeros. destruct rest as [|c rest]; [reflexivity|].
      cbn [Py.truthy negb orb]. destruct (Py.isdigit (Py.take 1 (String c rest))); reflexivity. }
    rewrite Hmy.
    destruct (bool_decide (without_leading_zeros rest = zeros k +:+ rest)) eqn:E.
    - apply bool_decide_eq_true in E. rewrite E. reflexivity.
    - rewrite <- (app_assoc_s "-" (zeros k +:+ rest) suffix).
      rewrite <- (app_assoc_s cp ("-" +:+ zeros k +:+ rest) suffix).
      rewrite replace1_prefix.
      rewrite (app_assoc_s cp ("-" +:+ without_leading_zeros rest) suffix).
      rewrite (app_assoc_s "-" (without_leading_zeros rest) suffix). reflexivity.
  Qed.

Lemma keep_glob_total (a : string) (x : candidate) :
    a <> EmptyString ->
    exists b,
      keep_glob a x = Ok b /\
      (b = true <->
       exists pkg, cand_pkg x = Some pkg /\
         let xcpv := glob_normalize (p_cpv pkg) (p_cp pkg)
                       (split_ver (p_cpv_split pkg)) in
         Py.startswith xcpv a = true /\ on_component_boundary a xcpv).
  Proof.
    intros Ha. unfold keep_glob. destruct (cand_pkg x) as [pkg|].
    - destruct (Py.startswith _ a) eqn:Hs.
      + destruct (glob_boundary_spec a
                    (glob_normalize (p_cpv pkg) (p_cp pkg)
                       (split_ver (p_cpv_split pkg))) Ha) as [b [Hb Hiff]].
        exists b. split; [exact Hb|]. split.
        * intros Ht. exists pkg. split; [reflexivity|]. cbv zeta.
          split; [exact Hs | apply Hiff; exact Ht].
        * intros [pkg' [Hp [_ Hbd]]]. injection Hp as <-.
          apply Hiff. exact Hbd.
      + exists false. split; [reflexivity|]. split; [discriminate|].
        intros [pkg' [Hp [Hs' _]]]. injection Hp as <-. congruence.
    - exists false. split; [reflexivity|]. split; [discriminate|].
      intros [pkg' [Hp _]]. discriminate.
  Qed.

Lemma select_total (keep : candidate -> result bool) (l : list candidate) :
    (forall x, exists b, keep x = Ok b) ->
    exists kept,
      select keep l = Ok kept /\
      forall x, x ∈ kept <-> x ∈ l /\ keep x = Ok true.
  Proof.
    intros Hk.
    pose (p := fun x => match keep x with Ok b => b | Raise _ => false end).
    assert (Hp : forall x, keep x = Ok (p x)).
    { intros x. unfold p. destruct (Hk x) as [b ->]. reflexivity. }
    exists (List.filter p l). split.
    - apply select_pure. intros x _. apply Hp.
    - intros x. rewrite !list_elem_of_In, filter_In. rewrite (Hp x).
      split; intros [Hin Hx]; (split; [exact Hin|]); congruence.
  Qed.

  (** C1.  For the [=*] operator the candidates are tested by
      [keep_glob] against the atom's normalised text; normalising strips
      the leading zeros of the version, keeping one digit and whatever
      follows the version; and a candidate is accepted iff it has a cpv
      whose normalised text starts with the atom's and the character after
      that prefix is absent, or one of [.], [_], [-], or differs in
      digit-ness from the last matched character.  With the stand-in
      grammar, [=cat/pkg-1*] keeps [cat/pkg-1.2] and drops [cat/pkg-10]. *)
Theorem glob_match_on_boundaries
      (mydep : Atom.t) (cps : cpv_split_t) (ver : option string)
      (candidate_list : list candidate)
      (cp rest suffix : string) (k : nat)
      (Hplain : Atom.extended_syntax mydep = false)
      (Hne : glob_normalize (cpv_text (Atom.cpv mydep)) (Atom.cp mydep)
               (split_ver cps) <> EmptyString)
      (Hrest : Py.startswith rest "0" = false) :
    let mycpv_cmp :=
      glob_normalize (cpv_text (Atom.cpv mydep)) (Atom.cp mydep) (split_ver cps) in
    by_operator mydep (Some cps) ver (Some "=*") candidate_list
    = select (keep_glob mycpv_cmp) candidate_list /\
    glob_normalize (cp +:+ "-" +:+ (zeros k +:+ rest) +:+ suffix) cp
      (zeros k +:+ rest)
    = cp +:+ "-" +:+ without_leading_zeros rest +:+ suffix /\
    (exists mylist,
        select (keep_glob mycpv_cmp) candidate_list = Ok mylist /\
        forall x, x ∈ mylist <->
          x ∈ candidate_list /\
          exists pkg, cand_pkg x = Some pkg /\
            let xcpv := glob_normalize (p_cpv pkg) (p_cp pkg)
                          (split_ver (p_cpv_split pkg)) in
            Py.startswith xcpv mycpv_cmp = true
            /\ on_component_boundary mycpv_cmp xcpv) /\
    @match_from_list Fixture.portage (DStr "=cat/pkg-1*")
      [CStr "cat/pkg-10"; CStr "cat/pkg-1.2"]
    = Ok [CStr "cat/pkg-1.2"].
  Proof.
    intros mycpv_cmp. split; [|split; [|split]].
    - unfold by_operator. rewrite Hplain. reflexivity.
    - apply glob_normalize_zeros. exact Hrest.
    - destruct (select_total (keep_glob mycpv_cmp) candidate_list)
        as [kept [Hsel Hmem]].
      { intros x. destruct (keep_glob_total mycpv_cmp x Hne) as [b [Hb _]].
        exists b. exact Hb. }
      exists kept. split; [exact Hsel|]. intros x. rewrite Hmem.
      destruct (keep_glob_total mycpv_cmp x Hne) as [b [Hb Hiff]].
      rewrite Hb. split; intros [Hin Hx]; (split; [exact Hin|]).
      + apply Hiff. congruence.
      + f_equal. apply Hiff. exact Hx.
    - vm_compute. reflexivity.
  Qed.


Lemma select_ok_all (keep : candidate -> result bool) (l acc res : list candidate) :
    for_each (fun x (mylist : list candidate) =>
                let! k := keep x in
                Ok (if k then mylist ++ [x] else mylist)) l acc = Ok res ->
    forall x, x ∈ l -> exists b, keep x = Ok b.
  Proof.
    revert acc. induction l as [|y l IH]; intros acc Hres x Hx.
    - inversion Hx.
    - cbn [for_each] in Hres. destruct (keep y) as [b|e] eqn:Hy; [|discriminate].
      cbn [bind] in Hres. apply elem_of_cons in Hx as [->|Hx].
      + exists b. exact Hy.
      + eapply IH; eauto.
  Qed.

Lemma select_inv (keep : candidate -> result bool) (l res : list candidate) :
    select keep l = Ok res ->
    (forall x, x ∈ l -> exists b, keep x = Ok b) /\
    (forall x, x ∈ res <-> x ∈ l /\ keep x = Ok true).
  Proof.
    intros Hres.
    assert (Hall : forall x, x ∈ l -> exists b, keep x = Ok b)
      by (eapply select_ok_all; exact Hres).
    split; [exact Hall|].
    pose (p := fun x => match keep x with Ok b => b | Raise _ => false end).
    assert (Hp : forall x, x ∈ l -> keep x = Ok (p x)).
    { intros x Hx. unfold p. destruct (Hall x Hx) as [b ->]. reflexivity. }
    rewrite (select_pure keep p l Hp) in Hres. injection Hres as <-.
    intros x. rewrite !list_elem_of_In, filter_In, <- list_elem_of_In.
    split; intros [Hin Hx]; (split; [exact Hin|]).
    - rewrite (Hp x Hin). congruence.
    - rewrite (Hp x Hin) in Hx. congruence.
  Qed.

Lemma select_exists (keep : candidate -> result bool) (l : list candidate) :
    (forall x, x ∈ l -> exists b, keep x = Ok b) ->
    exists res, select keep l = Ok res.
  Proof.
    intros Hall.
    pose (p := fun x => match keep x with Ok b => b | Raise _ => false end).
    exists (List.filter p l). apply select_pure.
    intros x Hx. unfold p. destruct (Hall x Hx) as [b ->]. reflexivity.
  Qed.

  (** inclusion of the selections of two tests *)
Lemma select_incl (keep1 keep2 : candidate -> result bool)
        (l l1 l2 : list candidate) :
    (forall x, x ∈ l -> keep1 x = Ok true -> keep2 x = Ok true) ->
    select keep1 l = Ok l1 -> select keep2 l = Ok l2 -> l1 ⊆ l2.
  Proof.
    intros Himp H1 H2 x Hx.
    apply (select_inv keep1 l l1 H1) in Hx as [Hin Hk].
    apply (select_inv keep2 l l2 H2). split; [exact Hin|]. apply Himp; assumption.
  Qed.

Lemma length_app (a b : string) :
    String.length (a +:+ b) = (String.length a + String.length b)%nat.
  Proof.
    induction a as [|c a IH]; [reflexivity|].
    change (S (String.length (a +:+ b)) = S (String.length a + String.length b)).
    f_equal. exact IH.
  Qed.

Lemma app_neq (op s : string) : op <> EmptyString -> op +:+ s <> s.
  Proof.
    intros Hop Heq. apply (f_equal String.length) in Heq.
    rewrite length_app in Heq. destruct op; [congruence|]. cbn in Heq. lia.
  Qed.

Lemma keep_gt_ge (a a' : Atom.t) (x : candidate) :
    Atom.cp a = Atom.cp a' -> Atom.version a = Atom.version a' ->
    keep_relational a ">" x = Ok true -> keep_relational a' ">=" x = Ok true.
  Proof.
    intros Hcp Hv. unfold keep_relational. rewrite <- Hcp, <- Hv.
    destruct (cand_pkg x) as [pkg|]; [|discriminate].
    destruct (bool_decide (p_cp pkg ≠ Atom.cp a)); [discriminate|].
    destruct (Atom.version a) as [v|]; [|discriminate]. cbn [of_option bind].
    destruct (vercmp (p_version pkg) v) as [[r|]|]; cbn [bind]; try discriminate.
    rewrite (bool_decide_eq_true_2 (">" = ">")) by reflexivity.
    rewrite (bool_decide_eq_false_2 (">=" = ">")) by discriminate.
    rewrite (bool_decide_eq_true_2 (">=" = ">=")) by reflexivity.
    intros Hr. injection Hr as Hr. apply bool_decide_eq_true in Hr.
    rewrite bool_decide_eq_true_2 by lia. reflexivity.
  Qed.

Lemma keep_gt_total (a a' : Atom.t) (x : candidate) b :
    Atom.cp a = Atom.cp a' -> Atom.version a = Atom.version a' ->
    keep_relational a' ">=" x = Ok b -> exists b', keep_relational a ">" x = Ok b'.
  Proof.
    intros Hcp Hv. unfold keep_relational. rewrite <- Hcp, <- Hv.
    destruct (cand_pkg x) as [pkg|]; [|eauto].
    destruct (bool_decide (p_cp pkg ≠ Atom.cp a)); [eauto|].
    destruct (Atom.version a) as [v|]; [|discriminate]. cbn [of_option bind].
    destruct (vercmp (p_version pkg) v) as [[r|]|]; cbn [bind]; try discriminate; eauto.
  Qed.

Lemma keep_eq_ge (cp : string) (p : pkg) (x : candidate) :
    cp = split_cp (p_cpv_split p) ->
    (forall q, cand_pkg x = Some q -> p_cp q = split_cp (p_cpv_split q)) ->
    keep_exact (versioned_atom "=" cp p) x = Ok true ->
    keep_relational (versioned_atom ">=" cp p) ">=" x = Ok true.
  Proof.
    intros Hcp Hwf. unfold keep_exact, keep_relational, cpvequal.
    cbn [versioned_atom Atom.cpv Atom.cp Atom.version Atom.build_id of_option bind].
    destruct x as [s|px]; cbn [cand_pkg] in *.
    - destruct (_pkg_str (remove_slot s) None) as [px|] eqn:Hps; [|discriminate].
      cbn [of_option bind]. specialize (Hwf px eq_refl).
      destruct (p_cpv_split px) as [[[c1 n1] v1] r1] eqn:E1.
      destruct (p_cpv_split p) as [[[c2 n2] v2] r2] eqn:E2.
      destruct (bool_decide (c1 ≠ c2) || bool_decide (n1 ≠ n2)) eqn:Hne; [discriminate|].
      apply orb_false_elim in Hne as [Hc Hn].
      apply bool_decide_eq_false in Hc. apply bool_decide_eq_false in Hn.
      apply dec_stable in Hc. apply dec_stable in Hn. subst c2 n2.
      destruct (vercmp (p_version px) (p_version p)) as [r|] eqn:Hv; [|discriminate].
      cbn [bind]. destruct (bool_decide (r = Some 0)) eqn:Hr; [|discriminate].
      apply bool_decide_eq_true in Hr. subst r. intros _.
      rewrite bool_decide_eq_false_2; [|intros Hx; apply Hx; rewrite Hwf, Hcp; reflexivity].
      cbn [bind]. rewrite (bool_decide_eq_false_2 (">=" = ">")) by discriminate.
      rewrite (bool_decide_eq_true_2 (">=" = ">=")) by reflexivity. reflexivity.
    - cbn [of_option bind]. specialize (Hwf px eq_refl).
      destruct (p_cpv_split px) as [[[c1 n1] v1] r1] eqn:E1.
      destruct (p_cpv_split p) as [[[c2 n2] v2] r2] eqn:E2.
      destruct (bool_decide (c1 ≠ c2) || bool_decide (n1 ≠ n2)) eqn:Hne; [discriminate|].
      apply orb_false_elim in Hne as [Hc Hn].
      apply bool_decide_eq_false in Hc. apply bool_decide_eq_false in Hn.
      apply dec_stable in Hc. apply dec_stable in Hn. subst c2 n2.
      destruct (vercmp (p_version px) (p_version p)) as [r|] eqn:Hv; [|discriminate].
      cbn [bind]. destruct (bool_decide (r = Some 0)) eqn:Hr; [|discriminate].
      apply bool_decide_eq_true in Hr. subst r. intros _.
      rewrite bool_decide_eq_false_2; [|intros Hx; apply Hx; rewrite Hwf, Hcp; reflexivity].
      cbn [bind]. rewrite (bool_decide_eq_false_2 (">=" = ">")) by discriminate.
      rewrite (bool_decide_eq_true_2 (">=" = ">=")) by reflexivity. reflexivity.
  Qed.

Lemma truthy_some (v : string) :
    bool_decide (Py.truthy <$> Some v = Some true) = Py.truthy v.
  Proof.
    change (Py.truthy <$> Some v) with (Some (Py.truthy v)).
    destruct (Py.truthy v); [apply bool_decide_eq_true_2; reflexivity|].
    apply bool_decide_eq_false_2. discriminate.
  Qed.

Lemma bind_ok {A} (m : result A) : (let! x := m in Ok x) = m.
  Proof. destruct m; reflexivity. Qed.

Lemma match_versioned (op cp : string) (p : pkg) (x : candidate)
        (cl : list candidate) :
    op ∈ [">="; ">"; "="] ->
    match_from_list (DAtom (versioned_atom op cp p)) (x :: cl)
    = versioned_match op cp p (x :: cl).
  Proof.
    intros Hop.
    assert (Hbang : bool_decide (Py.take 1 (op +:+ p_cpv p) = "!") = false).
    { repeat (apply elem_of_cons in Hop as [->|Hop]); try reflexivity. inversion Hop. }
    assert (Hne : bool_decide (op +:+ p_cpv p = p_cpv p) = false).
    { apply bool_decide_eq_false_2, app_neq.
      repeat (apply elem_of_cons in Hop as [->|Hop]); try discriminate. inversion Hop. }
    unfold match_from_list, versioned_match.
    cbn [dep_text versioned_atom Atom.text Atom.cpv Atom.operator cpv_text].
    rewrite Hbang. cbn [bind].
    cbn [dep_text versioned_atom Atom.text Atom.cpv Atom.operator cpv_text].
    destruct (catpkgsplit (CpvPkg p)) as [[[[cat pkg] ver] rev]|] eqn:Hsplit.
    - rewrite Hne. cbn [bind].
      assert (Hop_truthy : Py.truthy op = true).
      { repeat (apply elem_of_cons in Hop as [->|Hop]); try reflexivity. inversion Hop. }
      rewrite !truthy_some, Hop_truthy. cbn [negb]. rewrite andb_false_r.
      destruct (Py.truthy ver && Py.truthy rev);
        (match goal with |- bind ?m _ = _ => destruct m; reflexivity end).
    - cbn [bind fmap option_fmap option_map]. 
      rewrite (bool_decide_eq_false_2 (None = Some true)) by discriminate.
      cbn [andb].
      match goal with |- bind ?m _ = _ => destruct m; reflexivity end.
  Qed.

Lemma init_rec_versioned (n : nat) (op cp : string) (p : pkg) (wu : string) :
  op ∈ [">="; ">"; "="] ->
  atom_re_match (op +:+ p_cpv p)
  = Some {| m_without_use := wu; m_alt := AltOp op (p_cpv p) cp None;
            m_slot := None; m_repo := None; m_use := None |} ->
  _pkg_str (p_cpv p) None = Some p ->
  Atom.init_rec (S n) (op +:+ p_cpv p) None true (Some true) None None None None
  = Ok (versioned_atom op cp p).
Proof.
  intros Hop Hre Hpkg.
  assert (Hbang : bool_decide (Py.take 1 (op +:+ p_cpv p) = "!") = false).
  { repeat (apply elem_of_cons in Hop as [->|Hop]); try reflexivity. inversion Hop. }
  cbn [Atom.init_rec]. rewrite Hbang, Hre.
  cbn [Atom.parse_plain Atom.parse_op m_alt m_slot m_repo m_use m_without_use bind
       Atom.r_cpv Atom.r_extended_version Atom.r_slot Atom.r_repo Atom.r_use_str
       Atom.r_cp Atom.r_op Atom.r_extended_syntax Atom.r_build_id].
  rewrite Hpkg. reflexivity.
Qed.

(** [versioned_atom] is what the constructor returns for the text
    [op cp-v] when the grammar reads it as operator and cpv *)
Lemma of_string_versioned (op cp : string) (p : pkg) (wu : string) :
  op ∈ [">="; ">"; "="] ->
  atom_re_match (op +:+ p_cpv p)
  = Some {| m_without_use := wu; m_alt := AltOp op (p_cpv p) cp None;
            m_slot := None; m_repo := None; m_use := None |} ->
  _pkg_str (p_cpv p) None = Some p ->
  Atom.of_string (op +:+ p_cpv p) = Ok (versioned_atom op cp p).
Proof. apply (init_rec_versioned 999). Qed.

Lemma by_operator_relational (a : Atom.t) cps ver (op : string) cl :
    Atom.extended_syntax a = false ->
    op ∈ [">"; ">="; "<"; "<="] ->
    by_operator a cps ver (Some op) cl = select (keep_relational a op) cl.
  Proof.
    intros Hext Hop. unfold by_operator. rewrite Hext.
    repeat (apply elem_of_cons in Hop as [->|Hop]); try reflexivity.
    inversion Hop.
  Qed.

Lemma by_operator_exact (a : Atom.t) cps ver cl :
    Atom.extended_syntax a = false ->
    by_operator a cps ver (Some "=") cl = select (keep_exact a) cl.
  Proof. intros Hext. unfold by_operator. rewrite Hext. reflexivity. Qed.

  (** C3.  For the atoms [>=cp-v], [>cp-v] and [=cp-v] (no blocker,
      slot, repository or USE part) and one candidate list: whenever the
      [>=] match returns, the [>] match returns too and every candidate
      it returns is among those of [>=]; and every candidate that the [=]
      match returns is among those of [>=]. *)
Theorem ge_contains_gt_and_eq (cp : string) (p : pkg)
      (cl l_ge : list candidate)
      (Hcp : cp = split_cp (p_cpv_split p))
      (Hwf : forallb cp_consistent cl = true)
      (Hge : match_from_list (DAtom (versioned_atom ">=" cp p)) cl = Ok l_ge) :
    (exists l_gt,
        match_from_list (DAtom (versioned_atom ">" cp p)) cl = Ok l_gt
        /\ l_gt ⊆ l_ge) /\
    (forall l_eq,
        match_from_list (DAtom (versioned_atom "=" cp p)) cl = Ok l_eq ->
        l_eq ⊆ l_ge).
  Proof.
    destruct cl as [|x0 cl].
    { injection Hge as <-. split.
      - exists []. split; [reflexivity|]. intros x Hx. exact Hx.
      - intros l_eq Heq. injection Heq as <-. intros x Hx. exact Hx. }
    rewrite match_versioned in Hge by (left).
    unfold versioned_match in Hge. split.
    - rewrite match_versioned by (right; left).
      unfold versioned_match.
      destruct (catpkgsplit (CpvPkg p)) as [[[[cat pkg] ver] rev]|];
        [destruct (Py.truthy ver && Py.truthy rev)|];
        try (exists l_ge; split; [exact Hge | intros x Hx; exact Hx]).
      rewrite by_operator_relational in Hge by (reflexivity || (right; left)).
      rewrite by_operator_relational by (reflexivity || left).
      destruct (select_inv _ _ _ Hge) as [Hall _].
      destruct (select_exists (keep_relational (versioned_atom ">" cp p) ">")
                  (x0 :: cl)) as [l_gt Hgt].
      { intros x Hx. destruct (Hall x Hx) as [b Hb].
        eapply keep_gt_total; [| |exact Hb]; reflexivity. }
      exists l_gt. split; [exact Hgt|].
      eapply select_incl; [|exact Hgt|exact Hge].
      intros x _ Hk. eapply keep_gt_ge; [| |exact Hk]; reflexivity.
    - intros l_eq Heq.
      rewrite match_versioned in Heq by (right; right; left).
      unfold versioned_match in Heq.
      destruct (catpkgsplit (CpvPkg p)) as [[[[cat pkg] ver] rev]|];
        [destruct (Py.truthy ver && Py.truthy rev)|];
        try (assert (Ok l_eq = Ok l_ge) as Hsame
               by (rewrite <- Heq, <- Hge; reflexivity);
             injection Hsame as ->; intros x Hx; exact Hx).
      rewrite by_operator_relational in Hge by (reflexivity || (right; left)).
      rewrite by_operator_exact in Heq by reflexivity.
      eapply select_incl; [|exact Heq|exact Hge].
      intros x Hx Hk. apply keep_eq_ge; [exact Hcp| |exact Hk].
      intros q Hq. rewrite forallb_forall in Hwf.
      specialize (Hwf x (proj1 (list_elem_of_In _ _) Hx)).
      unfold cp_consistent in Hwf. rewrite Hq in Hwf.
      apply bool_decide_eq_true in Hwf. exact Hwf.
  Qed.

Lemma ordered_by_lt (key : string -> Z) (vs : list string) (pa pb : pkg) (ta tb : who) :
    ordered_by key vs = true ->
    p_version pa ∈ vs -> p_version pb ∈ vs ->
    key_lt (ta, CpvPkg pa) (tb, CpvPkg pb)
    = Ok (bool_decide (key (p_version pa) < key (p_version pb))).
  Proof.
    intros Hord Ha Hb. unfold ordered_by in Hord.
    rewrite forallb_forall in Hord.
    specialize (Hord _ (proj1 (list_elem_of_In _ _) Ha)).
    rewrite forallb_forall in Hord.
    specialize (Hord _ (proj1 (list_elem_of_In _ _) Hb)).
    unfold compares_by in Hord. unfold key_lt, cmp_cpv. cbn [snd cpv_version bind].
    destruct (vercmp (p_version pa) (p_version pb)) as [[r|]|]; try discriminate.
    cbn [bind]. apply andb_prop in Hord as [H1 _].
    apply Bool.eqb_prop in H1. rewrite H1. reflexivity.
  Qed.

Lemma closer_value (key : string -> Z) (bestm x : Atom.t)
      (pb pm pc : pkg)
      (Hb : Atom.cpv bestm = CpvPkg pb) (Hc : Atom.cpv x = CpvPkg pc)
      (Hord : ordered_by key [p_version pb; p_version pm; p_version pc] = true) :
    let vb := key (p_version pb) in
    let vm := key (p_version pm) in
    let vc := key (p_version pc) in
    closer bestm x (CpvPkg pm)
    = Ok (if bool_decide (p_cpv pb = p_cpv pm)
             || bool_decide (p_cpv pb = p_cpv pc) then false
          else if bool_decide (p_cpv pc = p_cpv pm) then true
          else bool_decide ((vm <= vc < vb) \/ (vb <= vc < vm))).
  Proof.
    intros vb vm vc. unfold closer. rewrite Hb, Hc. cbn [cpv_text].
    assert (Lmb := ordered_by_lt key _ pm pb Mine Best Hord
                     ltac:(right; by left) ltac:(by left)).
    assert (Lcb := ordered_by_lt key _ pc pb Challenger Best Hord
                     ltac:(right; right; by left) ltac:(by left)).
    assert (Lcm := ordered_by_lt key _ pc pm Challenger Mine Hord
                     ltac:(right; right; by left) ltac:(right; by left)).
    fold vb vm vc in Lmb, Lcb, Lcm.
    destruct (bool_decide (p_cpv pb = p_cpv pm) || bool_decide (p_cpv pb = p_cpv pc));
      [reflexivity|].
    destruct (bool_decide (p_cpv pc = p_cpv pm)); [reflexivity|].
    unfold sort. cbn [for_each insert_sorted bind].
    rewrite Lmb. cbn [bind].
    destruct (bool_decide (vm < vb)) eqn:Emb; cbn [insert_sorted bind].
    - rewrite Lcm. cbn [bind]. apply bool_decide_eq_true in Emb.
      destruct (bool_decide (vc < vm)) eqn:Ecm'; cbn [bind insert_sorted].
      + apply bool_decide_eq_true in Ecm'.
        rewrite (bool_decide_eq_false_2 ((vm <= vc < vb) \/ (vb <= vc < vm)))
          by lia.
        vm_compute. reflexivity.
      + rewrite Lcb. cbn [bind]. apply bool_decide_eq_false in Ecm'.
        destruct (bool_decide (vc < vb)) eqn:Ecb; cbn [bind].
        * apply bool_decide_eq_true in Ecb.
          rewrite (bool_decide_eq_true_2 ((vm <= vc < vb) \/ (vb <= vc < vm)))
            by lia.
          vm_compute. reflexivity.
        * apply bool_decide_eq_false in Ecb.
          rewrite (bool_decide_eq_false_2 ((vm <= vc < vb) \/ (vb <= vc < vm)))
            by lia.
          vm_compute. reflexivity.
    - rewrite Lcb. cbn [bind]. apply bool_decide_eq_false in Emb.
      destruct (bool_decide (vc < vb)) eqn:Ecb; cbn [bind insert_sorted].
      + apply bool_decide_eq_true in Ecb.
        rewrite (bool_decide_eq_false_2 ((vm <= vc < vb) \/ (vb <= vc < vm)))
          by lia.
        vm_compute. reflexivity.
      + rewrite Lcm. cbn [bind]. apply bool_decide_eq_false in Ecb.
        destruct (bool_decide (vc < vm)) eqn:Ecm'; cbn [bind].
        * apply bool_decide_eq_true in Ecm'.
          rewrite (bool_decide_eq_true_2 ((vm <= vc < vb) \/ (vb <= vc < vm)))
            by lia.
          vm_compute. reflexivity.
        * apply bool_decide_eq_false in Ecm'.
          rewrite (bool_decide_eq_false_2 ((vm <= vc < vb) \/ (vb <= vc < vm)))
            by lia.
          vm_compute. reflexivity.
  Qed.

Lemma same_text_same_version (pb pm pc : pkg) (a b : pkg) :
    version_of_text [pb; pm; pc] = true ->
    a ∈ [pb; pm; pc] -> b ∈ [pb; pm; pc] ->
    p_cpv a = p_cpv b -> p_version a = p_version b.
  Proof.
    intros Htext Ha Hb E. unfold version_of_text in Htext.
    rewrite forallb_forall in Htext.
    specialize (Htext _ (proj1 (list_elem_of_In _ _) Ha)).
    rewrite forallb_forall in Htext.
    specialize (Htext _ (proj1 (list_elem_of_In _ _) Hb)).
    rewrite (bool_decide_eq_true_2 _ E) in Htext. cbn [implb] in Htext.
    by apply bool_decide_eq_true in Htext.
  Qed.

Lemma closer_spec (key : string -> Z) (bestm x : Atom.t)
      (pb pm pc : pkg)
      (Hb : Atom.cpv bestm = CpvPkg pb) (Hc : Atom.cpv x = CpvPkg pc)
      (Hord : ordered_by key [p_version pb; p_version pm; p_version pc] = true)
      (Htext : version_of_text [pb; pm; pc] = true) :
    let vb := key (p_version pb) in
    let vm := key (p_version pm) in
    let vc := key (p_version pc) in
    (exists replace, closer bestm x (CpvPkg pm) = Ok replace /\
       (replace = true -> (vm <= vc <= vb) \/ (vb <= vc <= vm)) /\
       ((vb < vm < vc) \/ (vc < vm < vb) -> replace = false) /\
       ((vm < vc < vb) \/ (vb < vc < vm) -> replace = true)).
  Proof.
    intros vb vm vc.
    pose proof (closer_value key bestm x pb pm pc Hb Hc Hord) as Hv.
    cbv zeta in Hv. fold vb vm vc in Hv.
    assert (Hbm : p_cpv pb = p_cpv pm -> vb = vm).
    { intros E. unfold vb, vm. f_equal.
      apply (same_text_same_version pb pm pc); [done| |  |done].
      - by left.
      - right; by left. }
    assert (Hbc : p_cpv pb = p_cpv pc -> vb = vc).
    { intros E. unfold vb, vc. f_equal.
      apply (same_text_same_version pb pm pc); [done| |  |done].
      - by left.
      - right; right; by left. }
    assert (Hcm : p_cpv pc = p_cpv pm -> vc = vm).
    { intros E. unfold vc, vm. f_equal.
      apply (same_text_same_version pb pm pc); [done| |  |done].
      - right; right; by left.
      - right; by left. }
    eexists. split; [exact Hv|].
    destruct (decide (p_cpv pb = p_cpv pm)) as [Ebm|Nbm].
    { rewrite (bool_decide_eq_true_2 _ Ebm). cbn [orb].
      specialize (Hbm Ebm).
      split; [discriminate|]. split; [done|]. intros [?|?]; lia. }
    rewrite (bool_decide_eq_false_2 _ Nbm). cbn [orb].
    destruct (decide (p_cpv pb = p_cpv pc)) as [Ebc|Nbc].
    { rewrite (bool_decide_eq_true_2 _ Ebc). specialize (Hbc Ebc).
      split; [discriminate|]. split; [done|]. intros [?|?]; lia. }
    rewrite (bool_decide_eq_false_2 _ Nbc).
    destruct (decide (p_cpv pc = p_cpv pm)) as [Ecm|Ncm].
    { rewrite (bool_decide_eq_true_2 _ Ecm). specialize (Hcm Ecm).
      split; [intros _; lia|]. split; [intros [?|?]; lia|done]. }
    rewrite (bool_decide_eq_false_2 _ Ncm).
    split; [|split].
    - intros Hr. apply bool_decide_eq_true in Hr. lia.
    - intros Hr. apply bool_decide_eq_false_2. lia.
    - intros Hr. apply bool_decide_eq_true_2. lia.
  Qed.

Lemma rank_tie (pm : pkg) (bestm x : Atom.t) (op : string) :
    Atom.extended_syntax x = false ->
    Atom.slot x = None ->
    Atom.operator x = Some op ->
    op ∈ [">"; "<"; ">="; "<="] ->
    rank (CPkg pm) x (2, Some bestm)
    = (let! replace := closer bestm x (CpvPkg pm) in
       Ok (2, if replace then Some x else Some bestm)).
  Proof.
    intros Hext Hslot Hop Hin. unfold rank. rewrite Hext, Hslot, Hop.
    rewrite (bool_decide_eq_false_2 (None ≠ None))
      by (intros Hne; apply Hne; reflexivity).
    cbn [andb].
    repeat (apply elem_of_cons in Hin as [->|Hin]); try reflexivity.
    inversion Hin.
  Qed.

  (** C4.  When a relational atom [x] meets a current best [bestm] at
      rank 2 for the package [pm], the outcome is decided by the order of
      the three versions: [x] replaces [bestm] only if the package's
      version lies at an end of the three and the version of [x] in the
      middle; [bestm] is kept whenever the package's version lies
      strictly between the other two; and [x] does replace [bestm]
      whenever its version lies strictly between the package's version
      and the version of [bestm]. *)
Theorem closest_version_wins (key : string -> Z) (bestm x : Atom.t)
      (pb pm pc : pkg) (op : string)
      (Hb : Atom.cpv bestm = CpvPkg pb) (Hc : Atom.cpv x = CpvPkg pc)
      (Hext : Atom.extended_syntax x = false)
      (Hslot : Atom.slot x = None)
      (Hop : Atom.operator x = Some op)
      (Hrel : bool_decide (op ∈ [">"; "<"; ">="; "<="]) = true)
      (Hord : ordered_by key [p_version pb; p_version pm; p_version pc] = true)
      (Htext : version_of_text [pb; pm; pc] = true) :
    let vb := key (p_version pb) in
    let vm := key (p_version pm) in
    let vc := key (p_version pc) in
    exists replace : bool,
      rank (CPkg pm) x (2, Some bestm)
      = Ok (2, Some (if replace then x else bestm)) /\
      closer bestm x (CpvPkg pm) = Ok replace /\
      (replace = true -> (vm <= vc <= vb) \/ (vb <= vc <= vm)) /\
      ((vb < vm < vc) \/ (vc < vm < vb) -> replace = false) /\
      ((vm < vc < vb) \/ (vb < vc < vm) -> replace = true).
  Proof.
    intros vb vm vc.
    destruct (closer_spec key bestm x pb pm pc Hb Hc Hord Htext)
      as [replace [Hcl [H1 [H2 H3]]]].
    exists replace.
    split; [|split; [exact Hcl|split; [exact H1|split; [exact H2|exact H3]]]].
    rewrite (rank_tie pm bestm x op Hext Hslot Hop)
      by (apply bool_decide_eq_true in Hrel; exact Hrel).
    rewrite Hcl. cbn [bind]. destruct replace; reflexivity.
  Qed.

Lemma keep_repo_spec (r : string) (x : candidate) :
    keep_repo r x
    = Ok (bool_decide (cand_repo x = None \/ cand_repo x = Some r
                       \/ cand_repo x = Some _unknown_repo)).
  Proof.
    unfold keep_repo. destruct (cand_repo x) as [repo|].
    - f_equal.
      destruct (decide (repo = _unknown_repo)) as [->|Hu].
      + rewrite (bool_decide_eq_false_2 (_unknown_repo ≠ _unknown_repo))
          by (intros Hne; apply Hne; reflexivity).
        cbn. symmetry. apply bool_decide_eq_true_2. right. right. reflexivity.
      + rewrite (bool_decide_eq_true_2 (repo ≠ _unknown_repo)) by exact Hu.
        cbn [andb]. destruct (decide (repo = r)) as [->|Hr].
        * rewrite (bool_decide_eq_false_2 (r ≠ r))
            by (intros Hne; apply Hne; reflexivity).
          cbn. symmetry. apply bool_decide_eq_true_2. right. left. reflexivity.
        * rewrite (bool_decide_eq_true_2 (repo ≠ r)) by exact Hr.
          cbn. symmetry. apply bool_decide_eq_false_2.
          intros Hn. destruct Hn as [Hn | [Hn | Hn]]; congruence.
    - rewrite bool_decide_eq_true_2 by (left; reflexivity). reflexivity.
  Qed.

  (** C8 (as amended).  When the atom names a repository [r], the repo
      filter keeps a surviving candidate iff the candidate carries no
      repository at all, or its repository is [r], or its repository is
      the unknown marker; a candidate with another known repository is
      dropped, and the order of the survivors is kept. *)
Theorem repo_filter_keeps (mydep : Atom.t) (r : string)
      (mylist : list candidate)
      (Hrepo : Atom.repo mydep = Some r) (Hr : Py.truthy r = true) :
    exists kept,
      filter_repo mydep mylist = Ok kept /\
      kept = List.filter
               (fun x => bool_decide (cand_repo x = None \/ cand_repo x = Some r
                                      \/ cand_repo x = Some _unknown_repo))
               mylist /\
      forall x, x ∈ kept <->
                x ∈ mylist /\
                (cand_repo x = None \/ cand_repo x = Some r
                 \/ cand_repo x = Some _unknown_repo).
  Proof.
    eexists. split; [|split; [reflexivity|]].
    - unfold filter_repo. rewrite Hrepo, Hr.
      apply select_pure. intros x _. apply keep_repo_spec.
    - intros x. rewrite !list_elem_of_In, filter_In, bool_decide_eq_true.
      reflexivity.
  Qed.

End MatchProperties.

Lemma glob_match_on_boundaries_witness :
  Atom.extended_syntax (Fixture.atom "=cat/pkg-01*") = false /\
  Py.startswith "1" "0" = false /\
  exists mylist,
    @Match.select
      (@Match.keep_glob Fixture.portage
         (Match.glob_normalize "cat/pkg-01" "cat/pkg" "01"))
      [CStr "cat/pkg-10"; CStr "cat/pkg-1.2"; CStr "cat/pkg-001-r1"]
    = Ok mylist.
Proof.
  split; [reflexivity|]. split; [reflexivity|].
  assert (Hne : Match.glob_normalize
                  (cpv_text (Atom.cpv (Fixture.atom "=cat/pkg-01*")))
                  (Atom.cp (Fixture.atom "=cat/pkg-01*"))
                  (Match.split_ver ("cat", "pkg", "01", "r0")) <> EmptyString)
    by (vm_compute; discriminate).
  destruct (@glob_match_on_boundaries Fixture.portage
              (Fixture.atom "=cat/pkg-01*") ("cat", "pkg", "01", "r0") (Some "01")
              [CStr "cat/pkg-10"; CStr "cat/pkg-1.2"; CStr "cat/pkg-001-r1"]
              "cat/pkg" "1" "-r1" 2 eq_refl Hne eq_refl)
    as [_ [_ [[mylist [Hsel _]] _]]].
  exists mylist. exact Hsel.
Defined.

Lemma ge_contains_gt_and_eq_witness :
  "cat/pkg" = Match.split_cp (p_cpv_split (Fixture.pkg_of "cat/pkg-1.2")) /\
  forallb (@Match.cp_consistent Fixture.portage)
    [CStr "cat/pkg-10"; CStr "cat/pkg-1.2"; CStr "cat/pkg-1.1"; CStr "junk"] = true /\
  @Match.match_from_list Fixture.portage
    (Match.DAtom (Match.versioned_atom ">=" "cat/pkg" (Fixture.pkg_of "cat/pkg-1.2")))
    [CStr "cat/pkg-10"; CStr "cat/pkg-1.2"; CStr "cat/pkg-1.1"; CStr "junk"]
  = Ok [CStr "cat/pkg-10"; CStr "cat/pkg-1.2"] /\
  exists l_gt,
    @Match.match_from_list Fixture.portage
      (Match.DAtom (Match.versioned_atom ">" "cat/pkg" (Fixture.pkg_of "cat/pkg-1.2")))
      [CStr "cat/pkg-10"; CStr "cat/pkg-1.2"; CStr "cat/pkg-1.1"; CStr "junk"]
    = Ok l_gt
    /\ l_gt ⊆ [CStr "cat/pkg-10"; CStr "cat/pkg-1.2"].
Proof.
  split; [reflexivity|]. split; [vm_compute; reflexivity|].
  split; [vm_compute; reflexivity|].
  apply (@ge_contains_gt_and_eq Fixture.portage "cat/pkg"
           (Fixture.pkg_of "cat/pkg-1.2")
           [CStr "cat/pkg-10"; CStr "cat/pkg-1.2"; CStr "cat/pkg-1.1"; CStr "junk"]
           [CStr "cat/pkg-10"; CStr "cat/pkg-1.2"]);
    vm_compute; reflexivity.
Defined.

Lemma closest_version_wins_witness :
  let bestm := Match.versioned_atom ">=" "cat/pkg" (Fixture.pkg_of "cat/pkg-1") in
  let x := Match.versioned_atom ">=" "cat/pkg" (Fixture.pkg_of "cat/pkg-2") in
  let pm := Fixture.pkg_of "cat/pkg-3" in
  Atom.extended_syntax x = false /\
  Atom.slot x = None /\
  bool_decide (">=" ∈ [">"; "<"; ">="; "<="]) = true /\
  @Match.ordered_by Fixture.portage Fixture.version_rank ["1"; "3"; "2"] = true /\
  Match.version_of_text
    [Fixture.pkg_of "cat/pkg-1"; pm; Fixture.pkg_of "cat/pkg-2"] = true /\
  @Match.rank Fixture.portage (CPkg pm) x (2, Some bestm) = Ok (2, Some x) /\
  @Match.closer Fixture.portage bestm x (CpvPkg pm) = Ok true.
Proof.
  intros bestm x pm.
  split; [reflexivity|]. split; [reflexivity|]. split; [reflexivity|].
  split; [vm_compute; reflexivity|]. split; [vm_compute; reflexivity|].
  destruct (@closest_version_wins Fixture.portage Fixture.version_rank bestm x
              (Fixture.pkg_of "cat/pkg-1") pm (Fixture.pkg_of "cat/pkg-2") ">="
              eq_refl eq_refl eq_refl eq_refl eq_refl eq_refl
              ltac:(vm_compute; reflexivity) ltac:(vm_compute; reflexivity))
    as [replace [Hrank [Hcl [_ [_ Hpos]]]]].
  assert (Hr : replace = true)
    by (apply Hpos; right; split; vm_compute; reflexivity).
  rewrite Hr in Hrank, Hcl. split; [exact Hrank|exact Hcl].
Defined.

Lemma repo_filter_keeps_witness :
  Atom.repo (Fixture.atom "cat/pkg::gentoo") = Some "gentoo" /\
  Py.truthy "gentoo" = true /\
  exists kept,
    @Match.filter_repo Fixture.portage (Fixture.atom "cat/pkg::gentoo")
      [CStr "cat/pkg-1::gentoo"; CStr "cat/pkg-2::other"; CStr "cat/pkg-3"]
    = Ok kept.
Proof.
  split; [reflexivity|]. split; [reflexivity|].
  destruct (@repo_filter_keeps Fixture.portage
              (Fixture.atom "cat/pkg::gentoo") "gentoo"
              [CStr "cat/pkg-1::gentoo"; CStr "cat/pkg-2::other"; CStr "cat/pkg-3"]
              eq_refl eq_refl) as [kept [Hk _]].
  exists kept. exact Hk.
Defined.

(** C8, as first stated, fails on a candidate that carries no repository:
    it passes the filter although its repository neither equals the
    atom's nor is the unknown marker. *)
Lemma repo_filter_counterexample :
  @Match.match_from_list Fixture.portage (Match.DStr "cat/pkg::gentoo")
    [CStr "cat/pkg-1::gentoo"; CStr "cat/pkg-2::other"; CStr "cat/pkg-3"]
  = Ok [CStr "cat/pkg-1::gentoo"; CStr "cat/pkg-3"] /\
  Match.cand_repo (CStr "cat/pkg-3") = None /\
  ~ (forall (P : Portage) (r : string) (x : candidate),
        @Match.keep_repo P r x = Ok true <->
        (Match.cand_repo x = Some r
         \/ Match.cand_repo x = Some (@_unknown_repo P))).
Proof.
  split; [vm_compute; reflexivity|]. split; [reflexivity|].
  intros Hall.
  destruct (Hall Fixture.portage "gentoo" (CStr "cat/pkg-3")) as [Hk _].
  destruct (Hk eq_refl) as [Hc | Hc]; discriminate Hc.
Qed.

(** the order matters: the same string is rejected as soon as there is a
    candidate *)
Example match_from_list_invalid_atom :
  @Match.match_from_list Fixture.portage (Match.DStr "bogus!!") [] = Ok [] /\
  @Match.match_from_list Fixture.portage (Match.DStr "bogus!!") [CStr "cat/pkg-1"]
  = Raise InvalidAtom.
Proof. split; vm_compute; reflexivity. Qed.


(** ** The dependency reducer *)

Section ReduceProperties.

Import Reduce.

Context `{Portage}.

Variable a : args.

Lemma for_each_app {A S} (f : A -> S -> result S) xs ys st :
  for_each f (xs ++ ys) st = bind (for_each f xs st) (for_each f ys).
Proof.
  revert st. induction xs as [|x xs IH]; intros st; [reflexivity|].
  simpl. destruct (f x st); simpl; [apply IH | reflexivity].
Qed.

Lemma zip_seq_app {A} (xs ys : list A) n :
  zip (seq n (length (xs ++ ys))) (xs ++ ys)
  = zip (seq n (length xs)) xs ++ zip (seq (n + length xs) (length ys)) ys.
Proof.
  revert n. induction xs as [|x xs IH]; intros n; simpl.
  - by rewrite Nat.add_0_r.
  - f_equal. rewrite IH. do 3 f_equal. lia.
Qed.

Lemma step_empty_group mysplit pos st :
  mysplit !! (pos + 1)%nat = Some ")" ->
  step a mysplit (pos, "(") st = Raise InvalidDependString.
Proof.
  intros E. unfold step. rewrite bool_decide_eq_true_2 by reflexivity.
  rewrite (bool_decide_eq_true_2 _ E). by destruct (need_simple_token st).
Qed.

Lemma loop_empty_group pre post st :
  for_each (step a (pre ++ "(" :: ")" :: post))
    (enumerate (pre ++ "(" :: ")" :: post)) st
  = match for_each (step a (pre ++ "(" :: ")" :: post)) (enumerate pre) st with
    | Ok _ => Raise InvalidDependString
    | Raise e => Raise e
    end.
Proof.
  unfold enumerate. rewrite zip_seq_app, for_each_app.
  destruct (for_each _ (zip (seq 0 (length pre)) pre) st) as [st'|e];
    [|reflexivity].
  cbn [length seq zip zip_with for_each bind]. rewrite step_empty_group; [reflexivity|].
  rewrite lookup_app_r by lia.
  replace (0 + length pre + 1 - length pre)%nat with 1%nat by lia.
  reflexivity.
Qed.


(** *** Lists with pending operators *)

Lemma ends_app_r (b x : list dep) :
  x <> [] -> ends_any_of (b ++ x) = ends_any_of x.
Proof.
  intros Hx. unfold ends_any_of. rewrite last_app.
  destruct (last x) eqn:E; [reflexivity|].
  apply last_None in E. contradiction.
Qed.

Lemma ends_app (b x : list dep) :
  ends_any_of b = false -> ends_any_of x = false ->
  ends_any_of (b ++ x) = false.
Proof.
  intros Hb Hx. destruct x as [|e x]; [by rewrite app_nil_r|].
  by rewrite ends_app_r.
Qed.

Lemma ends_sub (b l : list dep) : ends_any_of (b ++ [Sub l]) = false.
Proof. by rewrite ends_app_r. Qed.

Lemma paired_app (b x : list dep) :
  paired b = true -> paired x = true ->
  (ends_any_of b = true ->
   match x with e :: _ => is_str e = false | [] => True end) ->
  paired (b ++ x) = true.
Proof.
  induction b as [|e b IH]; intros Hb Hx Hj; [exact Hx|].
  destruct b as [|e' b].
  - destruct x as [|e' x]; [reflexivity|].
    change (paired ([e] ++ e' :: x))
      with ((negb (eq_str e "||") || negb (is_str e')) && paired (e' :: x)).
    rewrite Hx, andb_true_r.
    destruct (eq_str e "||") eqn:E; [|reflexivity].
    unfold ends_any_of in Hj. cbn in Hj. rewrite (Hj E). reflexivity.
  - change (paired ((e :: e' :: b) ++ x))
      with ((negb (eq_str e "||") || negb (is_str e')) && paired ((e' :: b) ++ x)).
    change (paired (e :: e' :: b))
      with ((negb (eq_str e "||") || negb (is_str e')) && paired (e' :: b)) in Hb.
    apply andb_true_iff in Hb as [H1 H2].
    rewrite H1. cbn [andb]. apply IH; [exact H2|exact Hx|].
    intros Hb. apply Hj. exact Hb.
Qed.

Lemma paired_cons (e e' : dep) (l : list dep) :
  paired (e :: e' :: l)
  = (negb (eq_str e "||") || negb (is_str e')) && paired (e' :: l).
Proof. reflexivity. Qed.

Lemma paired_prefix (b x : list dep) :
  paired (b ++ x) = true -> paired b = true.
Proof.
  induction b as [|e b IH]; [done|].
  destruct b as [|e' b]; [done|].
  change ((e :: e' :: b) ++ x) with (e :: e' :: (b ++ x)).
  rewrite !paired_cons. intros Hc.
  apply andb_true_iff in Hc as [H1 H2]. rewrite H1. exact (IH H2).
Qed.

Lemma paired_removelast (c : list dep) :
  paired c = true -> paired (removelast c) = true.
Proof.
  destruct (last c) as [e|] eqn:E.
  - apply last_Some in E as [c' ->]. rewrite removelast_last.
    apply paired_prefix.
  - apply last_None in E as ->. done.
Qed.

Lemma paired_removelast_ends (c : list dep) e :
  paired c = true -> last c = Some e -> is_str e = true ->
  ends_any_of (removelast c) = false.
Proof.
  intros Hc Hl He. apply last_Some in Hl as [c' ->].
  rewrite removelast_last.
  destruct (ends_any_of c') eqn:E; [|reflexivity].
  exfalso. induction c' as [|x c' IH]; [discriminate E|].
  destruct c' as [|y c'].
  - cbn in Hc. unfold ends_any_of in E. cbn in E.
    rewrite E, He in Hc. discriminate Hc.
  - change ((x :: y :: c') ++ [e]) with (x :: y :: (c' ++ [e])) in Hc.
    rewrite paired_cons in Hc. apply andb_true_iff in Hc as [_ Hc].
    apply IH; [exact Hc|]. exact E.
Qed.

Lemma shaped_tok_last (s q : string) :
  shaped a (Tok s) = true -> exists b, last_eq (Tok s) q = Ok b.
Proof.
  cbn. intros Hs.
  destruct (last_char_nonempty s) as [c ->]; [by destruct s|eauto].
Qed.



Lemma shaped_sub (l : list dep) :
  flat a = false -> shaped a (Sub l) = closed a l.
Proof.
  intros Hf. cbn [shaped]. unfold closed, list_ok. rewrite Hf. cbn [negb andb].
  destruct (forallb (shaped a) l), (strict a), (paired l), (ends_any_of l);
    reflexivity.
Qed.

Lemma closed_list_ok (c : list dep) : closed a c = true -> list_ok a c = true.
Proof. unfold closed. intros Hc. by apply andb_true_iff in Hc as [? _]. Qed.

Lemma closed_intro (c : list dep) :
  list_ok a c = true -> (strict a = true -> ends_any_of c = false) ->
  closed a c = true.
Proof.
  unfold closed. intros -> Hs. cbn [andb].
  destruct (strict a); [|reflexivity]. by rewrite Hs.
Qed.

Lemma closed_ends (c : list dep) :
  closed a c = true -> strict a = true -> ends_any_of c = false.
Proof.
  unfold closed. intros Hc Hs. rewrite Hs in Hc.
  apply andb_true_iff in Hc as [_ Hc]. by destruct (ends_any_of c).
Qed.

Lemma list_ok_shaped (c : list dep) :
  list_ok a c = true -> Forall (fun e => shaped a e = true) c.
Proof.
  unfold list_ok. intros Hc. apply andb_true_iff in Hc as [Hc _].
  apply Forall_forall. intros e He. rewrite forallb_forall in Hc.
  apply Hc. by apply list_elem_of_In.
Qed.

Lemma list_ok_paired (c : list dep) :
  list_ok a c = true -> strict a = true -> paired c = true.
Proof.
  unfold list_ok. intros Hc Hs. rewrite Hs in Hc.
  by apply andb_true_iff in Hc as [_ Hc].
Qed.

Lemma list_ok_intro (c : list dep) :
  Forall (fun e => shaped a e = true) c ->
  (strict a = true -> paired c = true) -> list_ok a c = true.
Proof.
  intros Hc Hp. unfold list_ok. apply andb_true_iff. split.
  - apply forallb_forall. intros e He. rewrite Forall_forall in Hc.
    apply Hc. by apply list_elem_of_In.
  - destruct (strict a); [by rewrite Hp|reflexivity].
Qed.

Lemma list_ok_last (c : list dep) e :
  list_ok a c = true -> last c = Some e -> shaped a e = true.
Proof.
  intros Hc Hl. apply list_ok_shaped in Hc. rewrite Forall_forall in Hc.
  apply Hc. apply last_Some in Hl as [c' ->]. set_solver.
Qed.

Lemma stack_ok_at (stk : list (list dep)) k cur :
  stack_ok a stk -> stk !! k = Some cur -> list_ok a cur = true.
Proof.
  unfold stack_ok. rewrite Forall_forall. intros Hs E. apply Hs.
  by eapply list_elem_of_lookup_2.
Qed.

Lemma stack_ok_insert (stk : list (list dep)) k c :
  stack_ok a stk -> list_ok a c = true -> stack_ok a (<[k := c]> stk).
Proof.
  unfold stack_ok. intros Hs Hc.
  destruct (decide (k < length stk)%nat) as [Hk|Hk].
  - by apply Forall_insert.
  - by rewrite list_insert_ge by lia.
Qed.

Lemma list_ok_app (b x : list dep) :
  list_ok a b = true -> list_ok a x = true ->
  (strict a = true -> ends_any_of b = true ->
   match x with e :: _ => is_str e = false | [] => True end) ->
  list_ok a (b ++ x) = true.
Proof.
  intros Hb Hx Hj. apply list_ok_intro.
  - apply Forall_app. split; by apply list_ok_shaped.
  - intros Hs. apply paired_app; [by apply list_ok_paired..|]. by apply Hj.
Qed.

Lemma list_ok_removelast (c : list dep) :
  list_ok a c = true -> list_ok a (removelast c) = true.
Proof.
  intros Hc. apply list_ok_intro.
  - destruct (last c) as [e|] eqn:E.
    + apply last_Some in E as [c' ->]. rewrite removelast_last.
      apply list_ok_shaped in Hc. by apply Forall_app in Hc as [? _].
    + apply last_None in E as ->. constructor.
  - intros Hs. apply paired_removelast. by apply list_ok_paired.
Qed.

Lemma list_ok_drop (n : nat) (c : list dep) :
  strict a = false -> list_ok a c = true -> list_ok a (drop n c) = true.
Proof.
  intros Hs Hc. apply list_ok_intro; [|congruence].
  apply Forall_drop. by apply list_ok_shaped.
Qed.

Lemma closed_app (b x : list dep) :
  list_ok a b = true -> (strict a = true -> ends_any_of b = false) ->
  closed a x = true -> closed a (b ++ x) = true.
Proof.
  intros Hb He Hx. apply closed_intro.
  - apply list_ok_app; [exact Hb|by apply closed_list_ok|].
    intros Hs E. rewrite (He Hs) in E. discriminate E.
  - intros Hs. apply ends_app; [by apply He|by apply closed_ends].
Qed.

Lemma closed_app_sub (b l : list dep) :
  flat a = false -> list_ok a b = true -> closed a l = true ->
  closed a (b ++ [Sub l]) = true.
Proof.
  intros Hf Hb Hl. apply closed_intro.
  - apply list_ok_app; [exact Hb| |done].
    apply list_ok_intro; [|done].
    constructor; [|constructor]. by rewrite shaped_sub.
  - intros _. apply ends_sub.
Qed.

Lemma closed_removelast (c : list dep) e :
  list_ok a c = true -> last c = Some e -> is_str e = true ->
  closed a (removelast c) = true.
Proof.
  intros Hc Hl He. apply closed_intro; [by apply list_ok_removelast|].
  intros Hs. eapply paired_removelast_ends; [|exact Hl|exact He].
  by apply list_ok_paired.
Qed.

Lemma on_level_ok (stk : list (list dep)) k f cur :
  stk !! k = Some cur -> on_level stk k f = Ok (<[k := f cur]> stk).
Proof. intros E. unfold on_level, at_level. by rewrite E. Qed.

Lemma ends_in_any_of_at (stk : list (list dep)) (k : nat) cur :
  stk !! k = Some cur ->
  ends_in_any_of_dep stk (Z.of_nat k) = ends_any_of cur.
Proof.
  intros E. unfold ends_in_any_of_dep.
  rewrite bool_decide_eq_true_2 by lia. by rewrite Nat2Z.id, E.
Qed.

Lemma last_any_of_operator_level_ok (n : nat) (stk : list (list dep)) :
  (n <= length stk)%nat -> stack_ok a stk ->
  exists z, last_any_of_operator_level stk n = Ok z.
Proof.
  intros Hn Hs. induction n as [|k IH]; [by eexists|].
  destruct IH as [z IH]; [lia|].
  cbn [last_any_of_operator_level]. unfold at_level.
  destruct (lookup_lt_is_Some_2 stk k) as [cur E]; [lia|].
  rewrite E. cbn [of_option bind].
  destruct (last cur) as [e|] eqn:El; [|eauto].
  destruct e as [s|o|l]; cbn [is_str]; [| |eauto].
  - destruct (eq_str (Tok s) "||"); [eauto|].
    destruct (shaped_tok_last s "?") as [b ->].
    { eapply list_ok_last; [|exact El]. by eapply stack_ok_at. }
    cbn [bind]. destruct b; cbn [negb]; eauto.
  - assert (shaped a (Obj o) = true) as Ho; [|discriminate Ho].
    eapply list_ok_last; [|exact El]. by eapply stack_ok_at.
Qed.


Lemma special_append_ok (stk : list (list dep)) lvl cur l is_single :
  flat a = false ->
  stk !! lvl = Some cur -> stack_ok a stk ->
  closed a l = true -> l <> [] ->
  (is_single = true -> strict a = true ->
   length l = 1%nat \/ length l = 2%nat) ->
  (is_single = true -> strict a = true -> ends_any_of cur = false) ->
  exists c, special_append a stk lvl l is_single = Ok (<[lvl := c]> stk)
            /\ closed a c = true.
Proof.
  intros Hf E Hs Hl Hnil Hlen Hcur.
  pose proof (stack_ok_at _ _ _ Hs E) as Hc.
  pose proof (closed_list_ok _ Hl) as Hl'.
  assert (Hst : strict a = negb (opconvert a))
    by (unfold strict; by rewrite Hf).
  unfold special_append.
  destruct (opconvert a) eqn:Eo; cbn [negb] in Hst; destruct is_single.
  - (* opconvert, a single entry *)
    destruct l as [|l0 l]; [done|]. cbn [lookup list_lookup of_option bind].
    assert (Hgen : forall x, list_ok a x = true ->
              exists c, on_level stk lvl (fun cur => cur ++ x)
                        = Ok (<[lvl := c]> stk) /\ closed a c = true).
    { intros x Hx. rewrite (on_level_ok _ _ _ _ E).
      eexists. split; [reflexivity|].
      apply closed_app; [exact Hc|congruence|].
      apply closed_intro; [exact Hx|congruence]. }
    destruct (eq_str l0 "||" && ends_in_any_of_dep stk (Z.of_nat lvl - 1)).
    { apply Hgen. by apply list_ok_drop. }
    destruct l0 as [s|o|inner]; try (by apply Hgen).
    destruct l as [|? ?]; [|by apply Hgen].
    destruct (last_any_of_operator_level_ok lvl stk) as [z ->];
      [apply lookup_lt_Some in E; lia|exact Hs|].
    cbn [bind andb].
    assert (Hin : closed a inner = true).
    { apply list_ok_shaped in Hl'. apply Forall_cons in Hl' as [Hi _].
      by rewrite shaped_sub in Hi. }
    destruct (bool_decide (z = -1));
      destruct (match inner with e :: _ => eq_str e "||" | [] => false end);
      try (apply Hgen; first [exact Hl'|by apply closed_list_ok
                             |by apply list_ok_drop, closed_list_ok]).
  - (* opconvert, a group *)
    unfold at_level. rewrite E. cbn [of_option bind andb].
    destruct (match last cur with Some e => eq_str e "||" | None => false end);
      rewrite (on_level_ok _ _ _ _ E); eexists; (split; [reflexivity|]).
    + apply closed_app_sub; [exact Hf|by apply list_ok_removelast|].
      apply closed_intro; [|congruence].
      apply list_ok_intro; [|congruence].
      constructor; [reflexivity|by apply list_ok_shaped].
    + by apply closed_app_sub.
  - (* nested lists, a single entry *)
    specialize (Hlen eq_refl Hst). specialize (Hcur eq_refl Hst).
    destruct l as [|l0 l]; [done|]. cbn [lookup list_lookup of_option bind].
    assert (Hgen : forall x, closed a x = true ->
              exists c, on_level stk lvl (fun cur => cur ++ x)
                        = Ok (<[lvl := c]> stk) /\ closed a c = true).
    { intros x Hx. rewrite (on_level_ok _ _ _ _ E).
      eexists. split; [reflexivity|]. by apply closed_app. }
    destruct (eq_str l0 "||" && ends_in_any_of_dep stk (Z.of_nat lvl - 1)) eqn:E1.
    + apply andb_true_iff in E1 as [E1 _].
      destruct Hlen as [H1|H2].
      { destruct l; [|discriminate H1].
        apply closed_ends in Hl; [|exact Hst].
        unfold ends_any_of in Hl. cbn in Hl. congruence. }
      destruct l as [|l1 [|? ?]]; try discriminate H2.
      cbn [lookup list_lookup of_option bind].
      pose proof (list_ok_paired _ Hl' Hst) as Hp.
      rewrite paired_cons, E1 in Hp.
      cbn in Hp. rewrite andb_true_r in Hp.
      destruct l1 as [s|o|inner]; try discriminate Hp. cbn [items_of].
      apply Hgen. apply list_ok_shaped in Hl'.
      apply Forall_cons in Hl' as [_ Hl']. apply Forall_cons in Hl' as [Hi _].
      by rewrite shaped_sub in Hi.
    + destruct l0 as [s|o|inner]; try (by apply Hgen).
      destruct l as [|? ?]; [|by apply Hgen].
      destruct (last_any_of_operator_level_ok lvl stk) as [z ->];
        [apply lookup_lt_Some in E; lia|exact Hs|].
      cbn [bind andb].
      assert (Hin : closed a inner = true).
      { apply list_ok_shaped in Hl'. apply Forall_cons in Hl' as [Hi _].
        by rewrite shaped_sub in Hi. }
      destruct (bool_decide (z = -1)); [by apply Hgen|].
      rewrite (on_level_ok _ _ _ _ E). eexists. split; [reflexivity|].
      by apply closed_app_sub.
  - (* nested lists, a group *)
    unfold at_level. rewrite E. cbn [of_option bind andb].
    rewrite (on_level_ok _ _ _ _ E). eexists. split; [reflexivity|].
    by apply closed_app_sub.
Qed.

Lemma eq_str_is_str (e : dep) (s : string) :
  eq_str e s = true -> is_str e = true.
Proof.
  unfold eq_str. intros He. apply bool_decide_eq_true in He.
  by destruct e.
Qed.

Lemma ends_removelast (c : list dep) :
  list_ok a c = true -> strict a = true -> ends_any_of c = true ->
  ends_any_of (removelast c) = false.
Proof.
  intros Hc Hst He. unfold ends_any_of in He.
  destruct (last c) as [e|] eqn:El; [|discriminate He].
  eapply paired_removelast_ends; [by apply list_ok_paired|exact El|].
  by eapply eq_str_is_str.
Qed.

Lemma merge_ok (stk : list (list dep)) lvl cur l is_single :
  flat a = false ->
  stk !! lvl = Some cur -> stack_ok a stk ->
  closed a l = true -> l <> [] ->
  (is_single = true -> strict a = true ->
   length l = 1%nat \/ length l = 2%nat) ->
  exists c, merge a stk lvl l is_single = Ok (<[lvl := c]> stk)
            /\ closed a c = true.
Proof.
  intros Hf E Hs Hl Hnil Hlen.
  pose proof (stack_ok_at _ _ _ Hs E) as Hc.
  unfold merge. rewrite (ends_in_any_of_at _ _ _ E).
  unfold at_level at 1. rewrite E. cbn [of_option bind].
  destruct (ends_in_any_of_dep stk (Z.of_nat lvl - 1)) eqn:Eb;
    destruct (ends_any_of cur) eqn:Eh; cbn [negb andb].
  - (* an operator on both levels *)
    destruct cur as [|e0 cur0] eqn:Ecur; [discriminate Eh|]. cbn [empty].
    rewrite <- Ecur in *. clear Ecur e0 cur0.
    destruct is_single; cbn [andb].
    + rewrite (on_level_ok _ _ _ _ E). cbn [bind].
      destruct (special_append_ok (<[lvl := removelast cur]> stk) lvl
                  (removelast cur) l true) as (c & -> & Hcl); try done.
      * apply list_lookup_insert_eq. by eapply lookup_lt_Some.
      * apply stack_ok_insert; [exact Hs|by apply list_ok_removelast].
      * intros _ Hst. by apply ends_removelast.
      * rewrite list_insert_insert_eq. eauto.
    + rewrite (on_level_ok _ _ _ _ E). eexists. split; [reflexivity|].
      apply closed_app; [by apply list_ok_removelast| |exact Hl].
      intros Hst. by apply ends_removelast.
  - (* an operator on the level below only *)
    destruct (empty cur); [|rewrite !andb_false_r];
      apply (special_append_ok stk lvl cur l is_single); done.
  - (* an operator on this level only *)
    destruct cur as [|e0 cur0] eqn:Ecur; [discriminate Eh|]. cbn [empty].
    rewrite <- Ecur in *. clear Ecur e0 cur0.
    destruct is_single; cbn [andb].
    + rewrite (on_level_ok _ _ _ _ E). cbn [bind].
      destruct (special_append_ok (<[lvl := removelast cur]> stk) lvl
                  (removelast cur) l true) as (c & -> & Hcl); try done.
      * apply list_lookup_insert_eq. by eapply lookup_lt_Some.
      * apply stack_ok_insert; [exact Hs|by apply list_ok_removelast].
      * intros _ Hst. by apply ends_removelast.
      * rewrite list_insert_insert_eq. eauto.
    + destruct (opconvert a) eqn:Eo; cbn [andb].
      * rewrite (on_level_ok _ _ _ _ E). eexists. split; [reflexivity|].
        assert (Hst : strict a = false)
          by (unfold strict; by rewrite Eo, andb_false_r).
        apply closed_app_sub; [exact Hf|by apply list_ok_removelast|].
        apply closed_intro; [|congruence].
        apply list_ok_intro; [|congruence].
        constructor; [reflexivity|by apply list_ok_shaped, closed_list_ok].
      * apply (special_append_ok stk lvl cur l false); done.
  - (* no operator in front *)
    rewrite (on_level_ok _ _ _ _ E). eexists. split; [reflexivity|].
    by apply closed_app.
Qed.

Lemma is_active_str_safe (c : string) :
  match is_active_str a c with
  | Ok _ => True
  | Raise e => e = InvalidDependString
  end.
Proof.
  unfold is_active_str.
  destruct (if Py.startswith c "!" then _ else _) as [flag neg].
  destruct (is_valid_flag a) as [valid|];
    [destruct (valid flag)|destruct (useflag_re_match flag)];
    cbn [bind]; try done;
    repeat (match goal with |- context [if ?b then _ else _] => destruct b end;
            try done).
Qed.

Lemma shape_closed (stk : list (list dep)) lvl c :
  length stk = S lvl -> stack_ok a stk -> closed a c = true ->
  shape a {| stack := <[lvl := c]> stk; level := lvl;
             need_bracket := false; need_simple_token := false |}.
Proof.
  intros Hlen Hs Hc. split; cbn.
  - by rewrite length_insert.
  - apply stack_ok_insert; [exact Hs|by apply closed_list_ok].
  - intros top Htop Hst Hends.
    assert (top = c) as ->.
    { apply last_Some in Htop as [stk' Hstk'].
      assert (<[lvl := c]> stk !! lvl = Some c) as Hl
        by (apply list_lookup_insert_eq; lia).
      rewrite Hstk' in Hl.
      assert (length (stk' ++ [top]) = S lvl) as Hlen'
        by (by rewrite <- Hstk', length_insert).
      rewrite List.length_app in Hlen'. cbn in Hlen'.
      rewrite lookup_app_r in Hl by lia.
      replace (lvl - length stk')%nat with 0%nat in Hl by lia.
      by injection Hl. }
    rewrite (closed_ends _ Hc Hst) in Hends. discriminate Hends.
Qed.

Lemma shape_same (stk : list (list dep)) lvl c :
  length stk = S lvl -> stack_ok a stk -> stk !! lvl = Some c ->
  (strict a = true -> ends_any_of c = false) ->
  shape a {| stack := stk; level := lvl;
             need_bracket := false; need_simple_token := false |}.
Proof.
  intros Hlen Hs E Hc. rewrite <- (list_insert_id stk lvl c E).
  apply shape_closed; [exact Hlen|exact Hs|].
  apply closed_intro; [by eapply stack_ok_at|exact Hc].
Qed.

Lemma flat_entry (e : dep) :
  flat a = true -> shaped a e = true -> exists s, e = Tok s.
Proof.
  intros Hf He. destruct e as [s|o|l]; [eauto|discriminate He|].
  cbn in He. rewrite Hf in He. discriminate He.
Qed.

Lemma str_entry (e : dep) :
  is_str e = true -> shaped a e = true -> exists s, e = Tok s.
Proof.
  intros Hs He. destruct e as [s|o|l]; [eauto|discriminate He|discriminate Hs].
Qed.

Lemma close_bracket_ok (st : state) :
  token_class a = None -> shape a st -> safe a (close_bracket a st).
Proof.
  intros Hcls [Hd Hs Ht]. unfold close_bracket.
  destruct (need_bracket st) eqn:Enb; [done|].
  destruct (need_simple_token st); [done|].
  case_bool_decide as Hlv; [|done].
  destruct (last (stack st)) as [l|] eqn:El;
    [|apply last_None in El; rewrite El in Hd; discriminate Hd].
  cbn [of_option bind].
  assert (strict a = true -> ends_any_of l = false) as Hends.
  { intros Hst. destruct (ends_any_of l) eqn:E; [|reflexivity].
    destruct (Ht l eq_refl Hst E) as [? _]. congruence. }
  apply last_Some in El as [stk Estk]. rewrite Estk in *.
  rewrite removelast_last. clear Ht Estk.
  rewrite List.length_app in Hd. cbn in Hd.
  unfold stack_ok in Hs.
  apply Forall_app in Hs as [Hs Hl]. rewrite Forall_singleton in Hl.
  fold (stack_ok a stk) in Hs.
  cbn beta in Hl.
  assert (Hcl : closed a l = true) by (apply closed_intro; [exact Hl|exact Hends]).
  set (lvl := (level st - 1)%nat) in *.
  assert (Hlen : length stk = S lvl) by (unfold lvl; lia).
  destruct (lookup_lt_is_Some_2 stk lvl) as [cur E]; [lia|].
  pose proof (stack_ok_at _ _ _ Hs E) as Hc.
  unfold at_level at 1. rewrite E. cbn [of_option bind]. cbv zeta.
  destruct (flat a) eqn:Ef.
  - (* flat mode *)
    assert (Hst : strict a = false) by (unfold strict; by rewrite Ef).
    assert (Hflat : forall c, list_ok a c = true -> closed a c = true)
      by (intros c Hok; apply closed_intro; [exact Hok|congruence]).
    destruct (last cur) as [e|] eqn:Ecur.
    + destruct (flat_entry e Ef) as [s ->]; [by eapply list_ok_last|].
      destruct (shaped_tok_last s "?") as [q ->]; [by eapply list_ok_last|].
      cbn [bind]. destruct q.
      * change (is_active a (default (Tok EmptyString) (Some (Tok s))))
          with (is_active_str a s).
        pose proof (is_active_str_safe s) as Hact.
        destruct (is_active_str a s) as [active|err]; [|exact Hact].
        cbn [bind]. rewrite (on_level_ok _ _ _ _ E). cbn [bind].
        apply shape_closed; [exact Hlen|exact Hs|]. apply Hflat.
        destruct active; [|by apply list_ok_removelast].
        apply list_ok_app; [by apply list_ok_removelast|exact Hl|congruence].
      * rewrite (on_level_ok _ _ _ _ E). cbn [bind].
        apply shape_closed; [exact Hlen|exact Hs|]. apply Hflat.
        apply list_ok_app; [exact Hc|exact Hl|congruence].
    + cbn [bind]. rewrite (on_level_ok _ _ _ _ E). cbn [bind].
      apply shape_closed; [exact Hlen|exact Hs|]. apply Hflat.
      apply list_ok_app; [exact Hc|exact Hl|congruence].
  - (* nested lists *)
    set (is_single := _ || _ || _).
    assert (Hsingle : is_single = true -> strict a = true ->
                      length l = 1%nat \/ length l = 2%nat).
    { unfold is_single, strict. rewrite Ef. cbn [negb andb].
      destruct (opconvert a); [done|]. cbn [negb andb orb].
      rewrite orb_false_r. intros Hi _.
      apply orb_true_iff in Hi as [Hi|Hi].
      - left. by apply bool_decide_eq_true in Hi.
      - right. apply andb_true_iff in Hi as [Hi _].
        by apply bool_decide_eq_true in Hi. }
    assert (Hmerge : forall stk' l',
              stk' = stk \/ stk' = <[lvl := removelast cur]> stk ->
              closed a l' = true -> l' <> [] ->
              (is_single = true -> strict a = true ->
               length l' = 1%nat \/ length l' = 2%nat) ->
              safe a (let! stk0 := merge a stk' lvl l' is_single in
                    Ok {| stack := stk0; level := lvl; need_bracket := false;
                          need_simple_token := false |})).
    { intros stk' l' Hstk' Hcl' Hnil' Hsingle'.
      destruct Hstk' as [->| ->].
      - destruct (merge_ok stk lvl cur l' is_single) as (c & -> & Hcc);
          try done.
        cbn [bind safe]. by apply shape_closed.
      - destruct (merge_ok (<[lvl := removelast cur]> stk) lvl
                    (removelast cur) l' is_single) as (c & -> & Hcc);
          try done.
        + apply list_lookup_insert_eq. lia.
        + apply stack_ok_insert; [exact Hs|by apply list_ok_removelast].
        + cbn [bind safe]. rewrite list_insert_insert_eq.
          by apply shape_closed. }
    assert (Hpop : forall e, last cur = Some e -> is_str e = true ->
              shape a {| stack := <[lvl := removelast cur]> stk; level := lvl;
                         need_bracket := false; need_simple_token := false |}).
    { intros e He Hstr. apply shape_closed; [exact Hlen|exact Hs|].
      by eapply closed_removelast. }
    assert (Hkeep : (l = [] -> ends_any_of cur = false) ->
              safe a (if negb (empty l) && negb false
                    then let! stk0 := merge a stk lvl l is_single in
                         Ok {| stack := stk0; level := lvl;
                               need_bracket := false;
                               need_simple_token := false |}
                    else Ok {| stack := stk; level := lvl;
                               need_bracket := false;
                               need_simple_token := false |})).
    { intros Hcur. destruct l as [|l0 l']; cbn [empty negb andb].
      - cbn [safe]. eapply shape_same; [exact Hlen|exact Hs|exact E|].
        intros _. by apply Hcur.
      - apply Hmerge; [by left|exact Hcl|done|exact Hsingle]. }
    destruct (last cur) as [e|] eqn:Ecur; cbn [bind].
    + destruct (is_str e) eqn:Estr; cbn [bind].
      * destruct (str_entry e Estr) as [s ->]; [by eapply list_ok_last|].
        destruct (eq_str (Tok s) "||" && empty l) eqn:Eop.
        { (* an empty any-of group *)
          apply andb_true_iff in Eop as [_ Hempty].
          destruct l; [|discriminate Hempty]. cbn [app].
          unfold empty_any_of. rewrite Hcls.
          rewrite (on_level_ok _ _ _ _ E).
          destruct (negb (empty_groups_always_true (eapi_attrs a)));
            cbn [bind empty negb andb].
          - apply Hmerge; [by right| |done|by left].
            unfold closed, list_ok. by destruct (strict a).
          - apply (Hpop _ eq_refl eq_refl). }
        destruct (shaped_tok_last s "?") as [q ->]; [by eapply list_ok_last|].
        cbn [bind]. destruct q.
        { (* a conditional *)
          cbn [is_active text_of].
          pose proof (is_active_str_safe s) as Hact.
          destruct (is_active_str a s) as [active|err]; [|exact Hact].
          cbn [bind]. rewrite (on_level_ok _ _ _ _ E). cbn [bind].
          destruct (negb (empty l) && negb (negb active)) eqn:Em.
          - apply Hmerge; [by right|exact Hcl| |exact Hsingle].
            destruct l; [discriminate Em|done].
          - apply (Hpop _ eq_refl eq_refl). }
        cbn [bind]. apply Hkeep. intros ->.
        unfold ends_any_of. rewrite Ecur.
        by rewrite andb_true_r in Eop.
      * apply Hkeep. intros _. unfold ends_any_of. rewrite Ecur.
        by destruct e.
    + apply Hkeep. intros _. unfold ends_any_of. by rewrite Ecur.
Qed.

Lemma list_ok_nil : list_ok a [] = true.
Proof. by apply list_ok_intro. Qed.

Lemma push_ok (st : state) (d : dep) (nb nst : bool) :
  shape a st -> shaped a d = true ->
  need_bracket st = false \/ is_src_uri a = true ->
  (eq_str d "||" = true -> nb = true /\ is_src_uri a = false) ->
  safe a (push st d nb nst).
Proof.
  intros [Hd Hs Ht] Hshaped Hfree Hop. unfold push.
  destruct (lookup_lt_is_Some_2 (stack st) (level st)) as [top E]; [lia|].
  rewrite (on_level_ok _ _ _ _ E). cbn [bind safe].
  assert (Htop : last (stack st) = Some top).
  { rewrite last_lookup, Hd. exact E. }
  assert (Hends : strict a = true -> ends_any_of top = false).
  { intros Hst. destruct (ends_any_of top) eqn:Ee; [|reflexivity].
    destruct (Ht top Htop Hst Ee) as [? ?]. destruct Hfree; congruence. }
  split; cbn.
  - by rewrite length_insert.
  - apply stack_ok_insert; [exact Hs|].
    apply list_ok_app; [by eapply stack_ok_at| |].
    + apply list_ok_intro; [by repeat constructor|done].
    + intros Hst Ee. rewrite (Hends Hst) in Ee. discriminate Ee.
  - intros top' Htop' Hst Ee.
    assert (top' = top ++ [d]) as ->.
    { rewrite last_lookup, length_insert, Hd in Htop'. cbn in Htop'.
      rewrite list_lookup_insert_eq in Htop' by lia. by injection Htop'. }
    rewrite ends_app_r in Ee by done.
    unfold ends_any_of in Ee. cbn in Ee. by apply Hop.
Qed.

Lemma eq_str_tok (s t : string) : s <> t -> eq_str (Tok s) t = false.
Proof.
  intros Hne. unfold eq_str. apply bool_decide_eq_false. cbn. congruence.
Qed.

Lemma plain_token_ok (token : string) (st : state) :
  token_class a = None -> token <> EmptyString -> token <> "||" ->
  shape a st -> safe a (plain_token a token st).
Proof.
  intros Hcls Hne Hor Hst. unfold plain_token.
  destruct (need_bracket st) eqn:Enb; [done|].
  destruct (need_simple_token st && Py.contains token "/"); [done|].
  assert (Hpush : forall nb nst, safe a (push st (Tok token) nb nst)).
  { intros nb nst. apply push_ok; [exact Hst|by destruct token|by left|].
    by rewrite eq_str_tok. }
  destruct (Py.ends_with_char "?" token); [apply Hpush|].
  destruct (is_src_uri a).
  - destruct (negb _ && _); [done|apply Hpush].
  - rewrite Hcls. apply Hpush.
Qed.

Lemma step_ok (mysplit : list string) (pos : nat) (token : string)
    (st : state) :
  token_class a = None -> token <> EmptyString ->
  shape a st -> safe a (step a mysplit (pos, token) st).
Proof.
  intros Hcls Hne Hst. unfold step.
  case_bool_decide as Hopen.
  { destruct (need_simple_token st); [done|].
    case_bool_decide; [done|]. destruct Hst as [Hd Hs Ht].
    split; cbn.
    - rewrite List.length_app. cbn. lia.
    - apply Forall_app. split; [exact Hs|].
      constructor; [apply list_ok_nil|constructor].
    - intros top Htop _ Ee. rewrite last_snoc in Htop.
      injection Htop as <-. discriminate Ee. }
  case_bool_decide as Hclose; [by apply close_bracket_ok|].
  case_bool_decide as Hor.
  { destruct (is_src_uri a) eqn:Esrc; [done|].
    destruct (need_bracket st) eqn:Enb; [done|].
    apply push_ok; [exact Hst|by subst|by left|done]. }
  case_bool_decide as Harrow.
  { destruct (need_simple_token st); [done|].
    destruct (is_src_uri a) eqn:Esrc; [|done]. cbn [negb].
    destruct (negb _); [done|].
    apply push_ok; [exact Hst|by subst|by right|].
    subst. intros Habs. discriminate Habs. }
  by apply plain_token_ok.
Qed.

Lemma loop_ok (mysplit : list string) (todo : list (nat * string))
    (st : state) :
  token_class a = None ->
  Forall (fun pt => pt.2 <> EmptyString) todo ->
  shape a st -> safe a (for_each (step a mysplit) todo st).
Proof.
  intros Hcls Htodo. revert st.
  induction Htodo as [|[pos token] todo Hne _ IH]; intros st Hst; [exact Hst|].
  cbn [for_each]. pose proof (step_ok mysplit pos token st Hcls Hne Hst) as Hs.
  destruct (step a mysplit (pos, token) st) as [st'|e]; [|exact Hs].
  cbn [bind]. by apply IH.
Qed.

Lemma shape_initial : shape a initial.
Proof.
  split; cbn; [reflexivity|constructor; [apply list_ok_nil|constructor]|].
  intros top Htop _ Ee. injection Htop as <-. discriminate Ee.
Qed.

Lemma rev_app_nonempty (s t : string) :
  s <> EmptyString \/ t <> EmptyString -> String.rev_app s t <> EmptyString.
Proof.
  revert t. induction s as [|c s IH]; intros t Hst; cbn.
  - by destruct Hst.
  - apply IH. by right.
Qed.

Lemma split_go_nonempty (cur : option string) (s : string) :
  (forall c, cur = Some c -> c <> EmptyString) ->
  Forall (fun t => t <> EmptyString) (Py.split_go cur s).
Proof.
  revert cur. induction s as [|c s IH]; intros cur Hcur; cbn [Py.split_go].
  - destruct cur as [t|]; cbn; [|constructor].
    repeat constructor. apply rev_app_nonempty. left. by apply Hcur.
  - destruct (Py.is_space c).
    + apply Forall_app. split; [|by apply IH].
      destruct cur as [t|]; cbn; [|constructor].
      repeat constructor. apply rev_app_nonempty. left. by apply Hcur.
    + apply IH. by intros ? [= <-].
Qed.

Lemma split_nonempty (s : string) :
  Forall (fun t => t <> EmptyString) (Py.split s).
Proof. by apply split_go_nonempty. Qed.

Lemma enumerate_nonempty (l : list string) :
  Forall (fun t => t <> EmptyString) l ->
  Forall (fun pt : nat * string => pt.2 <> EmptyString) (enumerate l).
Proof.
  unfold enumerate. generalize 0%nat.
  induction l as [|t l IH]; intros n Hl; [constructor|].
  apply Forall_cons in Hl as [Ht Hl]. cbn. constructor; [exact Ht|].
  by apply IH.
Qed.

(** C9 (amended): when the tokens of the string contain ["("] directly
    followed by [")"] and no [subset] is given (it is [None] or empty),
    [use_reduce] never returns, for any EAPI: it raises [ValueError] when
    [opconvert] and [flat], or [matchall] and [matchnone], are both set;
    otherwise it raises, and what it raises is [InvalidDependString]
    whenever no [token_class] is given. *)
Theorem empty_group_rejected (pre post : list string) :
  Py.split (depstr a) = pre ++ "(" :: ")" :: post ->
  subset a = None \/ subset a = Some ∅ ->
  (exists e, _use_reduce_cached a = Raise e) /\
  (opconvert a && flat a || matchall a && matchnone a = true ->
   _use_reduce_cached a = Raise ValueError) /\
  (opconvert a && flat a || matchall a && matchnone a = false ->
   token_class a = None ->
   _use_reduce_cached a = Raise InvalidDependString).
Proof.
  intros Hsplit Hsub.
  assert (Hloop : _use_reduce_cached a
            = if opconvert a && flat a then Raise ValueError
              else if matchall a && matchnone a then Raise ValueError
              else match for_each (step a (pre ++ "(" :: ")" :: post))
                           (enumerate pre) initial with
                   | Ok _ => Raise InvalidDependString
                   | Raise e => Raise e
                   end).
  { unfold _use_reduce_cached.
    destruct (opconvert a && flat a); [reflexivity|].
    destruct (matchall a && matchnone a); [reflexivity|].
    assert ((match subset a with
             | Some target =>
                 if bool_decide (target ≠ ∅) then
                   let! reduced := paren_reduce (depstr a) in
                   let! chosen :=
                     select_subset a (S (String.length (depstr a))) target
                       reduced false false in
                   Ok (paren_enclose chosen)
                 else Ok (depstr a)
             | None => Ok (depstr a)
             end) = Ok (depstr a)) as ->.
    { destruct Hsub as [-> | ->]; [reflexivity|].
      by rewrite bool_decide_eq_false_2 by (intros Hne; by apply Hne). }
    cbn [bind]. unfold reduce_tokens. rewrite Hsplit, loop_empty_group.
    by destruct (for_each _ (enumerate pre) initial). }
  rewrite Hloop. clear Hloop.
  destruct (opconvert a && flat a);
    [split; [eauto|split; [done|intros Habs; discriminate Habs]]|].
  destruct (matchall a && matchnone a);
    [split; [eauto|split; [done|intros Habs; discriminate Habs]]|].
  cbn [orb]. split; [|split; [done|]].
  - destruct (for_each _ (enumerate pre) initial); eauto.
  - intros _ Hcls.
    pose proof (loop_ok (pre ++ "(" :: ")" :: post) (enumerate pre) initial
                  Hcls) as Hsafe.
    destruct (for_each _ (enumerate pre) initial) as [st|e]; [reflexivity|].
    cbn in Hsafe. rewrite Hsafe; [reflexivity| |apply shape_initial].
    apply enumerate_nonempty.
    pose proof (split_nonempty (depstr a)) as Hall. rewrite Hsplit in Hall.
    by apply Forall_app in Hall as [? _].
Qed.

End ReduceProperties.

Lemma empty_group_rejected_witness :
  Py.split (Reduce.depstr (Fixture.reduce_args "a ( )" ∅))
  = ["a"] ++ "(" :: ")" :: [] /\
  (Reduce.subset (Fixture.reduce_args "a ( )" ∅) = None
   \/ Reduce.subset (Fixture.reduce_args "a ( )" ∅) = Some ∅) /\
  @Reduce._use_reduce_cached Fixture.portage (Fixture.reduce_args "a ( )" ∅)
  = Raise InvalidDependString.
Proof.
  split; [reflexivity|]. split; [by left|].
  apply (@empty_group_rejected Fixture.portage
           (Fixture.reduce_args "a ( )" ∅) ["a"] []);
    [reflexivity|by left|reflexivity|reflexivity].
Defined.

(** C9, as first stated, fails in two ways: with [opconvert] and [flat]
    both set the call raises [ValueError] before it looks at the string,
    and with a [subset] the subset pass drops the empty group, so that the
    string is accepted. *)
Lemma empty_group_counterexample :
  Py.split "a ( )" = ["a"; "("; ")"] /\
  @Reduce._use_reduce_cached Fixture.portage
    (Fixture.reduce_modes "a ( )" true true None) = Raise ValueError /\
  @Reduce._use_reduce_cached Fixture.portage
    (Fixture.reduce_modes "a ( )" false false (Some {["x"]})) = Ok [] /\
  ~ (forall a : Reduce.args,
        (exists pre post, Py.split (Reduce.depstr a) = pre ++ "(" :: ")" :: post) ->
        @Reduce._use_reduce_cached Fixture.portage a
        = Raise InvalidDependString).
Proof.
  split; [reflexivity|]. split; [reflexivity|].
  split; [vm_compute; reflexivity|].
  intros Hall.
  specialize (Hall (Fixture.reduce_modes "a ( )" true true None)).
  assert (@Reduce._use_reduce_cached Fixture.portage
            (Fixture.reduce_modes "a ( )" true true None)
          = Raise InvalidDependString) as Habs
    by (apply Hall; by exists ["a"], []).
  discriminate Habs.
Qed.

(** an empty any-of group that is not literally empty is another matter:
    it is reduced away, or to the constant that cannot be satisfied *)
Example empty_any_of_group_reduced :
  @Reduce._use_reduce_cached Fixture.portage
    (Fixture.reduce_args "|| ( foo? ( a ) )" ∅) = Ok [].
Proof. vm_compute. reflexivity. Qed.

(** ** The cache of [use_reduce] *)

Section MemoProperties.

Import Memo.

Context `{Portage}.

(** an exception of [_use_reduce_cached] is not cached: it reaches the
    caller of [use_reduce] and leaves the cache as it was *)
Lemma use_reduce_raises (c : call) (st : state) (e : exn) :
  List.find (fun en => bool_decide (en.1 = key_of c)) (cache st) = None ->
  Reduce._use_reduce_cached (c_args c) = Raise e ->
  use_reduce c st = (Raise e, st).
Proof.
  intros Hmiss Hraise. unfold use_reduce, cached. by rewrite Hmiss, Hraise.
Qed.

Lemma cached_entry (c : call) (st st' : state) (r : nat) :
  cached c st = (Ok r, st') ->
  exists rest, cache st' = (key_of c, r) :: rest.
Proof.
  unfold cached. intros Hc.
  destruct (List.find _ (cache st)) as [[k r0]|] eqn:Ef.
  - injection Hc as <- <-. cbn. eauto.
  - destruct (Reduce._use_reduce_cached (c_args c)) as [l|e];
      [|discriminate Hc].
    destruct (store (Reduce.Sub l) (cells st)) as [[s|o|r0] h];
      try discriminate Hc.
    injection Hc as <- <-. cbn. change maxsize with (S 1023). cbn. eauto.
Qed.

(** the list that [use_reduce] returns is a new object, and its entries
    are the entries of the cached list: the nested lists are the cached
    ones *)
Lemma use_reduce_copies_one_level (c : call) (st st' : state) (r : nat) :
  use_reduce c st = (Ok r, st') ->
  exists r0 vs rest,
    cache st' = (key_of c, r0) :: rest /\ r0 <> r /\
    cells st' !! r0 = Some vs /\ cells st' !! r = Some vs.
Proof.
  unfold use_reduce. intros Hu.
  destruct (cached c st) as [[r0|e] st1] eqn:Ec; [|discriminate Hu].
  destruct (cached_entry _ _ _ _ Ec) as [rest Hrest].
  unfold copy in Hu.
  destruct (cells st1 !! r0) as [vs|] eqn:E0; [|discriminate Hu].
  cbn [bind] in Hu. injection Hu as <- <-. cbn [cells cache].
  pose proof (lookup_lt_Some _ _ _ E0) as Hlt.
  exists r0, vs, rest. repeat split.
  - exact Hrest.
  - lia.
  - by apply lookup_app_l_Some.
  - by apply list_lookup_middle.
Qed.

End MemoProperties.

(** C5: the copy that [use_reduce] returns is one level deep.  A caller
    that appends to the returned list leaves later results alone; a
    caller that appends to a nested sublist changes the cached object,
    and the next call with the same arguments returns the changed
    reduction instead of the reduction of its arguments. *)
Theorem use_reduce_shares_sublists :
  @Reduce._use_reduce_cached Fixture.portage
    (Memo.c_args (Fixture.reduce_call "|| ( a b )"))
  = Ok [Reduce.Tok "||"; Reduce.Sub [Reduce.Tok "a"; Reduce.Tok "b"]] /\
  @Memo.second_call Fixture.portage (Fixture.reduce_call "|| ( a b )")
    (fun r h => Memo.append h r (Memo.VTok "x"))
  = Ok (Reduce.Sub
          [Reduce.Tok "||"; Reduce.Sub [Reduce.Tok "a"; Reduce.Tok "b"]]) /\
  @Memo.second_call Fixture.portage (Fixture.reduce_call "|| ( a b )")
    (fun r h =>
       let! v := Memo.item h r 1 in
       match v with
       | Memo.VRef n => Memo.append h n (Memo.VTok "x")
       | _ => Raise TypeError
       end)
  = Ok (Reduce.Sub
          [Reduce.Tok "||";
           Reduce.Sub [Reduce.Tok "a"; Reduce.Tok "b"; Reduce.Tok "x"]]).
Proof. repeat split; vm_compute; reflexivity. Qed.

(** ** What [use_reduce] returns *)

Section ReduceShape.

Import Reduce.

Context `{Portage}.

Variable a : args.

Lemma reduce_tokens_closed (tokens : list string) :
  token_class a = None ->
  Forall (fun t => t <> EmptyString) tokens ->
  match reduce_tokens a tokens with
  | Ok l => closed a l = true
  | Raise e => e = InvalidDependString
  end.
Proof.
  intros Hcls Hne. unfold reduce_tokens.
  pose proof (loop_ok a tokens (enumerate tokens) initial Hcls
                (enumerate_nonempty tokens Hne) (shape_initial a)) as Hsafe.
  destruct (for_each (step a tokens) (enumerate tokens) initial) as [st|e];
    [|exact Hsafe].
  cbn [bind]. cbn in Hsafe. destruct Hsafe as [Hd Hs Ht].
  case_bool_decide as Hlv; [reflexivity|].
  destruct (need_bracket st) eqn:Enb; [reflexivity|].
  destruct (need_simple_token st); [reflexivity|].
  assert (level st = 0%nat) as Hz by (destruct (level st); [done|by destruct Hlv]).
  rewrite Hz in Hd.
  destruct (stack st) as [|top [|? ?]] eqn:Estk; try discriminate Hd.
  cbn. apply closed_intro.
  - by eapply stack_ok_at with (k := 0%nat).
  - intros Hst. destruct (ends_any_of top) eqn:Ee; [|reflexivity].
    destruct (Ht top eq_refl Hst Ee) as [? _]. congruence.
Qed.

Lemma no_subset_pass :
  subset a = None \/ subset a = Some ∅ ->
  _use_reduce_cached a
  = if opconvert a && flat a then Raise ValueError
    else if matchall a && matchnone a then Raise ValueError
    else reduce_tokens a (Py.split (depstr a)).
Proof.
  intros Hsub. unfold _use_reduce_cached.
  destruct (opconvert a && flat a); [reflexivity|].
  destruct (matchall a && matchnone a); [reflexivity|].
  destruct Hsub as [-> | ->]; [reflexivity|].
  by rewrite bool_decide_eq_false_2 by (intros Hne; by apply Hne).
Qed.

(** With no [token_class] and no [subset], [use_reduce] fails in two ways
    only: [ValueError] for contradictory flags and [InvalidDependString]
    for the string; no index or attribute error escapes the loop. *)
Theorem use_reduce_error_kinds :
  token_class a = None ->
  subset a = None \/ subset a = Some ∅ ->
  match _use_reduce_cached a with
  | Ok _ => True
  | Raise e => e = ValueError \/ e = InvalidDependString
  end.
Proof.
  intros Hcls Hsub. rewrite (no_subset_pass Hsub).
  destruct (opconvert a && flat a); [by left|].
  destruct (matchall a && matchnone a); [by left|].
  pose proof (reduce_tokens_closed (Py.split (depstr a)) Hcls
                (split_nonempty _)) as Hc.
  destruct (reduce_tokens a (Py.split (depstr a))); [done|by right].
Qed.

(** In flat mode the result holds non-empty strings only, no list. *)
Theorem use_reduce_flat_result (l : list dep) :
  token_class a = None ->
  subset a = None \/ subset a = Some ∅ ->
  flat a = true ->
  _use_reduce_cached a = Ok l ->
  Forall (fun d => exists s, d = Tok s /\ s <> EmptyString) l.
Proof.
  intros Hcls Hsub Hflat Hres. rewrite (no_subset_pass Hsub) in Hres.
  destruct (opconvert a && flat a); [discriminate Hres|].
  destruct (matchall a && matchnone a); [discriminate Hres|].
  pose proof (reduce_tokens_closed (Py.split (depstr a)) Hcls
                (split_nonempty _)) as Hc.
  rewrite Hres in Hc. apply closed_list_ok, list_ok_shaped in Hc.
  eapply Forall_impl; [exact Hc|]. intros d Hd. cbn beta in Hd.
  destruct (flat_entry a d Hflat Hd) as [s ->]. exists s. split; [done|].
  by destruct s.
Qed.

(** With neither [flat] nor [opconvert], every [||] of the result, at any
    depth, is directly followed by its group, and no list ends in [||]. *)
Theorem use_reduce_groups_follow_any_of (l : list dep) :
  token_class a = None ->
  subset a = None \/ subset a = Some ∅ ->
  flat a = false -> opconvert a = false ->
  _use_reduce_cached a = Ok l ->
  paired l = true /\ ends_any_of l = false /\
  Forall (fun d => shaped a d = true) l.
Proof.
  intros Hcls Hsub Hflat Hop Hres. rewrite (no_subset_pass Hsub) in Hres.
  destruct (opconvert a && flat a); [discriminate Hres|].
  destruct (matchall a && matchnone a); [discriminate Hres|].
  pose proof (reduce_tokens_closed (Py.split (depstr a)) Hcls
                (split_nonempty _)) as Hc.
  rewrite Hres in Hc.
  assert (Hst : strict a = true) by (unfold strict; by rewrite Hflat, Hop).
  split; [|split].
  - apply (list_ok_paired a); [by apply closed_list_ok|exact Hst].
  - by apply (closed_ends a l).
  - by apply list_ok_shaped, closed_list_ok.
Qed.

End ReduceShape.

Section ReduceTokens.

Import Reduce.

Context `{Portage}.

Variable a : args.

Lemma plain_loop (mysplit tokens : list string) (n : nat) (acc : list dep) :
  token_class a = None -> is_src_uri a = false ->
  forallb plain tokens = true ->
  for_each (step a mysplit) (zip (seq n (length tokens)) tokens)
    {| stack := [acc]; level := 0; need_bracket := false;
       need_simple_token := false |}
  = Ok {| stack := [acc ++ (Tok <$> tokens)]; level := 0;
          need_bracket := false; need_simple_token := false |}.
Proof.
  intros Hcls Hsrc. revert n acc.
  induction tokens as [|t tokens IH]; intros n acc Hp.
  - cbn. by rewrite app_nil_r.
  - cbn [forallb] in Hp. apply andb_true_iff in Hp as [Ht Hp].
    unfold plain in Ht. apply andb_true_iff in Ht as [Hsp Hq].
    apply negb_true_iff, bool_decide_eq_false in Hsp.
    apply negb_true_iff in Hq.
    cbn [length seq zip zip_with for_each].
    assert (step a mysplit (n, t)
              {| stack := [acc]; level := 0; need_bracket := false;
                 need_simple_token := false |}
            = Ok {| stack := [acc ++ [Tok t]]; level := 0;
                    need_bracket := false; need_simple_token := false |})
      as ->.
    { unfold step.
      rewrite !bool_decide_eq_false_2 by (intros ->; apply Hsp; set_solver).
      unfold plain_token. cbn [need_bracket need_simple_token andb].
      rewrite Hq, Hsrc, Hcls. reflexivity. }
    cbn [bind]. rewrite IH by exact Hp.
    by rewrite <- app_assoc.
Qed.

(** A string of plain tokens is returned as the list of its tokens. *)
Theorem use_reduce_plain_tokens :
  token_class a = None -> is_src_uri a = false ->
  subset a = None \/ subset a = Some ∅ ->
  opconvert a && flat a = false -> matchall a && matchnone a = false ->
  forallb plain (Py.split (depstr a)) = true ->
  _use_reduce_cached a = Ok (Tok <$> Py.split (depstr a)).
Proof.
  intros Hcls Hsrc Hsub Hm1 Hm2 Hp.
  rewrite (no_subset_pass a Hsub), Hm1, Hm2.
  unfold reduce_tokens, enumerate, initial.
  rewrite (plain_loop _ _ 0 [] Hcls Hsrc Hp). reflexivity.
Qed.

(** the level of the state counts the open brackets *)

Lemma push_level (st st' : state) d nb nst :
  push st d nb nst = Ok st' -> level st' = level st.
Proof.
  unfold push. destruct (on_level _ _ _); [|discriminate].
  by intros [= <-].
Qed.

Lemma plain_token_level (t : string) (st st' : state) :
  plain_token a t st = Ok st' -> level st' = level st.
Proof.
  unfold plain_token.
  destruct (need_bracket st); [discriminate|].
  destruct (_ && _); [discriminate|].
  destruct (Py.ends_with_char "?" t); [apply push_level|].
  destruct (is_src_uri a).
  - destruct (_ && _); [discriminate|apply push_level].
  - destruct (token_class a) as [make|]; [|apply push_level].
    destruct (make _ _ _); [|discriminate].
    destruct (if negb (matchall a) then _ else _); [|discriminate].
    apply push_level.
Qed.

Lemma close_bracket_level (st st' : state) :
  close_bracket a st = Ok st' -> S (level st') = level st.
Proof.
  unfold close_bracket.
  destruct (need_bracket st); [discriminate|].
  destruct (need_simple_token st); [discriminate|].
  case_bool_decide as Hlv; [|discriminate].
  destruct (last (stack st)) as [l|]; [|discriminate]. cbn [of_option bind].
  destruct (at_level _ _) as [cur|]; [|discriminate]. cbn [bind]. cbv zeta.
  assert (Hdone : forall r : result (list (list dep)),
             (let! stk := r in
              Ok {| stack := stk; level := level st - 1; need_bracket := false;
                    need_simple_token := false |}) = Ok st' ->
             S (level st') = level st).
  { intros [stk|e]; [|discriminate]. intros [= <-]. cbn. lia. }
  destruct (flat a).
  - destruct (match last cur with Some e => last_eq e "?" | None => Ok false end)
      as [[|]|]; cbn [bind]; [| |discriminate].
    + destruct (is_active a _); [|discriminate]. cbn [bind]. apply Hdone.
    + apply Hdone.
  - match goal with
    | |- (let! lis := ?m in _) = _ -> _ => destruct m as [[[l' ignore] stk]|]
    end; [|discriminate].
    cbn [bind]. destruct (negb (empty l') && negb ignore).
    + apply Hdone.
    + apply (Hdone (Ok stk)).
Qed.

Lemma step_level (mysplit : list string) pos (t : string) (st st' : state) :
  step a mysplit (pos, t) st = Ok st' ->
  (level st' + (if bool_decide (t = ")") then 1 else 0)
   = level st + (if bool_decide (t = "(") then 1 else 0))%nat.
Proof.
  unfold step. case_bool_decide as Ho.
  { subst t. rewrite (bool_decide_eq_false_2 ("(" = ")")) by discriminate.
    destruct (need_simple_token st); [discriminate|].
    case_bool_decide; [discriminate|]. intros [= <-]. cbn. lia. }
  case_bool_decide as Hc.
  { intros Hcl. apply close_bracket_level in Hcl. lia. }
  assert (Hsame : level st' = level st ->
                  (level st' + 0 = level st + 0)%nat) by lia.
  case_bool_decide.
  { destruct (is_src_uri a); [discriminate|].
    destruct (need_bracket st); [discriminate|].
    intros Hp. apply Hsame. by eapply push_level. }
  case_bool_decide.
  { destruct (need_simple_token st); [discriminate|].
    destruct (negb (is_src_uri a)); [discriminate|].
    destruct (negb _); [discriminate|].
    intros Hp. apply Hsame. by eapply push_level. }
  intros Hp. apply Hsame. by eapply plain_token_level.
Qed.

Lemma loop_level (mysplit : list string) (todo : list (nat * string))
    (st st' : state) :
  for_each (step a mysplit) todo st = Ok st' ->
  (level st' + count ")" todo.*2 = level st + count "(" todo.*2)%nat.
Proof.
  revert st. induction todo as [|[pos t] todo IH]; intros st.
  - intros [= <-]. cbn. lia.
  - cbn [for_each]. destruct (step a mysplit (pos, t) st) as [st1|] eqn:Es;
      [|discriminate].
    cbn [bind]. intros Hrest. apply IH in Hrest. apply step_level in Es.
    unfold count in *. cbn [fmap list_fmap snd]. rewrite !filter_cons.
    repeat case_decide; repeat case_bool_decide; cbn [length] in *;
      try congruence; lia.
Qed.

Lemma enumerate_tokens (l : list string) : (enumerate l).*2 = l.
Proof. unfold enumerate. apply snd_zip. by rewrite length_seq. Qed.

(** A string that is reduced has balanced brackets: as many [(] as [)],
    and in no prefix more [)] than [(]. *)
Theorem use_reduce_balanced (l : list dep) :
  subset a = None \/ subset a = Some ∅ ->
  _use_reduce_cached a = Ok l ->
  count "(" (Py.split (depstr a)) = count ")" (Py.split (depstr a)) /\
  forall pre post, Py.split (depstr a) = pre ++ post ->
    (count ")" pre <= count "(" pre)%nat.
Proof.
  intros Hsub Hres. rewrite (no_subset_pass a Hsub) in Hres.
  destruct (opconvert a && flat a); [discriminate Hres|].
  destruct (matchall a && matchnone a); [discriminate Hres|].
  unfold reduce_tokens in Hres.
  destruct (for_each _ _ initial) as [st|] eqn:Eloop; [|discriminate Hres].
  cbn [bind] in Hres. case_bool_decide as Hlv; [discriminate Hres|].
  assert (level st = 0%nat) as Hz by (destruct (level st); [done|by destruct Hlv]).
  split.
  - apply loop_level in Eloop. rewrite enumerate_tokens, Hz in Eloop.
    cbn in Eloop. lia.
  - intros pre post Hsplit. rewrite Hsplit in Eloop.
    unfold enumerate in Eloop. rewrite zip_seq_app, for_each_app in Eloop.
    destruct (for_each _ (zip (seq 0 (length pre)) pre) initial) as [st1|] eqn:E1;
      [|discriminate Eloop].
    apply loop_level in E1.
    change (zip (seq 0 (length pre)) pre) with (enumerate pre) in E1.
    rewrite enumerate_tokens in E1. cbn in E1. lia.
Qed.

End ReduceTokens.

Lemma use_reduce_error_kinds_witness :
  Reduce.token_class (Fixture.reduce_args "|| a" ∅) = None /\
  (Reduce.subset (Fixture.reduce_args "|| a" ∅) = None
   \/ Reduce.subset (Fixture.reduce_args "|| a" ∅) = Some ∅) /\
  match @Reduce._use_reduce_cached Fixture.portage
          (Fixture.reduce_args "|| a" ∅) with
  | Ok _ => True
  | Raise e => e = ValueError \/ e = InvalidDependString
  end.
Proof.
  split; [reflexivity|]. split; [by left|].
  apply (@use_reduce_error_kinds Fixture.portage); [reflexivity|by left].
Defined.

Lemma use_reduce_flat_result_witness :
  Reduce.flat (Fixture.reduce_modes "a || ( b ( c d ) )" false true None) = true /\
  @Reduce._use_reduce_cached Fixture.portage
    (Fixture.reduce_modes "a || ( b ( c d ) )" false true None)
  = Ok (Reduce.Tok <$> ["a"; "||"; "b"; "c"; "d"]) /\
  Forall (fun d => exists s, d = Reduce.Tok s /\ s <> EmptyString)
    (Reduce.Tok <$> ["a"; "||"; "b"; "c"; "d"]).
Proof.
  split; [reflexivity|]. split; [vm_compute; reflexivity|].
  apply (@use_reduce_flat_result Fixture.portage
           (Fixture.reduce_modes "a || ( b ( c d ) )" false true None));
    [reflexivity|by left|reflexivity|vm_compute; reflexivity].
Defined.

Lemma use_reduce_groups_follow_any_of_witness :
  @Reduce._use_reduce_cached Fixture.portage
    (Fixture.reduce_args "a || ( b ( c d ) )" ∅)
  = Ok [Reduce.Tok "a"; Reduce.Tok "||";
        Reduce.Sub [Reduce.Tok "b"; Reduce.Sub [Reduce.Tok "c"; Reduce.Tok "d"]]] /\
  Reduce.paired
    [Reduce.Tok "a"; Reduce.Tok "||";
     Reduce.Sub [Reduce.Tok "b"; Reduce.Sub [Reduce.Tok "c"; Reduce.Tok "d"]]]
  = true.
Proof.
  split; [vm_compute; reflexivity|].
  apply (@use_reduce_groups_follow_any_of Fixture.portage
           (Fixture.reduce_args "a || ( b ( c d ) )" ∅));
    [reflexivity|by left|reflexivity|reflexivity|vm_compute; reflexivity].
Defined.

Lemma use_reduce_plain_tokens_witness :
  forallb Reduce.plain (Py.split "cat/a cat/b cat/c") = true /\
  @Reduce._use_reduce_cached Fixture.portage
    (Fixture.reduce_args "cat/a cat/b cat/c" ∅)
  = Ok (Reduce.Tok <$> ["cat/a"; "cat/b"; "cat/c"]).
Proof.
  split; [vm_compute; reflexivity|].
  apply (@use_reduce_plain_tokens Fixture.portage
           (Fixture.reduce_args "cat/a cat/b cat/c" ∅));
    [reflexivity|reflexivity|by left|reflexivity|reflexivity
    |vm_compute; reflexivity].
Defined.

Lemma use_reduce_balanced_witness :
  @Reduce._use_reduce_cached Fixture.portage
    (Fixture.reduce_args "a? ( b ( c ) )" {["a"]})
  = Ok [Reduce.Tok "b"; Reduce.Tok "c"] /\
  Reduce.count "(" (Py.split "a? ( b ( c ) )")
  = Reduce.count ")" (Py.split "a? ( b ( c ) )").
Proof.
  split; [vm_compute; reflexivity|].
  apply (@use_reduce_balanced Fixture.portage
           (Fixture.reduce_args "a? ( b ( c ) )" {["a"]})
           [Reduce.Tok "b"; Reduce.Tok "c"]);
    [by left|vm_compute; reflexivity].
Defined.

(** ** Lists of matches *)

Section MatchLists.

Import Match.

Context `{Portage}.

Lemma select_loop_sublist (keep : candidate -> result bool)
    (l acc res : list candidate) :
  for_each (fun x (mylist : list candidate) =>
              let! k := keep x in
              Ok (if k then mylist ++ [x] else mylist)) l acc = Ok res ->
  exists kept, res = acc ++ kept /\ sublist kept l.
Proof.
  revert acc. induction l as [|x l IH]; intros acc Hres.
  - injection Hres as <-. exists []. by rewrite app_nil_r.
  - cbn [for_each] in Hres. destruct (keep x) as [k|]; [|discriminate].
    cbn [bind] in Hres. apply IH in Hres as (kept & -> & Hsub).
    destruct k.
    + exists (x :: kept). rewrite <- app_assoc. split; [done|].
      by apply sublist_skip.
    + exists kept. split; [done|]. by apply sublist_cons.
Qed.

Lemma select_sublist (keep : candidate -> result bool)
    (l res : list candidate) :
  select keep l = Ok res -> sublist res l.
Proof.
  intros Hres. apply select_loop_sublist in Hres as (kept & -> & Hsub).
  exact Hsub.
Qed.

Lemma by_operator_sublist mydep cps ver op (l res : list candidate) :
  by_operator mydep cps ver op l = Ok res -> sublist res l.
Proof.
  unfold by_operator. destruct (Atom.extended_syntax mydep).
  - destruct (select (keep_extended mydep) l) as [l1|] eqn:E1; [|discriminate].
    cbn [bind]. apply select_sublist in E1.
    destruct (_ && _).
    + destruct (Atom.version mydep); [|discriminate]. cbn [of_option bind].
      intros E2. apply select_sublist in E2. by etrans.
    + by intros [= <-].
  - destruct op as [op|]; [|apply select_sublist].
    repeat case_bool_decide; try discriminate;
      repeat match goal with
        | |- (let! _ := of_option _ ?o in _) = _ -> _ =>
            destruct o; [|discriminate]; cbn [of_option bind]
        end;
      apply select_sublist.
Qed.

(** [match_from_list] only selects: what it returns is a sub-sequence of
    the candidates, in their order *)
Theorem match_from_list_sublist (mydep : dep_arg)
    (candidate_list res : list candidate) :
  match_from_list mydep candidate_list = Ok res ->
  sublist res candidate_list.
Proof.
  unfold match_from_list.
  destruct candidate_list as [|x0 cl0] eqn:Ecl; [by intros [= <-]|].
  rewrite <- Ecl. clear Ecl x0 cl0.
  match goal with
  | |- (let! _ := ?m in _) = _ -> _ => destruct m as [a|]; [|discriminate]
  end.
  cbn [bind].
  match goal with
  | |- (let! _ := ?m in _) = _ -> _ => destruct m as [[ver rev]|]; [|discriminate]
  end.
  cbn [bind].
  destruct (_ && _ && _); [intros [= <-]; apply sublist_nil_l|].
  destruct (by_operator _ _ _ _ _) as [l1|] eqn:E1; [|discriminate].
  apply by_operator_sublist in E1. cbn [bind].
  destruct (filter_slot a l1) as [l2|] eqn:E2; [|discriminate]. cbn [bind].
  destruct (filter_use a l2) as [l3|] eqn:E3; [|discriminate]. cbn [bind].
  intros E4.
  assert (sublist l2 l1) as H21.
  { unfold filter_slot in E2. destruct (Atom.slot a);
      [by apply select_sublist in E2|by injection E2 as <-]. }
  assert (sublist l3 l2) as H32.
  { unfold filter_use in E3. destruct (Atom.use_truthy _);
      [by apply select_sublist in E3|by injection E3 as <-]. }
  assert (sublist res l3) as H43.
  { unfold filter_repo in E4. destruct (Atom.repo a) as [r|];
      [destruct (Py.truthy r)|];
      [by apply select_sublist in E4|by injection E4 as <-..]. }
  by repeat (etrans; [eassumption|]).
Qed.


Lemma match_to_list_loop (mypkg : candidate) (l : list Atom.t)
    (matches matches' : gset string) (out out' : list Atom.t) :
  for_each (fun x (acc : gset string * list Atom.t) =>
              let '(matches, out) := acc in
              if bool_decide (Atom.text x ∈ matches) then Ok acc
              else
                let matches := {[Atom.text x]} ∪ matches in
                let! m := match_from_list (DAtom x) [mypkg] in
                Ok (matches, if bool_decide (m ≠ []) then out ++ [x] else out))
    l (matches, out) = Ok (matches', out') ->
  (forall t, t ∈ Atom.text <$> out -> t ∈ matches) ->
  NoDup (Atom.text <$> out) ->
  exists kept,
    out' = out ++ kept /\ sublist kept l /\
    NoDup (Atom.text <$> out') /\
    (forall x, x ∈ kept ->
       exists m, match_from_list (DAtom x) [mypkg] = Ok m /\ m <> []).
Proof.
  revert matches out. induction l as [|x l IH]; intros matches out Hres Hin Hnd.
  - injection Hres as <- <-. exists []. rewrite app_nil_r.
    split; [done|]. split; [done|]. split; [done|]. intros x Hx. inversion Hx.
  - cbn [for_each] in Hres. case_bool_decide as Hseen.
    + cbn [bind] in Hres.
      destruct (IH _ _ Hres Hin Hnd) as (kept & -> & Hsub & Hnd' & Hm).
      exists kept. split; [done|]. split; [by apply sublist_cons|]. done.
    + destruct (match_from_list (DAtom x) [mypkg]) as [m|] eqn:Em;
        [|discriminate]. cbn [bind] in Hres. case_bool_decide as Hm.
      * destruct (IH _ _ Hres) as (kept & -> & Hsub & Hnd' & Hk).
        { intros t Ht. rewrite fmap_app in Ht.
          apply elem_of_app in Ht as [Ht|Ht].
          - apply elem_of_union_r. by apply Hin.
          - apply list_elem_of_singleton in Ht as ->.
            by apply elem_of_union_l, elem_of_singleton. }
        { rewrite fmap_app. apply NoDup_app. split; [exact Hnd|].
          split; [|by apply NoDup_singleton].
          intros t Ht Ht'. apply Hseen.
          apply list_elem_of_singleton in Ht' as ->. by apply Hin. }
        exists (x :: kept). split; [by rewrite <- app_assoc|].
        split; [by apply sublist_skip|]. split; [exact Hnd'|].
        intros y Hy. apply elem_of_cons in Hy as [->|Hy]; [eauto|by apply Hk].
      * destruct (IH _ _ Hres) as (kept & -> & Hsub & Hnd' & Hk).
        { intros t Ht. apply elem_of_union_r. by apply Hin. }
        { exact Hnd. }
        exists kept. split; [done|]. split; [by apply sublist_cons|]. done.
Qed.

(** [match_to_list] returns atoms of the list, in their order, each text
    once, and only atoms that match the package *)
Theorem match_to_list_unique (mypkg : candidate) (mylist res : list Atom.t) :
  match_to_list mypkg mylist = Ok res ->
  sublist res mylist /\
  NoDup (Atom.text <$> res) /\
  forall x, x ∈ res ->
    exists m, match_from_list (DAtom x) [mypkg] = Ok m /\ m <> [].
Proof.
  unfold match_to_list.
  destruct (for_each _ mylist (∅, [])) as [[matches' out']|] eqn:Eloop;
    [|discriminate].
  cbn [bind]. intros [= <-]. cbn [snd].
  apply match_to_list_loop in Eloop as (kept & -> & Hsub & Hnd & Hk).
  - done.
  - intros t Ht. inversion Ht.
  - constructor.
Qed.

(** the ranking loop of [best_match_to_list] *)
Lemma rank_keeps (mypkg : candidate) (x : Atom.t) (maxvalue maxvalue' : Z)
    (bestm bestm' : option Atom.t) :
  rank mypkg x (maxvalue, bestm) = Ok (maxvalue', bestm') ->
  (maxvalue = -99 /\ bestm = None) \/ (-2 <= maxvalue /\ bestm <> None) ->
  -2 <= maxvalue' /\ (bestm' = Some x \/ (bestm' = bestm /\ bestm <> None)).
Proof.
  unfold rank. intros Hr Hinv.
  destruct (Atom.extended_syntax x).
  - repeat case_bool_decide; injection Hr as <- <-;
      (split; [lia|]); first [by left|right; split; [done|]];
      destruct Hinv as [[? ?]|[? ?]]; try done; lia.
  - destruct (bool_decide (Atom.slot x ≠ None) && bool_decide (maxvalue < 3))
      eqn:Eslot; cbv beta iota in Hr.
    + destruct (operator_values (Atom.operator x)) as [v|];
        cbn [of_option bind] in Hr; [|discriminate Hr].
      repeat case_bool_decide; cbn [andb] in Hr; try lia;
        injection Hr as <- <-; (split; [lia|by left]).
    + assert (Hv : forall v, operator_values (Atom.operator x) = Some v -> 1 <= v).
      { unfold operator_values. intros v. destruct (Atom.operator x) as [o|];
          [|by intros [= <-]].
        repeat case_bool_decide; intros [= <-]; lia. }
      destruct (operator_values (Atom.operator x)) as [v|];
        cbn [of_option bind] in Hr; [|discriminate Hr].
      specialize (Hv v eq_refl).
      case_bool_decide as Hlt.
      * injection Hr as <- <-. split; [lia|by left].
      * assert (-2 <= maxvalue /\ bestm <> None) as [Hge Hsome].
        { destruct Hinv as [[-> _]|?]; [lia|done]. }
        destruct (bool_decide (v = maxvalue) && bool_decide (v = 2)).
        -- destruct (mypkg_cpv_of mypkg); cbn [bind] in Hr; [|discriminate Hr].
           destruct bestm as [b|]; [|done]. cbn [of_option bind] in Hr.
           destruct (closer _ _ _) as [[|]|]; cbn [bind] in Hr;
             [| |discriminate Hr];
             injection Hr as <- <-; (split; [lia|]); [by left|by right].
        -- injection Hr as <- <-. split; [lia|by right].
Qed.

Lemma rank_loop (mypkg : candidate) (l : list Atom.t) (maxvalue maxvalue' : Z)
    (bestm bestm' : option Atom.t) :
  for_each (rank mypkg) l (maxvalue, bestm) = Ok (maxvalue', bestm') ->
  (maxvalue = -99 /\ bestm = None) \/ (-2 <= maxvalue /\ bestm <> None) ->
  (l = [] /\ bestm' = bestm) \/
  (bestm' <> None /\
   (bestm' = bestm \/ exists b, bestm' = Some b /\ b ∈ l)).
Proof.
  revert maxvalue bestm. induction l as [|x l IH]; intros maxvalue bestm Hr Hinv.
  - injection Hr as <- <-. by left.
  - right. cbn [for_each] in Hr.
    destruct (rank mypkg x (maxvalue, bestm)) as [[mv1 b1]|] eqn:E1;
      [|discriminate Hr].
    cbn [bind] in Hr. apply rank_keeps in E1 as [Hge Hb1]; [|exact Hinv].
    assert (b1 <> None) as Hsome by (destruct Hb1 as [->|[-> ?]]; done).
    apply IH in Hr; [|by right].
    destruct Hr as [[-> ->]|[Hne [->|(b & -> & Hb)]]].
    + split; [done|]. destruct Hb1 as [->|[-> ?]]; [|by left].
      right. exists x. split; [done|]. apply elem_of_cons. by left.
    + split; [done|]. destruct Hb1 as [->|[-> ?]]; [|by left].
      right. exists x. split; [done|]. apply elem_of_cons. by left.
    + split; [done|]. right. exists b. split; [done|].
      apply elem_of_cons. by right.
Qed.

(** [best_match_to_list] returns [None] exactly when no atom of the list
    matches, and otherwise one of the matching atoms *)
Theorem best_match_among_matches (mypkg : candidate)
    (mylist matched : list Atom.t) (best : option Atom.t) :
  match_to_list mypkg mylist = Ok matched ->
  best_match_to_list mypkg mylist = Ok best ->
  (best = None <-> matched = []) /\
  (forall b, best = Some b -> b ∈ matched).
Proof.
  intros Hm. unfold best_match_to_list. rewrite Hm. cbn [bind].
  destruct (for_each (rank mypkg) matched (-99, None)) as [[mv b]|] eqn:Er;
    [|discriminate].
  cbn [bind snd]. intros [= <-].
  apply rank_loop in Er; [|by left].
  destruct Er as [[-> ->]|[Hne [->|(b' & -> & Hb)]]].
  - split; [done|]. intros b' Hb'. discriminate Hb'.
  - done.
  - split.
    + split; [discriminate|]. intros ->. inversion Hb.
    + by intros ? [= <-].
Qed.

End MatchLists.

Lemma match_from_list_sublist_witness :
  @Match.match_from_list Fixture.portage (Match.DStr ">=cat/pkg-2")
    [CStr "cat/pkg-1"; CStr "cat/pkg-2"; CStr "cat/pkg-3"]
  = Ok [CStr "cat/pkg-2"; CStr "cat/pkg-3"] /\
  sublist [CStr "cat/pkg-2"; CStr "cat/pkg-3"]
    [CStr "cat/pkg-1"; CStr "cat/pkg-2"; CStr "cat/pkg-3"].
Proof.
  split; [vm_compute; reflexivity|].
  apply (@match_from_list_sublist Fixture.portage (Match.DStr ">=cat/pkg-2")).
  vm_compute. reflexivity.
Defined.

Lemma match_to_list_unique_witness :
  exists res,
    @Match.match_to_list Fixture.portage (CStr "cat/pkg-2")
      [Fixture.atom ">=cat/pkg-1"; Fixture.atom "cat/pkg";
       Fixture.atom ">=cat/pkg-1"; Fixture.atom "<cat/pkg-2"] = Ok res /\
    Atom.text <$> res = [">=cat/pkg-1"; "cat/pkg"] /\
    NoDup (Atom.text <$> res).
Proof.
  eexists. split; [vm_compute; reflexivity|].
  split; [vm_compute; reflexivity|].
  apply (@match_to_list_unique Fixture.portage (CStr "cat/pkg-2")
           [Fixture.atom ">=cat/pkg-1"; Fixture.atom "cat/pkg";
            Fixture.atom ">=cat/pkg-1"; Fixture.atom "<cat/pkg-2"]).
  vm_compute. reflexivity.
Defined.

Lemma best_match_among_matches_witness :
  exists matched best,
    @Match.match_to_list Fixture.portage (CStr "cat/pkg-2")
      [Fixture.atom ">=cat/pkg-1"; Fixture.atom "cat/pkg";
       Fixture.atom "=cat/pkg-2"] = Ok matched /\
    @Match.best_match_to_list Fixture.portage (CStr "cat/pkg-2")
      [Fixture.atom ">=cat/pkg-1"; Fixture.atom "cat/pkg";
       Fixture.atom "=cat/pkg-2"] = Ok (Some best) /\
    Atom.text best = "=cat/pkg-2" /\ best ∈ matched.
Proof.
  eexists. eexists. split; [vm_compute; reflexivity|].
  split; [vm_compute; reflexivity|]. split; [vm_compute; reflexivity|].
  eapply (@best_match_among_matches Fixture.portage (CStr "cat/pkg-2")
            [Fixture.atom ">=cat/pkg-1"; Fixture.atom "cat/pkg";
             Fixture.atom "=cat/pkg-2"]);
    [vm_compute; reflexivity|vm_compute; reflexivity|reflexivity].
Defined.

(** ** Nested lists *)

Section ListProperties.

Import Reduce Lists.

Lemma flatten_cons (x : dep) (l : list dep) :
  flatten (x :: l) = flatten_entry x ++ flatten l.
Proof. reflexivity. Qed.

Lemma flatten_app (l1 l2 : list dep) :
  flatten (l1 ++ l2) = flatten l1 ++ flatten l2.
Proof. unfold flatten. apply List.flat_map_app. Qed.

Lemma flatten_entry_flat (d : dep) :
  Forall (fun e => is_str e = true) (flatten_entry d).
Proof.
  induction d as [s|o|l IH] using dep_nested_ind.
  - by repeat constructor.
  - by repeat constructor.
  - change (flatten_entry (Sub l)) with (flatten l).
    induction IH as [|x l Hx _ IHl]; [constructor|].
    rewrite flatten_cons. by apply Forall_app.
Qed.

Lemma flatten_strings (l : list dep) :
  Forall (fun e => is_str e = true) l -> flatten l = l.
Proof.
  induction 1 as [|x l Hx _ IH]; [reflexivity|].
  rewrite flatten_cons, IH. by destruct x.
Qed.

(** [flatten] returns a list without lists and the same entries in the
    same order whatever the bracketing was: it distributes over [+], and
    applying it again changes nothing. *)
Theorem flatten_flat (l1 l2 : list dep) :
  Forall (fun e => is_str e = true) (flatten l1) /\
  flatten (flatten l1) = flatten l1 /\
  flatten (l1 ++ [Sub l2]) = flatten l1 ++ flatten l2.
Proof.
  assert (Hflat : Forall (fun e => is_str e = true) (flatten l1))
    by apply (flatten_entry_flat (Sub l1)).
  split; [exact Hflat|]. split; [by apply flatten_strings|].
  rewrite flatten_app. f_equal. unfold flatten. cbn. apply app_nil_r.
Qed.

Lemma items_flat (d : dep) :
  is_str d = true -> Forall (fun e => is_str e = true) (items_of d).
Proof.
  destruct d as [s|o|l]; [| |discriminate]; intros _; cbn [items_of];
    apply Forall_fmap, Forall_forall; done.
Qed.

Lemma convert_cons (x : dep) (rest : list dep) :
  convert (Sub (x :: rest))
  = match x with
    | Sub _ =>
        let! converted := convert x in
        let! retlist := convert (Sub rest) in
        Ok (Sub converted :: retlist)
    | _ =>
        if eq_str x "||" then
          match rest with
          | [] => Raise IndexError
          | y :: rest' =>
              let! converted := convert y in
              let! retlist := convert (Sub rest') in
              Ok (Sub (x :: converted) :: retlist)
          end
        else
          let! retlist := convert (Sub rest) in
          Ok (x :: retlist)
    end.
Proof. destruct x, rest; reflexivity. Qed.

Lemma grouped_cons (x : dep) (rest : list dep) :
  grouped (x :: rest)
  = if eq_str x "||" then
      match rest with
      | (Sub _ as y) :: rest' => grouped_entry y && grouped rest'
      | _ => false
      end
    else grouped_entry x && grouped rest.
Proof. destruct x, rest as [|[| |] ?]; reflexivity. Qed.

Lemma flatten_sub (l rest : list dep) :
  flatten (Sub l :: rest) = flatten l ++ flatten rest.
Proof. reflexivity. Qed.

Lemma convert_grouped (d : dep) :
  grouped_entry d = true ->
  match d with
  | Sub l => exists r, convert d = Ok r /\ flatten r = flatten l
  | _ => True
  end.
Proof.
  induction d as [s|o|l IH] using dep_nested_ind; [done..|].
  remember (length l) as n eqn:Hn.
  assert (Hle : (length l <= n)%nat) by lia. clear Hn.
  revert l IH Hle. induction n as [|n IHn]; intros l IH Hle Hg.
  { destruct l; [by exists []|cbn in Hle; lia]. }
  destruct l as [|x rest]; [by exists []|].
  apply Forall_cons in IH as [Hx Hrest].
  change (grouped_entry (Sub (x :: rest))) with (grouped (x :: rest)) in Hg.
  rewrite grouped_cons in Hg. rewrite convert_cons.
  destruct (eq_str x "||") eqn:Eor.
  - destruct rest as [|[?|?|inner] rest']; try discriminate Hg.
    apply andb_true_iff in Hg as [Hg1 Hg2].
    apply Forall_cons in Hrest as [Hy Hrest'].
    destruct (Hy Hg1) as (c & -> & Hfc).
    destruct (IHn rest') as (r & -> & Hfr);
      [exact Hrest'|cbn in Hle |- *; lia|exact Hg2|].
    destruct x as [s|o|?]; [| |discriminate Eor]; cbn [bind];
      (eexists; split; [reflexivity|]);
      rewrite !flatten_sub, !flatten_cons, Hfc, Hfr; reflexivity.
  - apply andb_true_iff in Hg as [Hg1 Hg2].
    destruct (IHn rest) as (r & Hr & Hfr);
      [exact Hrest|cbn in Hle |- *; lia|exact Hg2|].
    destruct x as [s|o|inner].
    + rewrite Hr. cbn [bind]. eexists. split; [reflexivity|].
      by rewrite !flatten_cons, Hfr.
    + rewrite Hr. cbn [bind]. eexists. split; [reflexivity|].
      by rewrite !flatten_cons, Hfr.
    + destruct (Hx Hg1) as (c & -> & Hfc). rewrite Hr. cbn [bind].
      eexists. split; [reflexivity|]. by rewrite !flatten_sub, Hfc, Hfr.
Qed.

(** On a structure in which every [||] is directly followed by a list,
    [dep_opconvert] succeeds and only regroups: flattening its result
    gives the flattening of its argument. *)
Theorem dep_opconvert_regroups (deplist : list dep) :
  grouped deplist = true ->
  exists retlist,
    dep_opconvert deplist = Ok retlist /\
    flatten retlist = flatten deplist.
Proof. apply (convert_grouped (Sub deplist)). Qed.

(** an [||] at the very end has nothing to be combined with *)
Lemma dep_opconvert_dangling (deplist : list dep) :
  Forall (fun e => is_str e = true /\ eq_str e "||" = false) deplist ->
  dep_opconvert (deplist ++ [Tok "||"]) = Raise IndexError.
Proof.
  unfold dep_opconvert. induction 1 as [|x l [Hx Hor] _ IH]; [reflexivity|].
  change ((x :: l) ++ [Tok "||"]) with (x :: (l ++ [Tok "||"])).
  rewrite convert_cons, Hor, IH. by destruct x.
Qed.

End ListProperties.


Lemma dep_opconvert_regroups_witness :
  Lists.grouped
    [Reduce.Tok "blah"; Reduce.Tok "||";
     Reduce.Sub [Reduce.Tok "foo"; Reduce.Tok "bar"; Reduce.Tok "baz"]] = true /\
  Lists.dep_opconvert
    [Reduce.Tok "blah"; Reduce.Tok "||";
     Reduce.Sub [Reduce.Tok "foo"; Reduce.Tok "bar"; Reduce.Tok "baz"]]
  = Ok [Reduce.Tok "blah";
        Reduce.Sub [Reduce.Tok "||"; Reduce.Tok "foo"; Reduce.Tok "bar";
                    Reduce.Tok "baz"]] /\
  exists retlist,
    Lists.dep_opconvert
      [Reduce.Tok "blah"; Reduce.Tok "||";
       Reduce.Sub [Reduce.Tok "foo"; Reduce.Tok "bar"; Reduce.Tok "baz"]]
    = Ok retlist /\
    Lists.flatten retlist
    = Lists.flatten
        [Reduce.Tok "blah"; Reduce.Tok "||";
         Reduce.Sub [Reduce.Tok "foo"; Reduce.Tok "bar"; Reduce.Tok "baz"]].
Proof.
  split; [reflexivity|]. split; [reflexivity|].
  apply dep_opconvert_regroups. reflexivity.
Defined.


(** ** The flags of a REQUIRED_USE string *)

Section UsedFlagsProperties.

Import RequiredUse UsedFlags.

Variable _get_eapi_attrs : option string -> _eapi_attrs.
Variable eapi : option string.


Lemma flags_close (st st' : state) :
  close_bracket _get_eapi_attrs eapi st = Ok st' ->
  used_flags st' = used_flags st.
Proof.
  unfold UsedFlags.close_bracket.
  destruct (need_bracket st); [discriminate|].
  case_bool_decide; [|discriminate].
  destruct (last (stack st)); [|discriminate]. cbn [of_option bind].
  destruct (stack_at _ _); [|discriminate]. cbn [bind].
  match goal with
  | |- (let! _ := ?m in _) = _ -> _ => destruct m as [[ignore stk]|]
  end; [|discriminate].
  cbn [bind].
  match goal with
  | |- (let! _ := ?m in _) = _ -> _ => destruct m
  end; [|discriminate].
  by intros [= <-].
Qed.

Lemma flags_step (token : string) (st st' : state) :
  step _get_eapi_attrs eapi token st = Ok st' ->
  used_flags st'
  = (if names_flag _get_eapi_attrs eapi token
     then {[register_token token]} ∪ used_flags st else used_flags st).
Proof.
  unfold UsedFlags.step, names_flag.
  case_bool_decide; [by intros [= <-]|].
  case_bool_decide; [apply flags_close|].
  case_bool_decide; cbn [negb andb].
  - destruct (need_bracket st); [discriminate|].
    destruct (stack_append _ _ _); [|discriminate]. by intros [= <-].
  - destruct (need_bracket st); [discriminate|].
    destruct (Py.last_char token); [|discriminate]. cbn [of_option bind].
    destruct (stack_append _ _ _); [|discriminate]. by intros [= <-].
Qed.

Lemma flags_loop (tokens : list string) (st st' : state) :
  for_each (step _get_eapi_attrs eapi) tokens st = Ok st' ->
  used_flags st'
  = list_to_set (register_token
                   <$> List.filter (names_flag _get_eapi_attrs eapi) tokens)
    ∪ used_flags st.
Proof.
  revert st. induction tokens as [|t tokens IH]; intros st.
  - intros [= <-]. cbn. by rewrite (left_id_L ∅ (∪)).
  - cbn [for_each]. destruct (step _ _ t st) as [st1|] eqn:E1; [|discriminate].
    cbn [bind]. intros Hrest. rewrite (IH _ Hrest), (flags_step _ _ _ E1).
    cbn [List.filter]. destruct (names_flag _ _ t); [|reflexivity].
    cbn [fmap list_fmap list_to_set].
    apply set_eq. intros x. rewrite !elem_of_union. tauto.
Qed.

(** When [get_required_use_flags] returns, it returns the flags named by
    the tokens that are neither brackets nor operators: each such token
    without its [?] at the end and its [!] in front. *)
Theorem required_use_flags_are_the_tokens (required_use : string)
    (flags : gset string) :
  get_required_use_flags _get_eapi_attrs eapi required_use = Ok flags ->
  flags = list_to_set
            (register_token
               <$> List.filter (names_flag _get_eapi_attrs eapi)
                     (Py.split required_use)).
Proof.
  unfold get_required_use_flags.
  destruct (for_each _ _ _) as [st|] eqn:Eloop; [|discriminate].
  cbn [bind]. destruct (_ || _); [discriminate|]. intros [= <-].
  rewrite (flags_loop _ _ _ Eloop). cbn. by rewrite (right_id_L ∅ (∪)).
Qed.

(** the loop keeps the stack as deep as the level says, and every string
    on it non-empty *)

Lemma flag_stack_append (stk : list (list item)) (lvl : nat) (x : item) :
  (lvl < length stk)%nat ->
  Forall (Forall (fun e => e <> IStr EmptyString)) stk ->
  x <> IStr EmptyString ->
  exists stk', stack_append stk lvl x = Ok stk' /\
    length stk' = length stk /\
    Forall (Forall (fun e => e <> IStr EmptyString)) stk'.
Proof.
  intros Hlt Hs Hx. unfold stack_append, stack_at.
  destruct (lookup_lt_is_Some_2 stk lvl Hlt) as [cur E]. rewrite E.
  cbn [of_option bind]. eexists. split; [reflexivity|].
  split; [by rewrite length_insert|].
  apply Forall_insert; [exact Hs|]. apply Forall_app. split.
  - rewrite Forall_forall in Hs. apply Hs. by eapply list_elem_of_lookup_2.
  - by repeat constructor.
Qed.

Lemma flag_close_ok (st : state) :
  shape st ->
  match close_bracket _get_eapi_attrs eapi st with
  | Ok st' => shape st'
  | Raise e => e = InvalidDependString
  end.
Proof.
  intros [Hd Hs]. unfold UsedFlags.close_bracket.
  destruct (need_bracket st); [done|].
  case_bool_decide as Hlv; [|done].
  destruct (last (stack st)) as [l|] eqn:El;
    [|apply last_None in El; rewrite El in Hd; discriminate Hd].
  cbn [of_option bind].
  apply last_Some in El as [stk Estk]. rewrite Estk in *.
  rewrite removelast_last. rewrite List.length_app in Hd. cbn in Hd.
  apply Forall_app in Hs as [Hs _].
  set (lvl := (level st - 1)%nat) in *.
  assert (Hlen : length stk = S lvl) by (unfold lvl; lia).
  unfold stack_at at 1.
  destruct (lookup_lt_is_Some_2 stk lvl) as [cur E]; [lia|]. rewrite E.
  cbn [of_option bind].
  assert (Hcur : Forall (fun e => e <> IStr EmptyString) cur).
  { rewrite Forall_forall in Hs. apply Hs. by eapply list_elem_of_lookup_2. }
  assert (Hpop : exists ignore stk',
             (match last cur with
              | Some e =>
                  let! op := is_operator _get_eapi_attrs eapi e in
                  if op
                  then Ok (true, <[lvl := removelast cur ++ [IBool true]]> stk)
                  else Ok (false, stk)
              | None => Ok (false, stk)
              end) = Ok (ignore, stk') /\
             length stk' = S lvl /\
             Forall (Forall (fun e => e <> IStr EmptyString)) stk').
  { destruct (last cur) as [e|] eqn:Ecur; [|by exists false, stk].
    assert (exists op, is_operator _get_eapi_attrs eapi e = Ok op) as [op ->].
    { destruct e as [b|s]; [by eexists|]. cbn [is_operator].
      destruct (bool_decide _); [by eexists|].
      destruct (last_char_nonempty s) as [c ->]; [|by eexists].
      intros ->. rewrite Forall_forall in Hcur. apply (Hcur (IStr EmptyString)).
      - apply last_Some in Ecur as [c' ->]. apply elem_of_app. right.
        by apply list_elem_of_singleton.
      - reflexivity. }
    cbn [bind]. destruct op; [|by exists false, stk].
    eexists _, _. split; [reflexivity|].
    split; [by rewrite length_insert|].
    apply Forall_insert; [exact Hs|]. apply Forall_app. split.
    - apply last_Some in Ecur as [c' ->]. rewrite removelast_last.
      by apply Forall_app in Hcur as [? _].
    - by repeat constructor. }
  destruct Hpop as (ignore & stk' & -> & Hlen' & Hs'). cbn [bind].
  destruct (negb (Reduce.empty l) && negb ignore).
  - destruct (flag_stack_append stk' lvl (IBool (forallb truthy_item l)))
      as (stk2 & -> & Hlen2 & Hs2); [lia|exact Hs'|done|].
    cbn [bind]. split; cbn; [lia|exact Hs2].
  - cbn [bind]. split; cbn; [lia|exact Hs'].
Qed.

Lemma flag_step_ok (token : string) (st : state) :
  token <> EmptyString -> shape st ->
  match step _get_eapi_attrs eapi token st with
  | Ok st' => shape st'
  | Raise e => e = InvalidDependString
  end.
Proof.
  intros Hne Hst. unfold UsedFlags.step.
  case_bool_decide.
  { destruct Hst as [Hd Hs]. split; cbn.
    - rewrite List.length_app. cbn. lia.
    - apply Forall_app. split; [exact Hs|]. by repeat constructor. }
  case_bool_decide; [by apply flag_close_ok|].
  destruct Hst as [Hd Hs].
  case_bool_decide.
  - destruct (need_bracket st); [done|].
    destruct (flag_stack_append (stack st) (level st) (IStr token))
      as (stk & -> & Hlen & Hs'); [lia|exact Hs|congruence|].
    cbn [bind]. split; cbn; [lia|exact Hs'].
  - destruct (need_bracket st); [done|].
    destruct (last_char_nonempty token Hne) as [c ->]. cbn [of_option bind].
    destruct (flag_stack_append (stack st) (level st)
                (if bool_decide (c = "?"%char) then IStr token else IBool true))
      as (stk & -> & Hlen & Hs'); [lia|exact Hs| |].
    { destruct (bool_decide _); congruence. }
    cbn [bind]. split; cbn; [lia|exact Hs'].
Qed.

(** [get_required_use_flags] fails with [InvalidDependString] only: the
    indexing of the stack and of the tokens never goes out of range. *)
Theorem required_use_flags_errors (required_use : string) :
  match get_required_use_flags _get_eapi_attrs eapi required_use with
  | Ok _ => True
  | Raise e => e = InvalidDependString
  end.
Proof.
  unfold get_required_use_flags.
  assert (Hloop : forall tokens st,
             Forall (fun t => t <> EmptyString) tokens -> shape st ->
             match for_each (step _get_eapi_attrs eapi) tokens st with
             | Ok st' => shape st'
             | Raise e => e = InvalidDependString
             end).
  { intros tokens st Hne. revert st.
    induction Hne as [|t tokens Ht _ IH]; intros st Hst; [exact Hst|].
    cbn [for_each]. pose proof (flag_step_ok t st Ht Hst) as Hs.
    destruct (step _ _ t st); [|exact Hs]. cbn [bind]. by apply IH. }
  specialize (Hloop (Py.split required_use) initial (split_nonempty _)).
  destruct (for_each _ _ _) as [st|e].
  - cbn [bind]. by destruct (_ || _).
  - apply Hloop. split; cbn; [reflexivity|by repeat constructor].
Qed.

End UsedFlagsProperties.


Lemma required_use_flags_are_the_tokens_witness :
  UsedFlags.get_required_use_flags Fixture._get_eapi_attrs (Some "8")
    "a? ( !b ) || ( c d )" = Ok {["a"; "b"; "c"; "d"]} /\
  ({["a"; "b"; "c"; "d"]} : gset string)
  = list_to_set
      (UsedFlags.register_token
         <$> List.filter (UsedFlags.names_flag Fixture._get_eapi_attrs (Some "8"))
               (Py.split "a? ( !b ) || ( c d )")).
Proof.
  split; [vm_compute; reflexivity|].
  apply (required_use_flags_are_the_tokens Fixture._get_eapi_attrs (Some "8")
           "a? ( !b ) || ( c d )").
  vm_compute. reflexivity.
Defined.


(** ** [ExtendedAtomDict] *)

Section DictProperties.

Import ExtendedAtomDict.

Context {V : Type}.

Lemma dict_get_set (d : dict V) (k : string) (v : list V) :
  dict_get V (dict_set V d k v) k = Some v.
Proof.
  induction d as [|[k' v'] d IH]; cbn.
  - by rewrite bool_decide_eq_true_2.
  - case_bool_decide as Hk; cbn.
    + by rewrite bool_decide_eq_true_2.
    + by rewrite bool_decide_eq_false_2.
Qed.

Lemma dict_get_set_other (d : dict V) (k k0 : string) (v : list V) :
  k0 <> k -> dict_get V (dict_set V d k v) k0 = dict_get V d k0.
Proof.
  intros Hne. induction d as [|[k' v'] d IH]; cbn.
  - by rewrite bool_decide_eq_false_2.
  - case_bool_decide as Hk; cbn.
    + subst k'. by rewrite !bool_decide_eq_false_2.
    + by rewrite IH.
Qed.

Lemma collect_fold (cp : string) (items : dict V) (ret : list V)
    (found : bool) :
  fold_left (fun acc item => collect V cp item acc) items (ret, found)
  = (ret ++ List.flat_map (fun item : string * list V => item.2)
               (List.filter (fun item : string * list V =>
                               Match.extended_cp_match item.1 cp) items),
     found || existsb (fun item : string * list V =>
                         Match.extended_cp_match item.1 cp) items).
Proof.
  revert ret found. induction items as [|[k v] items IH]; intros ret found.
  - cbn. by rewrite app_nil_r, orb_false_r.
  - cbn [fold_left List.filter existsb]. unfold collect at 2. cbn [fst snd].
    destruct (Match.extended_cp_match k cp); rewrite IH.
    + cbn [List.flat_map snd]. rewrite <- app_assoc, orb_true_r.
      by rewrite orb_true_l.
    + by rewrite orb_false_l.
Qed.

(** [d[cp] = val] followed by [d[cp]]: a key with a wildcard gives back
    [val]; a key without one gives [val] followed by the values of every
    wildcard key that matches it, in the order of insertion. *)
Theorem setitem_getitem (self : t V) (cp : string) (val : list V) :
  getitem V (setitem V self cp val) cp
  = Ok (if Py.contains cp "*" then val
        else val ++ extended_values V self cp).
Proof.
  unfold getitem, setitem. destruct (Py.contains cp "*") eqn:Estar; cbn.
  - by rewrite dict_get_set.
  - rewrite dict_get_set, collect_fold. reflexivity.
Qed.

(** a key that was never set and that no wildcard key matches is missing,
    in a lookup and in a deletion *)
Theorem getitem_missing (self : t V) (cp : string) :
  Py.contains cp "*" = false ->
  dict_get V (_normal V self) cp = None ->
  existsb (fun item : string * list V => Match.extended_cp_match item.1 cp)
    (_extended V self) = false ->
  getitem V self cp = Raise KeyError /\ delitem V self cp = Raise KeyError.
Proof.
  intros Hstar Hn He. unfold getitem, delitem. rewrite Hstar, Hn, collect_fold, He.
  split; [reflexivity|].
  assert (dict_del V (_normal V self) cp = Raise KeyError) as ->; [|reflexivity].
  induction (_normal V self) as [|[k v] d IH]; [reflexivity|].
  cbn in Hn |- *. case_bool_decide; [discriminate Hn|]. by rewrite IH.
Qed.

Lemma dict_set_length (d : dict V) (k : string) (v : list V) :
  length (dict_set V d k v)
  = (length d + (match dict_get V d k with Some _ => 0 | None => 1 end))%nat.
Proof.
  induction d as [|[k' v'] d IH]; [reflexivity|]. cbn.
  case_bool_decide; cbn; [lia|]. rewrite IH. lia.
Qed.

(** [len] grows by one when a new key is set and stays when a known key
    is overwritten *)
Theorem len_setitem (self : t V) (cp : string) (val : list V) :
  len V (setitem V self cp val)
  = (len V self
     + (match dict_get V (if Py.contains cp "*" then _extended V self
                           else _normal V self) cp with
        | Some _ => 0
        | None => 1
        end))%nat.
Proof.
  unfold len, setitem. destruct (Py.contains cp "*"); cbn;
    rewrite dict_set_length; lia.
Qed.

End DictProperties.


Lemma getitem_missing_witness :
  Py.contains "cat/pkg" "*" = false /\
  ExtendedAtomDict.getitem nat
    (ExtendedAtomDict.setitem nat
       (ExtendedAtomDict.setitem nat (ExtendedAtomDict.init nat) "cat/other" [1%nat])
       "dev-*/*" [2%nat])
    "cat/pkg" = Raise KeyError.
Proof.
  split; [reflexivity|].
  apply (@getitem_missing nat
           (ExtendedAtomDict.setitem nat
              (ExtendedAtomDict.setitem nat (ExtendedAtomDict.init nat)
                 "cat/other" [1%nat])
              "dev-*/*" [2%nat])
           "cat/pkg"); reflexivity.
Defined.

(** a normal key is answered by the wildcard keys as well *)
Example getitem_collects :
  ExtendedAtomDict.getitem nat
    (ExtendedAtomDict.setitem nat
       (ExtendedAtomDict.setitem nat
          (ExtendedAtomDict.setitem nat (ExtendedAtomDict.init nat) "*/*" [1%nat])
          "cat/pkg" [2%nat])
       "cat/*" [3%nat])
    "cat/pkg" = Ok [2%nat; 1%nat; 3%nat].
Proof. reflexivity. Qed.


(** ** Parsed USE dependencies *)

Section UseDepParsing.

Import UseDep Violated.

Lemma violated_loop self other_use is_valid_flag parent_use
    (xs : list string) sets toks sets' toks' :
  for_each (violated_token self other_use is_valid_flag parent_use) xs
    (sets, toks) = Ok (sets', toks') ->
  exists kept, toks' = toks ++ kept /\ sublist kept xs.
Proof.
  revert sets toks. induction xs as [|x xs IH]; intros sets toks Hloop.
  - injection Hloop as <- <-. exists []. by rewrite app_nil_r.
  - cbn [for_each] in Hloop.
    destruct (violated_token _ _ _ _ x (sets, toks)) as [[sets1 toks1]|] eqn:E1;
      [|discriminate Hloop].
    cbn [bind] in Hloop. apply IH in Hloop as (kept & -> & Hsub).
    unfold violated_token in E1.
    destruct (usedep_re_match x) as [m|]; cbn [of_option bind] in E1;
      [|discriminate E1].
    match type of E1 with
    | (let! keep := ?k in _) = _ =>
        destruct k as [[|]|]; [| |discriminate E1]
    end; cbn [bind] in E1; injection E1 as <- <-.
    + exists (x :: kept). split; [by rewrite <- app_assoc|].
      by apply sublist_skip.
    + exists kept. split; [done|]. by apply sublist_cons.
Qed.

(** [violated_conditionals] only removes tokens, and it leaves the
    defaults and the required flags as they are; without [parent_use] it
    refuses a dependency that has conditionals. *)
Theorem violated_conditionals_removes (self : _use_dep)
    (other_use : gset string) (is_valid_flag : string -> bool)
    (parent_use : option (gset string)) :
  (parent_use = None -> conditional self <> None ->
   violated_conditionals self other_use is_valid_flag parent_use
   = Raise InvalidAtom) /\
  (forall left,
     violated_conditionals self other_use is_valid_flag parent_use = Ok left ->
     sublist (tokens left) (tokens self) /\
     missing_enabled left = missing_enabled self /\
     missing_disabled left = missing_disabled self /\
     required left = required self).
Proof.
  unfold violated_conditionals. split.
  - intros -> Hc. rewrite (bool_decide_eq_true_2 _ Hc).
    by rewrite bool_decide_eq_true_2.
  - intros left. destruct (_ && _); [discriminate|].
    destruct (for_each _ _ _) as [[[[en dis] cond] toks]|] eqn:Eloop;
      [|discriminate].
    cbn [bind]. intros [= <-]. cbn.
    apply violated_loop in Eloop as (kept & -> & Hsub). done.
Qed.

(** *** Parsing *)

Lemma parse_token_disjoint (x : string) (st st' : parse_state) :
  parse_token x st = Ok st' ->
  no_default st ## ps_missing_enabled st ->
  no_default st ## ps_missing_disabled st ->
  ps_missing_enabled st ## ps_missing_disabled st ->
  no_default st' ## ps_missing_enabled st' /\
  no_default st' ## ps_missing_disabled st' /\
  ps_missing_enabled st' ## ps_missing_disabled st' /\
  is_Some (usedep_re_match x).
Proof.
  unfold parse_token. intros Hp H1 H2 H3.
  destruct (usedep_re_match x) as [m|]; [|discriminate Hp].
  match type of Hp with
  | (let! _ := ?k in _) = _ => destruct k as [st1|] eqn:E1; [|discriminate Hp]
  end.
  cbn [bind] in Hp.
  assert (no_default st1 = no_default st /\
          ps_missing_enabled st1 = ps_missing_enabled st /\
          ps_missing_disabled st1 = ps_missing_disabled st) as (E2 & E3 & E4).
  { repeat case_bool_decide; try discriminate E1;
      try (injection E1 as <-; done).
    all: match type of E1 with
         | (let! _ := ?k in _) = _ => destruct k; [|discriminate E1]
         end; injection E1 as <-; done. }
  destruct (Py.truthy (g_default m)).
  - case_bool_decide.
    + destruct (_ || _) eqn:Eor; [discriminate Hp|].
      apply orb_false_iff in Eor as [Ea Eb].
      apply bool_decide_eq_false in Ea, Eb.
      injection Hp as <-. cbn. rewrite E2, E3, E4 in *.
      rewrite ?disjoint_union_l, ?disjoint_union_r,
        ?disjoint_singleton_l, ?disjoint_singleton_r.
      repeat split; first [assumption|by eexists].
    + destruct (_ || _) eqn:Eor; [discriminate Hp|].
      apply orb_false_iff in Eor as [Ea Eb].
      apply bool_decide_eq_false in Ea, Eb.
      injection Hp as <-. cbn. rewrite E2, E3, E4 in *.
      rewrite ?disjoint_union_l, ?disjoint_union_r,
        ?disjoint_singleton_l, ?disjoint_singleton_r.
      repeat split; first [assumption|by eexists].
  - destruct (_ || _) eqn:Eor; [discriminate Hp|].
    apply orb_false_iff in Eor as [Ea Eb].
    apply bool_decide_eq_false in Ea, Eb.
    injection Hp as <-. cbn. rewrite E2, E3, E4 in *.
    rewrite ?disjoint_union_l, ?disjoint_union_r,
        ?disjoint_singleton_l, ?disjoint_singleton_r.
      repeat split; first [assumption|by eexists].
Qed.

Lemma parse_loop_disjoint (xs : list string) (st st' : parse_state) :
  for_each parse_token xs st = Ok st' ->
  no_default st ## ps_missing_enabled st ->
  no_default st ## ps_missing_disabled st ->
  ps_missing_enabled st ## ps_missing_disabled st ->
  no_default st' ## ps_missing_enabled st' /\
  no_default st' ## ps_missing_disabled st' /\
  ps_missing_enabled st' ## ps_missing_disabled st' /\
  Forall (fun x => is_Some (usedep_re_match x)) xs.
Proof.
  revert st. induction xs as [|x xs IH]; intros st Hloop H1 H2 H3.
  - injection Hloop as <-. done.
  - cbn [for_each] in Hloop.
    destruct (parse_token x st) as [st1|] eqn:E1; [|discriminate Hloop].
    cbn [bind] in Hloop.
    apply parse_token_disjoint in E1 as (H1' & H2' & H3' & Hx); try done.
    apply IH in Hloop as (? & ? & ? & ?); try done.
    repeat split; try done. by constructor.
Qed.

(** A parsed USE dependency gives every flag one kind of default: the
    flags without a default ([required]), those with [(+)] and those with
    [(-)] are pairwise disjoint. *)
Theorem use_dep_defaults_disjoint (use : list string) (attrs : _eapi_attrs)
    (u : _use_dep) :
  init use attrs = Ok u ->
  required u ## missing_enabled u /\
  required u ## missing_disabled u /\
  missing_enabled u ## missing_disabled u.
Proof.
  unfold init. destruct (for_each _ _ _) as [st|] eqn:Eloop; [|discriminate].
  cbn [bind]. intros [= <-]. cbn.
  apply parse_loop_disjoint in Eloop as (? & ? & ? & _); done.
Qed.

(** the conditionals of a parsed USE dependency can always be evaluated,
    and the result has none left *)
Lemma eval_token_total (use : gset string) (x : string) acc :
  is_Some (usedep_re_match x) -> exists acc', eval_token use x acc = Ok acc'.
Proof.
  intros [m Hm]. destruct acc as [[en dis] toks]. unfold eval_token.
  rewrite Hm. cbn [of_option bind].
  repeat case_bool_decide; eauto.
Qed.

Lemma eval_token_grows (use : gset string) (x : string)
    (en dis en' dis' : gset string) (toks toks' : list string) :
  eval_token use x (en, dis, toks) = Ok (en', dis', toks') ->
  en ⊆ en' /\ dis ⊆ dis'.
Proof.
  unfold eval_token. destruct (usedep_re_match x); [|discriminate].
  cbn [of_option bind].
  repeat case_bool_decide; intros [= <- <- <-];
    split; first [reflexivity|apply union_subseteq_r].
Qed.

Lemma eval_loop_total (use : gset string) (xs : list string)
    (en dis : gset string) (toks : list string) :
  Forall (fun x => is_Some (usedep_re_match x)) xs ->
  exists en' dis' toks',
    for_each (eval_token use) xs (en, dis, toks) = Ok (en', dis', toks') /\
    en ⊆ en' /\ dis ⊆ dis'.
Proof.
  intros Hxs. revert en dis toks.
  induction Hxs as [|x xs Hx _ IH]; intros en dis toks.
  - by exists en, dis, toks.
  - cbn [for_each].
    destruct (eval_token_total use x (en, dis, toks) Hx) as [[[en1 dis1] toks1] E1].
    rewrite E1. cbn [bind].
    apply eval_token_grows in E1 as [He Hd].
    destruct (IH en1 dis1 toks1) as (en' & dis' & toks' & -> & He' & Hd').
    exists en', dis', toks'. split; [done|]. split; by etrans.
Qed.

(** The conditionals of a parsed USE dependency can always be evaluated:
    the result has no conditional left, in its tokens or in its
    [conditional] attribute, and it keeps every flag that was enabled or
    disabled unconditionally. *)
Theorem parsed_use_dep_evaluates (use : list string) (attrs : _eapi_attrs)
    (u : _use_dep) (enabled_use : gset string) :
  init use attrs = Ok u ->
  exists evaluated,
    evaluate_conditionals u enabled_use = Ok evaluated /\
    conditional evaluated = None /\
    Forall settled (tokens evaluated) /\
    enabled u ⊆ enabled evaluated /\ disabled u ⊆ disabled evaluated.
Proof.
  unfold init. destruct (for_each _ _ _) as [st|] eqn:Eloop; [|discriminate].
  cbn [bind]. intros [= <-].
  apply parse_loop_disjoint in Eloop as (_ & _ & _ & Hall);
    [|apply disjoint_empty_l..].
  unfold evaluate_conditionals. cbn [tokens enabled disabled].
  destruct (eval_loop_total enabled_use use (enabled_flags st)
              (disabled_flags st) [] Hall)
    as (en' & dis' & toks' & Eev & He & Hd).
  rewrite Eev. cbn [bind]. eexists. split; [reflexivity|].
  cbn. split; [reflexivity|]. split; [|done].
  eapply eval_keeps_settled; [exact Eev|constructor].
Qed.

End UseDepParsing.


Lemma use_dep_defaults_disjoint_witness :
  exists u,
    UseDep.init ["a(+)"; "-b"; "c(-)?"; "!d="] (Fixture.attrs true) = Ok u /\
    UseDep.required u ## UseDep.missing_enabled u.
Proof.
  eexists. split; [vm_compute; reflexivity|].
  apply (use_dep_defaults_disjoint ["a(+)"; "-b"; "c(-)?"; "!d="]
           (Fixture.attrs true)).
  vm_compute. reflexivity.
Defined.

Lemma parsed_use_dep_evaluates_witness :
  exists u,
    UseDep.init ["a(+)"; "-b"; "c(-)?"; "!d="] (Fixture.attrs true) = Ok u /\
    exists evaluated,
      UseDep.evaluate_conditionals u {["c"]} = Ok evaluated /\
      UseDep.conditional evaluated = None.
Proof.
  eexists. split; [vm_compute; reflexivity|].
  destruct (parsed_use_dep_evaluates ["a(+)"; "-b"; "c(-)?"; "!d="]
              (Fixture.attrs true) _ {["c"]} ltac:(vm_compute; reflexivity))
    as (evaluated & Hev & Hnone & _).
  exists evaluated. split; [exact Hev|exact Hnone].
Defined.


(** ** Wildcards *)

Section GlobProperties.

Import Match.

Lemma at_end_spec (s : string) :
  UseDep.at_end s = true <-> s = EmptyString \/ s = String "010" EmptyString.
Proof.
  unfold UseDep.at_end. rewrite orb_true_iff, !bool_decide_eq_true. tauto.
Qed.

Lemma glob_literal (pat : list ascii) (s : string) :
  forallb (fun x => negb (bool_decide (x = "*"%char))) pat = true ->
  glob_match pat s = true <->
  s = string_of_list_ascii pat
  \/ s = string_of_list_ascii pat +:+ String "010" EmptyString.
Proof.
  revert s. induction pat as [|c pat IH]; intros s Hp.
  - cbn [glob_match string_of_list_ascii]. apply at_end_spec.
  - cbn [forallb] in Hp. apply andb_true_iff in Hp as [Hc Hp].
    apply negb_true_iff in Hc. cbn [glob_match]. rewrite Hc.
    cbn [string_of_list_ascii].
    change (String c (string_of_list_ascii pat) +:+ String "010" EmptyString)
      with (String c (string_of_list_ascii pat +:+ String "010" EmptyString)).
    destruct s as [|c' s].
    + split; [discriminate|]. intros [H|H]; discriminate H.
    + rewrite andb_true_iff, bool_decide_eq_true, (IH s Hp). split.
      * intros [-> [-> | ->]]; [by left|by right].
      * intros [H|H]; injection H as -> ->; (split; [done|]); [by left|by right].
Qed.

(** A pattern without [*] matches its own text and nothing else, but for
    one newline at the end, which [$] lets pass. *)
Theorem extended_cp_match_literal (extended_cp other_cp : string) :
  free "*" extended_cp = true ->
  extended_cp_match extended_cp other_cp = true <->
  other_cp = extended_cp
  \/ other_cp = extended_cp +:+ String "010" EmptyString.
Proof.
  intros Hf. unfold extended_cp_match.
  rewrite (glob_literal _ _ Hf), string_of_list_ascii_of_string. reflexivity.
Qed.

Lemma glob_star_spec (pat : list ascii) (s : string) :
  glob_match ("*"%char :: pat) s = true <->
  exists pre rest, s = pre +:+ rest /\ free "/" pre = true /\
                   glob_match pat rest = true.
Proof.
  cbn [glob_match]. rewrite bool_decide_eq_true_2 by reflexivity.
  induction s as [|c s IH].
  - rewrite orb_false_r. split.
    + intros Hm. by exists EmptyString, EmptyString.
    + intros (pre & rest & Hs & _ & Hm).
      destruct pre; [|discriminate Hs].
      change (EmptyString = rest) in Hs. by subst rest.
  - rewrite orb_true_iff. split.
    + intros [Hm|Hm].
      * by exists EmptyString, (String c s).
      * case_bool_decide as Hc; [discriminate Hm|].
        apply IH in Hm as (pre & rest & -> & Hf & Hm).
        exists (String c pre), rest. split; [reflexivity|]. split; [|exact Hm].
        unfold free. cbn. rewrite bool_decide_eq_false_2 by exact Hc. exact Hf.
    + intros (pre & rest & Hs & Hf & Hm). destruct pre as [|c' pre].
      * left. change (String c s = rest) in Hs. by subst rest.
      * right. change (String c s = String c' (pre +:+ rest)) in Hs.
        injection Hs as <- ->. unfold free in Hf. cbn in Hf.
        apply andb_true_iff in Hf as [Hc Hf]. apply negb_true_iff in Hc.
        rewrite Hc. apply IH. by exists pre, rest.
Qed.

Lemma free_app (c : ascii) (a b : string) :
  free c (a +:+ b) = free c a && free c b.
Proof.
  unfold free. induction a as [|x a IH]; [reflexivity|].
  change (String x a +:+ b) with (String x (a +:+ b)). cbn. by rewrite IH, andb_assoc.
Qed.

(** The pattern [*/*] matches exactly the texts with one [/]: a [*] never
    runs across a [/]. *)
Theorem extended_cp_match_any (other_cp : string) :
  extended_cp_match "*/*" other_cp = true <->
  exists cat pkg, other_cp = cat +:+ "/" +:+ pkg /\
                  free "/" cat = true /\ free "/" pkg = true.
Proof.
  unfold extended_cp_match.
  change (list_ascii_of_string "*/*") with ["*"; "/"; "*"]%char.
  rewrite glob_star_spec. split.
  - intros (cat & rest & -> & Hcat & Hm). cbn [glob_match] in Hm.
    rewrite (bool_decide_eq_false_2 ("/"%char = "*"%char)) in Hm by discriminate.
    destruct rest as [|c rest]; [discriminate Hm|].
    apply andb_true_iff in Hm as [Hc Hm]. apply bool_decide_eq_true in Hc as ->.
    change (glob_match ["*"%char] rest = true) in Hm.
    apply glob_star_spec in Hm as (pkg & tail & -> & Hpkg & Hend).
    exists cat, (pkg +:+ tail). split; [reflexivity|]. split; [exact Hcat|].
    rewrite free_app, Hpkg. cbn [glob_match] in Hend.
    apply at_end_spec in Hend as [-> | ->]; reflexivity.
  - intros (cat & pkg & -> & Hcat & Hpkg).
    exists cat, ("/" +:+ pkg). split; [reflexivity|]. split; [exact Hcat|].
    change ("/" +:+ pkg) with (String "/" pkg). cbn [glob_match].
    rewrite (bool_decide_eq_false_2 ("/"%char = "*"%char)) by discriminate.
    rewrite bool_decide_eq_true_2 by reflexivity. cbn [andb].
    change (glob_match ["*"%char] pkg = true). apply glob_star_spec.
    exists pkg, EmptyString. split; [|by split].
    clear. induction pkg as [|c p IH]; [reflexivity|].
    change (String c p +:+ "") with (String c (p +:+ "")). by rewrite <- IH.
Qed.

End GlobProperties.


Lemma extended_cp_match_literal_witness :
  free "*" "cat/pkg" = true /\
  (Match.extended_cp_match "cat/pkg" "cat/pkg" = true <->
   "cat/pkg" = "cat/pkg" \/ "cat/pkg" = "cat/pkg" +:+ String "010" EmptyString).
Proof.
  split; [reflexivity|].
  apply (extended_cp_match_literal "cat/pkg" "cat/pkg"). reflexivity.
Defined.


(** ** Slot and repository of an atom text *)

Section SlotStrings.

Lemma index_first (n k : nat) (needle s : string) :
  needle <> EmptyString -> (n <= k)%nat ->
  String.substring k (String.length needle) s = needle ->
  (forall p, (p < k)%nat ->
     String.substring p (String.length needle) s <> needle) ->
  String.index n needle s = Some k.
Proof.
  intros Hne Hnk Hat Hbefore.
  destruct (String.index n needle s) as [m|] eqn:E.
  - destruct (lt_eq_lt_dec m k) as [[Hlt| ->]|Hgt]; [|reflexivity|].
    + apply String.index_correct1 in E. by apply Hbefore in Hlt.
    + exfalso. by apply (String.index_correct2 _ _ _ _ E k Hnk Hgt).
  - exfalso. by apply (String.index_correct3 n k _ _ E Hne Hnk).
Qed.

Lemma index_none (n : nat) (needle s : string) :
  (forall p, String.substring p (String.length needle) s <> needle) ->
  String.index n needle s = None.
Proof.
  intros Hno. destruct (String.index n needle s) as [m|] eqn:E; [|reflexivity].
  apply String.index_correct1 in E. by apply Hno in E.
Qed.

Lemma substring_head (p n : nat) (c : ascii) (needle s : string) :
  String.substring p (S n) s = String c needle -> String.get p s = Some c.
Proof.
  revert s. induction p as [|p IH]; intros [|x s]; cbn; try discriminate.
  - by intros [= -> _].
  - apply IH.
Qed.

Lemma substring_second (p n : nat) (c d : ascii) (needle s : string) :
  String.substring p (S (S n)) s = String c (String d needle) ->
  String.get (S p) s = Some d.
Proof.
  revert s. induction p as [|p IH]; intros [|x s]; cbn; try discriminate.
  - intros [= _ H]. by apply (substring_head 0 n d needle).
  - apply IH.
Qed.

Lemma get_app (p : nat) (a b : string) :
  String.get p (a +:+ b)
  = if decide (p < String.length a)%nat then String.get p a
    else String.get (p - String.length a) b.
Proof.
  revert p. induction a as [|x a IH]; intros p.
  - change (EmptyString +:+ b) with b. cbn. by rewrite Nat.sub_0_r.
  - change (String x a +:+ b) with (String x (a +:+ b)).
    destruct p as [|p]; [reflexivity|]. cbn [String.get String.length].
    rewrite IH. repeat case_decide; try lia; reflexivity.
Qed.

Lemma free_get (c : ascii) (s : string) (p : nat) :
  free c s = true -> String.get p s <> Some c.
Proof.
  unfold free. revert p. induction s as [|x s IH]; intros p Hf; [by destruct p|].
  cbn in Hf. apply andb_true_iff in Hf as [Hx Hf].
  apply negb_true_iff, bool_decide_eq_false in Hx.
  destruct p as [|p]; cbn; [congruence|by apply IH].
Qed.

Lemma substring_at (a needle rest : string) :
  String.substring (String.length a) (String.length needle)
    (a +:+ needle +:+ rest) = needle.
Proof.
  induction a as [|x a IH]; [|exact IH].
  change (EmptyString +:+ needle +:+ rest) with (needle +:+ rest). cbn.
  induction needle as [|y needle IH]; [by destruct rest|].
  change (String y needle +:+ rest) with (String y (needle +:+ rest)).
  cbn. by rewrite IH.
Qed.

Lemma take_app (a b : string) : Py.take (String.length a) (a +:+ b) = a.
Proof.
  induction a as [|x a IH]; [by destruct b|].
  change (String x a +:+ b) with (String x (a +:+ b)). cbn. by rewrite IH.
Qed.

Lemma take_all (a : string) : Py.take (String.length a) a = a.
Proof. induction a as [|x a IH]; [done|]. cbn. by rewrite IH. Qed.

Lemma length_app_s (a b : string) :
  String.length (a +:+ b) = (String.length a + String.length b)%nat.
Proof.
  induction a as [|x a IH]; [reflexivity|].
  change (String x a +:+ b) with (String x (a +:+ b)). cbn. by rewrite IH.
Qed.

(** the first [c] of [a c rest], when [a] has none *)
Lemma index_char (n : nat) (c : ascii) (a rest : string) :
  free c a = true -> (n <= String.length a)%nat ->
  String.index n (String c EmptyString) (a +:+ String c EmptyString +:+ rest)
  = Some (String.length a).
Proof.
  intros Hf Hn. apply index_first; [discriminate|exact Hn| |].
  - apply (substring_at a (String c EmptyString) rest).
  - intros p Hp Hsub. apply substring_head in Hsub.
    rewrite get_app in Hsub. case_decide; [|lia]. by apply free_get in Hsub.
Qed.

Lemma index_no_char (n : nat) (c : ascii) (s : string) :
  free c s = true -> String.index n (String c EmptyString) s = None.
Proof.
  intros Hf. apply index_none. intros p Hsub.
  apply substring_head in Hsub. by apply free_get in Hsub.
Qed.

(** the first [::] of [cp:slot::rest] *)
Lemma index_repo_separator (cp slot rest : string) :
  free ":" cp = true -> free ":" slot = true -> slot <> EmptyString ->
  String.index 0 "::" (cp +:+ ":" +:+ slot +:+ "::" +:+ rest)
  = Some (String.length (cp +:+ ":" +:+ slot)).
Proof.
  intros Hcp Hslot Hne.
  rewrite <- (app_assoc_s ":" slot ("::" +:+ rest)).
  rewrite <- (app_assoc_s cp (":" +:+ slot) ("::" +:+ rest)).
  apply index_first; [discriminate|apply Nat.le_0_l| |].
  - apply (substring_at (cp +:+ ":" +:+ slot) "::" rest).
  - intros p Hp Hsub.
    pose proof (substring_head _ _ _ _ _ Hsub) as H1.
    pose proof (substring_second _ _ _ _ _ _ Hsub) as H2.
    clear Hsub. rewrite length_app_s in Hp.
    change (String.length (":" +:+ slot)) with (S (String.length slot)) in Hp.
    rewrite (app_assoc_s cp (":" +:+ slot) ("::" +:+ rest)) in H1, H2.
    rewrite (app_assoc_s ":" slot ("::" +:+ rest)) in H1, H2.
    change (":" +:+ slot +:+ "::" +:+ rest)
      with (String ":" (slot +:+ "::" +:+ rest)) in H1, H2.
    rewrite get_app in H1, H2.
    destruct (decide (p < String.length cp)%nat) as [Hlt|Hge];
      [by apply free_get in H1|].
    destruct (decide (S p < String.length cp)%nat) as [?|_]; [lia|].
    destruct (p - String.length cp)%nat as [|q] eqn:Eq.
    + replace (S p - String.length cp)%nat with 1%nat in H2 by lia.
      cbn [String.get] in H2. rewrite get_app in H2.
      destruct (decide (0 < String.length slot)%nat) as [_|Hz];
        [by apply free_get in H2|].
      destruct slot; [done|cbn in Hz; lia].
    + cbn [String.get] in H1. rewrite get_app in H1.
      destruct (decide (q < String.length slot)%nat) as [_|?]; [|lia].
      by apply free_get in H1.
Qed.

(** Round trip on the atom text [cp:slot::repo[use], where [cp] and
    [slot] hold neither a colon nor an opening bracket, [slot] is not
    empty and [repo] holds no opening bracket: [remove_slot] gives back
    [cp], [dep_getslot] gives back [slot] and [dep_getrepo] gives back
    [repo]. *)
Theorem slot_and_repo_round_trip (cp slot repo use : string) :
  free ":" cp = true -> free "[" cp = true ->
  free ":" slot = true -> free "[" slot = true -> slot <> EmptyString ->
  free "[" repo = true ->
  let mydep := cp +:+ ":" +:+ slot +:+ "::" +:+ repo +:+ "[" +:+ use in
  remove_slot mydep = cp /\
  dep_getslot_str mydep = Some slot /\
  dep_getrepo_str mydep = Some repo.
Proof.
  intros Hcp1 Hcp2 Hs1 Hs2 Hne Hr. cbv zeta.
  pose proof (index_repo_separator cp slot (repo +:+ "[" +:+ use) Hcp1 Hs1 Hne)
    as Hrepo.
  split; [|split].
  - unfold remove_slot, Py.find.
    rewrite (index_char 0 ":" cp _ Hcp1) by lia. apply take_app.
  - unfold dep_getslot_str, Py.before_first. rewrite Hrepo.
    rewrite <- (app_assoc_s ":" slot ("::" +:+ repo +:+ "[" +:+ use)).
    rewrite <- (app_assoc_s cp (":" +:+ slot) ("::" +:+ repo +:+ "[" +:+ use)).
    rewrite take_app.
    unfold Py.find, Py.find_from. rewrite (index_char 0 ":" cp slot Hcp1) by lia.
    rewrite index_no_char.
    + f_equal. rewrite <- (app_assoc_s cp ":" slot).
      replace (String.length cp + 1)%nat with (String.length (cp +:+ ":"))
        by (rewrite length_app_s; reflexivity).
      apply drop_app.
    + by rewrite !free_app, Hcp2, Hs2.
  - unfold dep_getrepo_str, Py.find, Py.find_from. rewrite Hrepo.
    assert (Hall : cp +:+ ":" +:+ slot +:+ "::" +:+ repo +:+ "[" +:+ use
                   = (cp +:+ ":" +:+ slot +:+ "::" +:+ repo) +:+ "[" +:+ use).
    { by rewrite !app_assoc_s. }
    rewrite Hall at 1.
    rewrite (index_char _ "[" (cp +:+ ":" +:+ slot +:+ "::" +:+ repo) use).
    + f_equal. unfold Py.slice.
      assert (Hpre : cp +:+ ":" +:+ slot +:+ "::" +:+ repo +:+ "[" +:+ use
                     = (cp +:+ ":" +:+ slot +:+ "::") +:+ repo +:+ "[" +:+ use).
      { by rewrite !app_assoc_s. }
      rewrite Hpre.
      replace (String.length (cp +:+ ":" +:+ slot) + 2)%nat
        with (String.length (cp +:+ ":" +:+ slot +:+ "::"))
        by (rewrite !length_app_s; cbn; lia).
      rewrite drop_app.
      replace (String.length (cp +:+ ":" +:+ slot +:+ "::" +:+ repo)
               - String.length (cp +:+ ":" +:+ slot +:+ "::"))%nat
        with (String.length repo) by (rewrite !length_app_s; cbn; lia).
      apply take_app.
    + by rewrite !free_app, Hcp2, Hs2, Hr.
    + rewrite !length_app_s. lia.
Qed.

End SlotStrings.


Lemma slot_and_repo_round_trip_witness :
  free ":" "cat/pkg" = true /\ "2" <> EmptyString /\
  remove_slot "cat/pkg:2::gentoo[a,-b]" = "cat/pkg" /\
  dep_getslot_str "cat/pkg:2::gentoo[a,-b]" = Some "2" /\
  dep_getrepo_str "cat/pkg:2::gentoo[a,-b]" = Some "gentoo".
Proof.
  split; [reflexivity|]. split; [discriminate|].
  apply (slot_and_repo_round_trip "cat/pkg" "2" "gentoo" "a,-b]");
    first [reflexivity|discriminate].
Defined.

Lemma use_reduce_copies_one_level_witness :
  exists r st',
    @Memo.use_reduce Fixture.portage (Fixture.reduce_call "|| ( a b )")
      {| Memo.cells := []; Memo.cache := [] |} = (Ok r, st') /\
    exists r0 vs rest,
      Memo.cache st'
      = (Memo.key_of (Fixture.reduce_call "|| ( a b )"), r0) :: rest /\
      r0 <> r /\
      Memo.cells st' !! r0 = Some vs /\ Memo.cells st' !! r = Some vs.
Proof.
  eexists _, _. split; [vm_compute; reflexivity|].
  apply (@use_reduce_copies_one_level Fixture.portage
           (Fixture.reduce_call "|| ( a b )")
           {| Memo.cells := []; Memo.cache := [] |}).
  vm_compute. reflexivity.
Defined.

Lemma dep_opconvert_dangling_witness :
  Forall (fun e => Reduce.is_str e = true /\ Reduce.eq_str e "||" = false)
    [Reduce.Tok "a"; Reduce.Tok "b"] /\
  Lists.dep_opconvert [Reduce.Tok "a"; Reduce.Tok "b"; Reduce.Tok "||"]
  = Raise IndexError.
Proof.
  assert (H : Forall (fun e => Reduce.is_str e = true
                               /\ Reduce.eq_str e "||" = false)
                [Reduce.Tok "a"; Reduce.Tok "b"])
    by (repeat constructor).
  split; [exact H|]. exact (dep_opconvert_dangling _ H).
Defined.

(** ** REQUIRED_USE without groups *)

Section RequiredUseFlags.

Import RequiredUse FlagTokens.

Variable _get_eapi_attrs : option string -> _eapi_attrs.
Variable use : gset string.
Variable iuse_match : string -> bool.
Variable eapi : option string.

Lemma is_active_flag (token : string) :
  is_active use iuse_match token
  = if known iuse_match token then Ok (wants use token)
    else Raise InvalidDependString.
Proof.
  unfold is_active, known, wants, flag_of.
  destruct (Py.startswith token "!"); cbn [negb andb].
  - destruct (Py.truthy _), (iuse_match _); cbn; try reflexivity.
    by rewrite andb_false_r, andb_true_r.
  - destruct (Py.truthy _), (iuse_match _); cbn; try reflexivity.
    by rewrite andb_false_r, andb_true_r, orb_false_r.
Qed.

Lemma flag_step (token : string) (bs : list item) (t : arena)
    (cs : list nat) (s : bool) :
  is_flag (valid_operators _get_eapi_attrs eapi) token = true ->
  t !! 0%nat = Some (Branch cs None None s) ->
  step _get_eapi_attrs use iuse_match eapi token
    {| stack := [bs]; level := 0; tree := t; node := 0;
       need_bracket := false |}
  = if known iuse_match token then
      Ok {| stack := [bs ++ [IBool (wants use token)]]; level := 0;
            tree := <[0%nat := Branch (cs ++ [length t]) None None s]>
                      (t ++ [Leaf token (wants use token)]);
            node := 0; need_bracket := false |}
    else Raise InvalidDependString.
Proof.
  intros Hf Ht. unfold is_flag in Hf.
  apply andb_true_iff in Hf as [Hf Hq]. apply andb_true_iff in Hf as [Hf Hop].
  apply andb_true_iff in Hf as [Ho Hc].
  apply negb_true_iff in Ho, Hc, Hop, Hq.
  unfold step. rewrite Ho, Hc, Hop. cbn [need_bracket]. rewrite Hq.
  rewrite is_active_flag. destruct (known iuse_match token); [|reflexivity].
  cbn [bind stack level tree node].
  unfold stack_append, stack_at. cbn [lookup list_lookup of_option bind].
  assert (Hl : get (t ++ [Leaf token (wants use token)]) 0
               = Ok (Branch cs None None s)).
  { unfold get. by rewrite (lookup_app_l_Some _ _ _ _ Ht). }
  unfold append_child, children, set_children. rewrite Hl.
  reflexivity.
Qed.

Lemma flag_loop (tokens : list string) (bs : list item) (t : arena)
    (cs : list nat) (s : bool) :
  forallb (is_flag (valid_operators _get_eapi_attrs eapi)) tokens = true ->
  forallb (known iuse_match) tokens = true ->
  t !! 0%nat = Some (Branch cs None None s) ->
  exists t' cs',
    for_each (step _get_eapi_attrs use iuse_match eapi) tokens
      {| stack := [bs]; level := 0; tree := t; node := 0;
         need_bracket := false |}
    = Ok {| stack := [bs ++ (IBool <$> (wants use <$> tokens))]; level := 0;
            tree := t'; node := 0; need_bracket := false |} /\
    t' !! 0%nat = Some (Branch cs' None None s).
Proof.
  revert bs t cs. induction tokens as [|x tokens IH]; intros bs t cs Hf Hk Ht.
  - exists t, cs. cbn. by rewrite app_nil_r.
  - cbn [forallb] in Hf, Hk.
    apply andb_true_iff in Hf as [Hx Hf]. apply andb_true_iff in Hk as [Hkx Hk].
    cbn [for_each]. rewrite (flag_step x bs t cs s Hx Ht), Hkx. cbn [bind].
    destruct (IH (bs ++ [IBool (wants use x)])
                (<[0%nat := Branch (cs ++ [length t]) None None s]>
                   (t ++ [Leaf x (wants use x)]))
                (cs ++ [length t]) Hf Hk) as (t' & cs' & -> & Ht').
    { apply list_lookup_insert_eq. rewrite List.length_app.
      apply lookup_lt_Some in Ht. lia. }
    exists t', cs'. split; [|exact Ht'].
    by rewrite <- app_assoc.
Qed.

Lemma no_false (bs : list bool) :
  bool_decide (IBool false ∉ IBool <$> bs) = forallb (fun b => b) bs.
Proof.
  induction bs as [|b bs IH]; [reflexivity|]. cbn [fmap list_fmap forallb].
  rewrite <- IH. destruct b; cbn [andb].
  - apply bool_decide_ext. rewrite not_elem_of_cons. split; [tauto|].
    intros H. split; [discriminate|exact H].
  - apply bool_decide_eq_false_2. intros H. apply H. by left.
Qed.

Lemma root_verdict (t : arena) (cs : list nat) op p (s sat : bool) :
  t !! 0%nat = Some (Branch cs op p s) ->
  (let! a := set_satisfied t 0 sat in satisfied a 0) = Ok sat.
Proof.
  destruct t as [|n t]; [discriminate|]. intros [= ->]. reflexivity.
Qed.

(** A REQUIRED_USE string of flags only is a conjunction: it is satisfied
    exactly when every token is, a flag when it is enabled and a negated
    flag when it is not. *)
Theorem required_use_conjunction (required_use : string) :
  forallb (is_flag (valid_operators _get_eapi_attrs eapi))
    (Py.split required_use) = true ->
  forallb (known iuse_match) (Py.split required_use) = true ->
  verdict (check_required_use _get_eapi_attrs required_use use iuse_match eapi)
  = Ok (forallb (wants use) (Py.split required_use)).
Proof.
  intros Hf Hk. unfold verdict, check_required_use.
  destruct (flag_loop (Py.split required_use) [] [Branch [] None None false]
              [] false Hf Hk eq_refl) as (t' & cs' & Hloop & Ht').
  unfold initial. rewrite Hloop. cbn [bind level need_bracket orb stack tree].
  rewrite bool_decide_eq_false_2 by (intros H; by apply H).
  cbn [stack_at lookup list_lookup of_option bind app].
  cbn [orb]. cbv iota.
  rewrite (root_verdict t' cs' None None false _ Ht'), no_false. f_equal.
  clear. induction (Py.split required_use) as [|x l IH]; [reflexivity|].
  cbn [fmap list_fmap forallb]. f_equal. exact IH.
Qed.

(** In a REQUIRED_USE string whose first tokens are flags of IUSE, a
    following flag token that is empty after its [!] or is not in IUSE
    makes [check_required_use] raise InvalidDependString, whatever comes
    after it. *)
Theorem required_use_unknown_flag (required_use : string)
    (pre post : list string) (token : string) :
  Py.split required_use = pre ++ token :: post ->
  forallb (is_flag (valid_operators _get_eapi_attrs eapi)) (pre ++ [token])
  = true ->
  forallb (known iuse_match) pre = true ->
  known iuse_match token = false ->
  check_required_use _get_eapi_attrs required_use use iuse_match eapi
  = Raise InvalidDependString.
Proof.
  intros Hsplit Hf Hk Hbad. unfold check_required_use. rewrite Hsplit.
  rewrite forallb_app in Hf. apply andb_true_iff in Hf as [Hf Ht].
  cbn [forallb] in Ht. rewrite andb_true_r in Ht.
  rewrite for_each_app.
  destruct (flag_loop pre [] [Branch [] None None false] [] false Hf Hk eq_refl)
    as (t' & cs' & Hloop & Ht').
  unfold initial. rewrite Hloop. cbn [bind for_each].
  by rewrite (flag_step token _ t' cs' false Ht Ht'), Hbad.
Qed.

End RequiredUseFlags.

Lemma required_use_conjunction_witness :
  forallb (FlagTokens.is_flag
             (RequiredUse.valid_operators Fixture._get_eapi_attrs None))
    (Py.split "a !b c") = true /\
  forallb (FlagTokens.known Fixture.any_flag) (Py.split "a !b c") = true /\
  RequiredUse.verdict
    (RequiredUse.check_required_use Fixture._get_eapi_attrs "a !b c"
       {["a"; "c"]} Fixture.any_flag None)
  = Ok (forallb (FlagTokens.wants {["a"; "c"]}) (Py.split "a !b c")).
Proof.
  split; [vm_compute; reflexivity|]. split; [vm_compute; reflexivity|].
  apply (required_use_conjunction Fixture._get_eapi_attrs {["a"; "c"]}
           Fixture.any_flag None "a !b c"); vm_compute; reflexivity.
Defined.

Lemma required_use_unknown_flag_witness :
  Py.split "a b" = ["a"] ++ "b" :: [] /\
  forallb (FlagTokens.is_flag
             (RequiredUse.valid_operators Fixture._get_eapi_attrs None))
    (["a"] ++ ["b"]) = true /\
  forallb (FlagTokens.known (fun flag => bool_decide (flag = "a"))) ["a"]
  = true /\
  FlagTokens.known (fun flag => bool_decide (flag = "a")) "b" = false /\
  RequiredUse.check_required_use Fixture._get_eapi_attrs "a b" {["a"]}
    (fun flag => bool_decide (flag = "a")) None
  = Raise InvalidDependString.
Proof.
  split; [vm_compute; reflexivity|]. split; [vm_compute; reflexivity|].
  split; [vm_compute; reflexivity|]. split; [vm_compute; reflexivity|].
  apply (required_use_unknown_flag Fixture._get_eapi_attrs {["a"]}
           (fun flag => bool_decide (flag = "a")) None "a b" ["a"] [] "b");
    vm_compute; reflexivity.
Defined.

(** ** The package database of [PackageVirtualDbapi] *)

Section DbapiProperties.

Import PackageVirtualDbapi.

Context {Package : Type}.
Variable cpv cp slot_atom : Package -> string.
Variable pkg_eq : Package -> Package -> bool.

Hypothesis pkg_eq_refl : forall p, pkg_eq p p = true.
Hypothesis pkg_eq_same :
  forall p q, pkg_eq p q = true -> cpv p = cpv q /\ cp p = cp q.

Lemma clear_cache_maps (self : t Package) :
  _cp_map (_clear_cache self) = _cp_map self /\
  _cpv_map (_clear_cache self) = _cpv_map self /\
  _match_cache (_clear_cache self) = ∅ /\
  _categories (_clear_cache self) = None.
Proof.
  unfold _clear_cache.
  destruct self as [mc [cats|] cpm cpvm]; cbn;
    case_bool_decide as H; cbn; repeat split; try reflexivity; done.
Qed.

Lemma consistent_ext (self self' : t Package) :
  _cp_map self' = _cp_map self -> _cpv_map self' = _cpv_map self ->
  consistent cpv cp slot_atom self -> consistent cpv cp slot_atom self'.
Proof.
  intros H1 H2 [I1 I2 I3]. split; rewrite ?H1, ?H2; assumption.
Qed.

Lemma consistent_init : consistent cpv cp slot_atom (@init Package).
Proof.
  split; cbn; intros *; rewrite lookup_empty; discriminate.
Qed.

Lemma fmap_inj_on {A B} (f : A -> B) (l : list A) (x y : A) :
  NoDup (f <$> l) -> x ∈ l -> y ∈ l -> f x = f y -> x = y.
Proof.
  induction l as [|a l IH]; [by intros _ ?%elem_of_nil|].
  rewrite fmap_cons, NoDup_cons. intros [Ha Hl] Hx Hy Hf.
  apply elem_of_cons in Hx as [->|Hx]; apply elem_of_cons in Hy as [->|Hy].
  - reflexivity.
  - exfalso. apply Ha. rewrite Hf. by apply list_elem_of_fmap_2.
  - exfalso. apply Ha. rewrite <- Hf. by apply list_elem_of_fmap_2.
  - by apply IH.
Qed.

Lemma list_remove_ok (l : list Package) (x o : Package) :
  o ∈ l -> pkg_eq o x = true ->
  (forall y, y ∈ l -> pkg_eq y x = true -> y = o) -> NoDup l ->
  exists l', list_remove pkg_eq l x = Ok l' /\ sublist l' l /\
             forall y, y ∈ l' <-> y ∈ l /\ y <> o.
Proof.
  induction l as [|a l IH]; [by intros ?%elem_of_nil|].
  intros Ho Heq Hall Hnd. apply NoDup_cons in Hnd as [Ha Hnd].
  cbn [list_remove]. destruct (pkg_eq a x) eqn:Ea.
  - assert (a = o) as -> by (apply Hall; [by left|done]).
    exists l. split; [done|]. split; [by apply sublist_cons|].
    intros y. rewrite elem_of_cons. split.
    + intros Hy. split; [by right|]. by intros ->.
    + intros [[->|Hy] Hne]; done.
  - apply elem_of_cons in Ho as [->|Ho]; [congruence|].
    destruct (IH Ho Heq) as (l' & -> & Hsub & Hmem); [|done|].
    { intros y Hy. apply Hall. by right. }
    exists (a :: l'). split; [done|]. split; [by apply sublist_skip|].
    intros y. rewrite !elem_of_cons, Hmem. split.
    + intros [->|[Hy Hne]]; [|by split; [right|]].
      split; [by left|]. by intros ->.
    + intros [[->|Hy] Hne]; [by left|by right].
Qed.

Lemma remove_ok (self : t Package) (x o : Package) :
  consistent cpv cp slot_atom self ->
  _cpv_map self !! cpv x = Some o -> pkg_eq o x = true ->
  exists self' l l',
    cpv_remove cpv cp pkg_eq self x = Ok self' /\
    consistent cpv cp slot_atom self' /\
    _cpv_map self' = delete (cpv x) (_cpv_map self) /\
    _cp_map self !! cp x = Some l /\
    _cp_map self' = <[cp x := l']> (_cp_map self) /\
    sublist l' l /\ (forall y, y ∈ l' <-> y ∈ l /\ y <> o) /\
    _match_cache self' = ∅ /\ _categories self' = None.
Proof.
  intros [I1 I2 I3] Hm Heq. destruct (pkg_eq_same _ _ Heq) as [Hcpv Hcp].
  destruct (I1 _ _ Hm) as (Hc & l & Hl & Hol). rewrite Hcp in Hl.
  destruct (list_remove_ok l x o Hol Heq) as (l' & Hrem & Hsub & Hmem).
  { intros y Hy Hyx. destruct (I2 _ _ _ Hl Hy) as [_ Hy'].
    destruct (pkg_eq_same _ _ Hyx) as [E _]. rewrite E, Hm in Hy'.
    congruence. }
  { eapply NoDup_fmap_1, I3, Hl. }
  unfold cpv_remove. rewrite Hm, Heq. cbn [negb]. rewrite Hl.
  cbn [of_option bind]. rewrite Hrem. cbn [bind].
  match goal with |- context [_clear_cache ?s] =>
    destruct (clear_cache_maps s) as (E1 & E2 & E3 & E4);
    pose proof (consistent_ext s (_clear_cache s) E1 E2) as Hext
  end.
  cbn [_cp_map _cpv_map] in E1, E2.
  eexists _, l, l'. split; [reflexivity|].
  split; [|by rewrite E1, E2, E3, E4].
  apply Hext. clear Hext E1 E2 E3 E4. split; cbn [_cp_map _cpv_map].
  - intros c p Hp. apply lookup_delete_Some in Hp as [Hne Hp].
    destruct (I1 _ _ Hp) as (Hcp' & lp & Hlp & Hin). split; [done|].
    destruct (decide (cp p = cp x)) as [E|E].
    + rewrite E, lookup_insert_eq. exists l'. split; [done|].
      rewrite E, Hl in Hlp. injection Hlp as <-. apply Hmem. split; [done|].
      intros ->. congruence.
    + rewrite lookup_insert_ne by done. by exists lp.
  - intros k lk p Hk Hp. destruct (decide (k = cp x)) as [->|E].
    + rewrite lookup_insert_eq in Hk. injection Hk as <-.
      apply Hmem in Hp as [Hp Hne]. destruct (I2 _ _ _ Hl Hp) as [Hcpp Hpp].
      split; [done|]. rewrite lookup_delete_ne; [done|].
      intros E. rewrite <- E, Hm in Hpp. congruence.
    + rewrite lookup_insert_ne in Hk by done.
      destruct (I2 _ _ _ Hk Hp) as [Hcpp Hpp]. split; [done|].
      rewrite lookup_delete_ne; [done|].
      intros E'. rewrite <- E', Hm in Hpp. congruence.
  - intros k lk Hk. destruct (decide (k = cp x)) as [->|E].
    + rewrite lookup_insert_eq in Hk. injection Hk as <-.
      eapply sublist_NoDup; [by eapply I3|]. by apply fmap_sublist.
    + rewrite lookup_insert_ne in Hk by done. by eapply I3.
Qed.

Lemma new_ok (self : t Package) (pkg : Package) (l : list Package) :
  consistent cpv cp slot_atom self ->
  _cp_map self !! cp pkg = Some l ->
  _cpv_map self !! cpv pkg = None ->
  (forall y, y ∈ l -> slot_atom y <> slot_atom pkg) ->
  consistent cpv cp slot_atom (inject_new cpv cp self pkg) /\
  _cpv_map (inject_new cpv cp self pkg) = <[cpv pkg := pkg]> (_cpv_map self) /\
  _match_cache (inject_new cpv cp self pkg) = ∅ /\
  _categories (inject_new cpv cp self pkg) = None.
Proof.
  intros [I1 I2 I3] Hl Hnone Hslot. unfold inject_new, cp_list_of.
  rewrite Hl. cbn [default from_option id].
  match goal with |- context [_clear_cache ?s] =>
    destruct (clear_cache_maps s) as (E1 & E2 & E3 & E4);
    pose proof (consistent_ext s (_clear_cache s) E1 E2) as Hext
  end.
  cbn [_cp_map _cpv_map] in E1, E2.
  split; [|by rewrite E2, E3, E4].
  apply Hext. clear Hext E1 E2 E3 E4. split; cbn [_cp_map _cpv_map].
  - intros c p Hp. apply lookup_insert_Some in Hp as [[<- <-]|[Hne Hp]].
    + split; [done|]. exists (l ++ [pkg]). rewrite lookup_insert_eq.
      split; [done|]. apply elem_of_app. right. by apply list_elem_of_singleton.
    + destruct (I1 _ _ Hp) as (Hc & lp & Hlp & Hin). split; [done|].
      destruct (decide (cp p = cp pkg)) as [E|E].
      * rewrite E, lookup_insert_eq. exists (l ++ [pkg]). split; [done|].
        rewrite E, Hl in Hlp. injection Hlp as <-.
        apply elem_of_app. by left.
      * rewrite lookup_insert_ne by done. by exists lp.
  - intros k lk p Hk Hp.
    assert (Hold : forall k' l', _cp_map self !! k' = Some l' -> p ∈ l' ->
                     cp p = k' /\
                     <[cpv pkg := pkg]> (_cpv_map self) !! cpv p = Some p).
    { intros k' l' Hk' Hp'. destruct (I2 _ _ _ Hk' Hp') as [Hcpp Hpp].
      split; [done|]. rewrite lookup_insert_ne; [done|].
      intros E. rewrite E, Hpp in Hnone. discriminate. }
    destruct (decide (k = cp pkg)) as [->|E].
    + rewrite lookup_insert_eq in Hk. injection Hk as <-.
      apply elem_of_app in Hp as [Hp|Hp]; [by apply (Hold _ _ Hl)|].
      apply list_elem_of_singleton in Hp as ->.
      by rewrite lookup_insert_eq.
    + rewrite lookup_insert_ne in Hk by done. by apply (Hold _ _ Hk).
  - intros k lk Hk. destruct (decide (k = cp pkg)) as [->|E].
    + rewrite lookup_insert_eq in Hk. injection Hk as <-.
      rewrite fmap_app. apply NoDup_app. split; [by eapply I3|].
      split; [|apply NoDup_singleton].
      intros s Hs Hs'. apply list_elem_of_singleton in Hs' as ->.
      apply list_elem_of_fmap in Hs as (y & Hy & Hin).
      by apply (Hslot y Hin).
    + rewrite lookup_insert_ne in Hk by done. by eapply I3.
Qed.

Lemma slot_ok (self : t Package) (pkg : Package) :
  consistent cpv cp slot_atom self ->
  is_Some (_cp_map self !! cp pkg) ->
  _cpv_map self !! cpv pkg = None ->
  exists self',
    inject_slot cpv cp slot_atom pkg_eq self pkg = Ok self' /\
    consistent cpv cp slot_atom self' /\
    (forall c q, _cpv_map self' !! c = Some q <->
       (c = cpv pkg /\ q = pkg) \/
       (c <> cpv pkg /\ _cpv_map self !! c = Some q /\
        ~ (cp q = cp pkg /\ slot_atom q = slot_atom pkg))) /\
    _match_cache self' = ∅ /\ _categories self' = None.
Proof.
  intros Hc [l Hl] Hnone. pose proof Hc as [I1 I2 I3].
  unfold inject_slot, cp_list_of. rewrite Hl. cbn [default from_option id].
  destruct (find (fun e_pkg => bool_decide (slot_atom e_pkg = slot_atom pkg)) l)
    as [e|] eqn:Hfind.
  - apply find_some in Hfind as [Hin Hs]. apply bool_decide_eq_true in Hs.
    apply list_elem_of_In in Hin.
    destruct (I2 _ _ _ Hl Hin) as [Hcpe Hee].
    destruct (pkg_eq e pkg) eqn:Heq.
    { destruct (pkg_eq_same _ _ Heq) as [E _]. rewrite E, Hnone in Hee.
      discriminate. }
    destruct (remove_ok self e e Hc Hee (pkg_eq_refl e))
      as (self1 & l0 & l1 & -> & Hc1 & Hm1 & Hl0 & Hcp1 & Hsub & Hmem & _).
    cbn [bind]. rewrite Hcpe, Hl in Hl0. injection Hl0 as <-.
    destruct (new_ok self1 pkg l1 Hc1) as (Hc2 & Hm2 & Hcache).
    { rewrite Hcp1, Hcpe. apply lookup_insert_eq. }
    { rewrite Hm1. apply lookup_delete_None. by right. }
    { intros y Hy Hsy. apply Hmem in Hy as [Hy Hne]. apply Hne.
      eapply (fmap_inj_on slot_atom l); [by eapply I3|done|done|congruence]. }
    eexists. split; [reflexivity|]. split; [done|]. split; [|done].
    intros c q. rewrite Hm2, lookup_insert_Some, Hm1, lookup_delete_Some.
    split.
    + intros [[<- <-]|(Hne & Hne2 & Hq)]; [by left|].
      right. split; [done|]. split; [done|].
      intros [Hcq Hsq]. destruct (I1 _ _ Hq) as (Hcpvq & lq & Hlq & Hinq).
      rewrite Hcq, Hl in Hlq. injection Hlq as <-.
      assert (q = e) as ->
        by (eapply (fmap_inj_on slot_atom l);
            [by eapply I3|done|done|congruence]).
      congruence.
    + intros [[-> ->]|(Hne & Hq & Hnot)]; [by left|].
      right. split; [done|]. split; [|done].
      intros E. rewrite <- E, Hee in Hq. injection Hq as <-. by apply Hnot.
  - pose proof (find_none _ _ Hfind) as Hno.
    assert (Hslot : forall y, y ∈ l -> slot_atom y <> slot_atom pkg).
    { intros y Hy. apply list_elem_of_In in Hy. specialize (Hno y Hy).
      cbn in Hno. by apply bool_decide_eq_false in Hno. }
    destruct (new_ok self pkg l Hc Hl Hnone Hslot) as (Hc2 & Hm2 & Hcache).
    eexists; split; [reflexivity|]. split; [done|]. split; [|done].
    intros c q. rewrite Hm2, lookup_insert_Some. split.
    + intros [[<- <-]|[Hne Hq]]; [by left|].
      right. split; [done|]. split; [done|].
      intros [Hcq Hsq]. destruct (I1 _ _ Hq) as (_ & lq & Hlq & Hinq).
      rewrite Hcq, Hl in Hlq. injection Hlq as <-. by apply (Hslot q).
    + intros [[-> ->]|(Hne & Hq & _)]; [by left|by right].
Qed.

Lemma inject_present (self : t Package) (pkg : Package) :
  consistent cpv cp slot_atom self ->
  __contains__ cpv pkg_eq self pkg = true ->
  cpv_inject cpv cp slot_atom pkg_eq self pkg = Ok self.
Proof.
  intros [I1 I2 I3]. unfold __contains__, cpv_inject.
  destruct (_cpv_map self !! cpv pkg) as [e|] eqn:He; [|discriminate].
  intros Heq. destruct (I1 _ _ He) as (_ & l & Hl & _).
  destruct (pkg_eq_same _ _ Heq) as [_ Hcp]. rewrite Hcp in Hl.
  by rewrite Hl, He, Heq.
Qed.

Lemma inject_fresh (self : t Package) (pkg : Package) :
  consistent cpv cp slot_atom self ->
  __contains__ cpv pkg_eq self pkg = false ->
  exists self',
    cpv_inject cpv cp slot_atom pkg_eq self pkg = Ok self' /\
    consistent cpv cp slot_atom self' /\
    (forall c q, _cpv_map self' !! c = Some q <->
       (c = cpv pkg /\ q = pkg) \/
       (c <> cpv pkg /\ _cpv_map self !! c = Some q /\
        ~ (cp q = cp pkg /\ slot_atom q = slot_atom pkg))) /\
    _match_cache self' = ∅ /\ _categories self' = None.
Proof.
  intros Hc Hnot. unfold cpv_inject.
  set (self0 := match _cp_map self !! cp pkg with
                | Some _ => self
                | None => _
                end).
  assert (H0 : consistent cpv cp slot_atom self0 /\
               _cpv_map self0 = _cpv_map self /\
               is_Some (_cp_map self0 !! cp pkg)).
  { subst self0. destruct (_cp_map self !! cp pkg) as [l|] eqn:Hl.
    - by rewrite Hl.
    - split; [|split; [done|]]; cbn [_cp_map _cpv_map];
        [|by rewrite lookup_insert_eq].
      destruct Hc as [I1 I2 I3]. split; cbn [_cp_map _cpv_map].
      + intros c p Hp. destruct (I1 _ _ Hp) as (Hcp & lp & Hlp & Hin).
        split; [done|]. exists lp. split; [|done].
        rewrite lookup_insert_ne; [done|]. intros E. congruence.
      + intros k lk p Hk Hp. apply lookup_insert_Some in Hk as [[_ <-]|[_ Hk]].
        * by apply elem_of_nil in Hp.
        * by eapply I2.
      + intros k lk Hk. apply lookup_insert_Some in Hk as [[_ <-]|[_ Hk]].
        * apply NoDup_nil_2.
        * by eapply I3. }
  clearbody self0. destruct H0 as (Hc0 & Hm0 & Hk0). rewrite Hm0.
  unfold __contains__ in Hnot.
  destruct (_cpv_map self !! cpv pkg) as [e|] eqn:He.
  - rewrite Hnot. rewrite <- Hm0 in He.
    destruct Hc0 as [I1 I2 I3]. destruct (I1 _ _ He) as (Hcpve & _).
    assert (Hc0 : consistent cpv cp slot_atom self0) by (by split).
    rewrite <- Hcpve in He.
    destruct (remove_ok self0 e e Hc0 He (pkg_eq_refl e))
      as (self1 & l0 & l1 & -> & Hc1 & Hm1 & Hl0 & Hcp1 & _).
    cbn [bind]. rewrite Hcpve in Hm1.
    destruct (slot_ok self1 pkg Hc1) as (self2 & -> & Hc2 & Hchar & Hcache).
    { rewrite Hcp1. destruct (decide (cp e = cp pkg)) as [->|E].
      - rewrite lookup_insert_eq. by eexists.
      - by rewrite lookup_insert_ne. }
    { rewrite Hm1. apply lookup_delete_None. by left. }
    exists self2. split; [done|]. split; [done|]. split; [|done].
    intros c q. rewrite Hchar, Hm1, lookup_delete_Some, Hm0. split.
    + intros [H|(H1 & [_ H2] & H3)]; [by left|by right].
    + intros [H|(H1 & H2 & H3)]; [by left|].
      right. split; [done|]. split; [|done]. split; [congruence|done].
  - destruct (slot_ok self0 pkg Hc0 Hk0) as (self2 & -> & Hc2 & Hchar & Hcache).
    { by rewrite Hm0. }
    exists self2. split; [done|]. split; [done|]. split; [|done].
    intros c q. rewrite Hchar, Hm0. tauto.
Qed.

Lemma inject_step (self : t Package) (pkg : Package) :
  consistent cpv cp slot_atom self ->
  exists self',
    cpv_inject cpv cp slot_atom pkg_eq self pkg = Ok self' /\
    consistent cpv cp slot_atom self' /\
    __contains__ cpv pkg_eq self' pkg = true.
Proof.
  intros Hc. destruct (__contains__ cpv pkg_eq self pkg) eqn:Hin.
  - exists self. by rewrite inject_present.
  - destruct (inject_fresh self pkg Hc Hin) as (self' & -> & Hc' & Hchar & _).
    exists self'. split; [done|]. split; [done|].
    unfold __contains__.
    assert (_cpv_map self' !! cpv pkg = Some pkg) as -> by (apply Hchar; by left).
    apply pkg_eq_refl.
Qed.

Lemma inject_loop (pkgs : list Package) (self : t Package) :
  consistent cpv cp slot_atom self ->
  exists db,
    for_each (fun pkg self => cpv_inject cpv cp slot_atom pkg_eq self pkg)
      pkgs self = Ok db /\
    consistent cpv cp slot_atom db /\
    forall c p, _cpv_map db !! c = Some p ->
                p ∈ pkgs \/ _cpv_map self !! c = Some p.
Proof.
  revert self. induction pkgs as [|pkg pkgs IH]; intros self Hc.
  - exists self. cbn. split; [done|]. split; [done|]. intros c p Hp. by right.
  - cbn [for_each].
    assert (exists self',
      cpv_inject cpv cp slot_atom pkg_eq self pkg = Ok self' /\
      consistent cpv cp slot_atom self' /\
      forall c p, _cpv_map self' !! c = Some p ->
                  p = pkg \/ _cpv_map self !! c = Some p)
      as (self' & -> & Hc' & Hsub).
    { destruct (__contains__ cpv pkg_eq self pkg) eqn:Hin.
      - exists self. rewrite inject_present by done.
        split; [done|]. split; [done|]. intros c p Hp. by right.
      - destruct (inject_fresh self pkg Hc Hin)
          as (self' & -> & Hc' & Hchar & _).
        exists self'. split; [done|]. split; [done|].
        intros c p Hp. apply Hchar in Hp as [[_ ->]|(_ & Hp & _)];
          [by left|by right]. }
    cbn [bind]. destruct (IH self' Hc') as (db & -> & Hdb & Hin).
    exists db. split; [done|]. split; [done|].
    intros c p Hp. destruct (Hin c p Hp) as [H|H].
    + left. by right.
    + destruct (Hsub c p H) as [->|H']; [left; by left|by right].
Qed.

(** Starting from the empty database, every sequence of [cpv_inject]
    calls succeeds: the calls of [cpv_remove] inside never raise.  The
    database then holds injected packages only, each under its own [cpv],
    and no two packages with the same [cp] and the same [slot_atom]. *)
Theorem cpv_inject_sequence (pkgs : list Package) :
  exists db,
    for_each (fun pkg self => cpv_inject cpv cp slot_atom pkg_eq self pkg)
      pkgs init = Ok db /\
    (forall c p, _cpv_map db !! c = Some p -> p ∈ pkgs /\ cpv p = c) /\
    (forall c1 c2 p q,
       _cpv_map db !! c1 = Some p -> _cpv_map db !! c2 = Some q ->
       cp p = cp q -> slot_atom p = slot_atom q -> p = q).
Proof.
  destruct (inject_loop pkgs init consistent_init)
    as (db & Hrun & [I1 I2 I3] & Hin).
  exists db. split; [done|]. split.
  - intros c p Hp. split; [|by apply (I1 _ _ Hp)].
    destruct (Hin c p Hp) as [H|H]; [done|].
    cbn in H. by rewrite lookup_empty in H.
  - intros c1 c2 p q Hp Hq Hcp Hslot.
    destruct (I1 _ _ Hp) as (_ & lp & Hlp & Hinp).
    destruct (I1 _ _ Hq) as (_ & lq & Hlq & Hinq).
    rewrite Hcp, Hlq in Hlp. injection Hlp as <-.
    eapply (fmap_inj_on slot_atom lq); [by eapply I3|done|done|done].
Qed.

(** [cpv_inject] of a package that is not in a consistent database
    succeeds and replaces: afterwards the database holds [pkg] under
    [pkg.cpv], and besides it exactly the packages it held before under
    another [cpv] that do not have both the [cp] and the [slot_atom] of
    [pkg].  The database stays consistent and its caches are empty. *)
Theorem cpv_inject_replaces (self : t Package) (pkg : Package) :
  consistent cpv cp slot_atom self ->
  __contains__ cpv pkg_eq self pkg = false ->
  exists self',
    cpv_inject cpv cp slot_atom pkg_eq self pkg = Ok self' /\
    consistent cpv cp slot_atom self' /\
    (forall c q, _cpv_map self' !! c = Some q <->
       (c = cpv pkg /\ q = pkg) \/
       (c <> cpv pkg /\ _cpv_map self !! c = Some q /\
        ~ (cp q = cp pkg /\ slot_atom q = slot_atom pkg))) /\
    _match_cache self' = ∅ /\ _categories self' = None.
Proof.
  apply inject_fresh.
Qed.

(** After [cpv_inject] on a consistent database [pkg in db] holds, and
    injecting a package that is in the database already changes
    nothing, the caches included. *)
Theorem cpv_inject_contains (self : t Package) (pkg : Package) :
  consistent cpv cp slot_atom self ->
  exists self',
    cpv_inject cpv cp slot_atom pkg_eq self pkg = Ok self' /\
    __contains__ cpv pkg_eq self' pkg = true /\
    (__contains__ cpv pkg_eq self pkg = true -> self' = self).
Proof.
  intros Hc. destruct (__contains__ cpv pkg_eq self pkg) eqn:Hin.
  - exists self. by rewrite inject_present.
  - destruct (inject_step self pkg Hc) as (self' & -> & _ & Hin').
    exists self'. split; [done|]. split; [done|]. discriminate.
Qed.

(** [cpv_remove] on a consistent database raises KeyError exactly when
    [pkg in db] is false.  Otherwise it succeeds, the package stored
    under [pkg.cpv] is gone and nothing else, the database stays
    consistent, and [_cp_map] keeps all its keys, also the one whose list
    has become empty. *)
Theorem cpv_remove_spec (self : t Package) (pkg : Package) :
  consistent cpv cp slot_atom self ->
  if __contains__ cpv pkg_eq self pkg
  then exists self',
         cpv_remove cpv cp pkg_eq self pkg = Ok self' /\
         consistent cpv cp slot_atom self' /\
         _cpv_map self' = delete (cpv pkg) (_cpv_map self) /\
         __contains__ cpv pkg_eq self' pkg = false /\
         forall k, is_Some (_cp_map self' !! k) <-> is_Some (_cp_map self !! k)
  else cpv_remove cpv cp pkg_eq self pkg = Raise KeyError.
Proof.
  intros Hc. unfold __contains__.
  destruct (_cpv_map self !! cpv pkg) as [o|] eqn:Ho.
  - destruct (pkg_eq o pkg) eqn:Heq.
    + destruct (remove_ok self pkg o Hc Ho Heq)
        as (self' & l & l' & -> & Hc' & Hm & Hl & Hcp & _).
      exists self'. split; [done|]. split; [done|]. split; [done|]. split.
      * by rewrite Hm, lookup_delete_eq.
      * intros k. rewrite Hcp. destruct (decide (k = cp pkg)) as [->|E].
        -- rewrite lookup_insert_eq, Hl. split; by eexists.
        -- by rewrite lookup_insert_ne.
    + unfold cpv_remove. by rewrite Ho, Heq.
  - unfold cpv_remove. by rewrite Ho.
Qed.

(** Injecting a package into a consistent database that has neither its
    [cpv] nor a package of its [cp] and [slot_atom], and removing it
    again, gives back the packages the database had. *)
Theorem cpv_inject_remove (self : t Package) (pkg : Package) :
  consistent cpv cp slot_atom self ->
  _cpv_map self !! cpv pkg = None ->
  (forall c q, _cpv_map self !! c = Some q ->
               ~ (cp q = cp pkg /\ slot_atom q = slot_atom pkg)) ->
  exists self' self'',
    cpv_inject cpv cp slot_atom pkg_eq self pkg = Ok self' /\
    cpv_remove cpv cp pkg_eq self' pkg = Ok self'' /\
    _cpv_map self'' = _cpv_map self.
Proof.
  intros Hc Hnone Hfree.
  destruct (inject_fresh self pkg Hc) as (self' & Hrun & Hc' & Hchar & _).
  { unfold __contains__. by rewrite Hnone. }
  assert (Hp : _cpv_map self' !! cpv pkg = Some pkg) by (apply Hchar; by left).
  destruct (remove_ok self' pkg pkg Hc' Hp (pkg_eq_refl pkg))
    as (self'' & l & l' & Hrem & _ & Hm & _).
  exists self', self''. split; [done|]. split; [done|].
  rewrite Hm. apply map_eq. intros c. apply option_eq. intros q.
  rewrite lookup_delete_Some, Hchar. split.
  - intros [Hne [[-> _]|(_ & Hq & _)]]; done.
  - intros Hq. assert (c <> cpv pkg) by (intros ->; congruence).
    split; [congruence|]. right. split; [done|]. split; [done|].
    by eapply Hfree.
Qed.

End DbapiProperties.

Lemma package_eq_refl (p : PackageFixture.package) :
  PackageFixture.package_eq p p = true.
Proof.
  unfold PackageFixture.package_eq. by rewrite !bool_decide_eq_true_2.
Qed.

Lemma package_eq_same (p q : PackageFixture.package) :
  PackageFixture.package_eq p q = true ->
  PackageFixture.pkg_cpv p = PackageFixture.pkg_cpv q /\
  PackageFixture.pkg_cp p = PackageFixture.pkg_cp q.
Proof.
  unfold PackageFixture.package_eq. intros H.
  apply andb_true_iff in H as [H _]. apply andb_true_iff in H as [H1 H2].
  by apply bool_decide_eq_true in H1, H2.
Qed.

Lemma one_consistent :
  PackageVirtualDbapi.consistent PackageFixture.pkg_cpv PackageFixture.pkg_cp
    PackageFixture.pkg_slot_atom PackageFixture.one.
Proof.
  split; cbn [PackageFixture.one PackageVirtualDbapi._cp_map
              PackageVirtualDbapi._cpv_map].
  - intros c p Hp. apply lookup_singleton_Some in Hp as [<- <-].
    split; [done|]. exists [PackageFixture.foo_1].
    split; [done|]. by left.
  - intros k l p Hl Hp. apply lookup_singleton_Some in Hl as [<- <-].
    apply list_elem_of_singleton in Hp as ->. done.
  - intros k l Hl. apply lookup_singleton_Some in Hl as [<- <-].
    apply NoDup_singleton.
Qed.

Lemma cpv_inject_sequence_witness :
  (forall p, PackageFixture.package_eq p p = true) /\
  (forall p q, PackageFixture.package_eq p q = true ->
     PackageFixture.pkg_cpv p = PackageFixture.pkg_cpv q /\
     PackageFixture.pkg_cp p = PackageFixture.pkg_cp q) /\
  exists db,
    for_each (fun pkg self => PackageFixture.inject self pkg)
      [PackageFixture.foo_1; PackageFixture.bar_1; PackageFixture.foo_2]
      PackageVirtualDbapi.init = Ok db /\
    (forall c p, PackageVirtualDbapi._cpv_map db !! c = Some p ->
       p ∈ [PackageFixture.foo_1; PackageFixture.bar_1; PackageFixture.foo_2]
       /\ PackageFixture.pkg_cpv p = c) /\
    (forall c1 c2 p q,
       PackageVirtualDbapi._cpv_map db !! c1 = Some p ->
       PackageVirtualDbapi._cpv_map db !! c2 = Some q ->
       PackageFixture.pkg_cp p = PackageFixture.pkg_cp q ->
       PackageFixture.pkg_slot_atom p = PackageFixture.pkg_slot_atom q ->
       p = q).
Proof.
  split; [exact package_eq_refl|]. split; [exact package_eq_same|].
  exact (cpv_inject_sequence PackageFixture.pkg_cpv PackageFixture.pkg_cp
           PackageFixture.pkg_slot_atom PackageFixture.package_eq
           package_eq_refl package_eq_same
           [PackageFixture.foo_1; PackageFixture.bar_1; PackageFixture.foo_2]).
Defined.

Lemma cpv_inject_replaces_witness :
  PackageVirtualDbapi.__contains__ PackageFixture.pkg_cpv
    PackageFixture.package_eq PackageFixture.one PackageFixture.foo_2 = false /\
  exists self',
    PackageFixture.inject PackageFixture.one PackageFixture.foo_2 = Ok self' /\
    PackageVirtualDbapi.consistent PackageFixture.pkg_cpv PackageFixture.pkg_cp
      PackageFixture.pkg_slot_atom self' /\
    (forall c q, PackageVirtualDbapi._cpv_map self' !! c = Some q <->
       (c = "dev/foo-2" /\ q = PackageFixture.foo_2) \/
       (c <> "dev/foo-2" /\
        PackageVirtualDbapi._cpv_map PackageFixture.one !! c = Some q /\
        ~ (PackageFixture.pkg_cp q = "dev/foo" /\
           PackageFixture.pkg_slot_atom q = "dev/foo:0"))) /\
    PackageVirtualDbapi._match_cache self' = ∅ /\
    PackageVirtualDbapi._categories self' = None.
Proof.
  split; [vm_compute; reflexivity|].
  apply (cpv_inject_replaces PackageFixture.pkg_cpv PackageFixture.pkg_cp
           PackageFixture.pkg_slot_atom PackageFixture.package_eq
           package_eq_refl package_eq_same PackageFixture.one
           PackageFixture.foo_2 one_consistent).
  vm_compute; reflexivity.
Defined.

Lemma cpv_inject_contains_witness :
  exists self',
    PackageFixture.inject PackageFixture.one PackageFixture.foo_1 = Ok self' /\
    PackageVirtualDbapi.__contains__ PackageFixture.pkg_cpv
      PackageFixture.package_eq self' PackageFixture.foo_1 = true /\
    (PackageVirtualDbapi.__contains__ PackageFixture.pkg_cpv
       PackageFixture.package_eq PackageFixture.one PackageFixture.foo_1 = true
     -> self' = PackageFixture.one).
Proof.
  exact (cpv_inject_contains PackageFixture.pkg_cpv PackageFixture.pkg_cp
           PackageFixture.pkg_slot_atom PackageFixture.package_eq
           package_eq_refl package_eq_same PackageFixture.one
           PackageFixture.foo_1 one_consistent).
Defined.

Lemma cpv_remove_spec_witness :
  PackageVirtualDbapi.__contains__ PackageFixture.pkg_cpv
    PackageFixture.package_eq PackageFixture.one PackageFixture.foo_1 = true /\
  exists self',
    PackageFixture.remove PackageFixture.one PackageFixture.foo_1 = Ok self' /\
    PackageVirtualDbapi.consistent PackageFixture.pkg_cpv PackageFixture.pkg_cp
      PackageFixture.pkg_slot_atom self' /\
    PackageVirtualDbapi._cpv_map self'
    = delete "dev/foo-1" (PackageVirtualDbapi._cpv_map PackageFixture.one) /\
    PackageVirtualDbapi.__contains__ PackageFixture.pkg_cpv
      PackageFixture.package_eq self' PackageFixture.foo_1 = false /\
    forall k, is_Some (PackageVirtualDbapi._cp_map self' !! k)
              <-> is_Some (PackageVirtualDbapi._cp_map PackageFixture.one !! k).
Proof.
  split; [vm_compute; reflexivity|].
  exact (cpv_remove_spec PackageFixture.pkg_cpv PackageFixture.pkg_cp
           PackageFixture.pkg_slot_atom PackageFixture.package_eq
           package_eq_same PackageFixture.one
           PackageFixture.foo_1 one_consistent).
Defined.

Lemma cpv_inject_remove_witness :
  PackageVirtualDbapi._cpv_map PackageFixture.one !! "dev/bar-1" = None /\
  exists self' self'',
    PackageFixture.inject PackageFixture.one PackageFixture.bar_1 = Ok self' /\
    PackageFixture.remove self' PackageFixture.bar_1 = Ok self'' /\
    PackageVirtualDbapi._cpv_map self''
    = PackageVirtualDbapi._cpv_map PackageFixture.one.
Proof.
  split; [vm_compute; reflexivity|].
  apply (cpv_inject_remove PackageFixture.pkg_cpv PackageFixture.pkg_cp
           PackageFixture.pkg_slot_atom PackageFixture.package_eq
           package_eq_refl package_eq_same PackageFixture.one
           PackageFixture.bar_1 one_consistent).
  - vm_compute; reflexivity.
  - intros c q Hq [Hcp _]. cbn in Hq.
    apply lookup_singleton_Some in Hq as [_ <-]. discriminate.
Defined.
